(** * fm-odata-client: the batch protocol codec and the identity token manager

    A shallow embedding of [src/BatchRequest.ts] and of the behaviour of the
    identity token manager that [test/ClarisId.test.ts] exercises, with the
    properties of the specification stated and proved over it.

    JavaScript strings are modelled as lists of 8-bit code units
    ([list ascii]): the wire format of a batch is a byte sequence, and a
    code unit above 255 is refused by [Headers] anyway.  Indices are [Z], as
    in the source, where [indexOf] answers [-1] and [slice] accepts negative
    positions.  The platform is the one the source runs on, Node.js with its
    Fetch classes. *)

From Stdlib Require Import Ascii String.
From Stdlib Require Import List Arith Lia Bool ZArith.
Import ListNotations.

Abbreviation length := Datatypes.length.

Set Warnings "-register-all".

Open Scope string_scope.
Open Scope nat_scope.
Open Scope list_scope.

(** ** Strings of the platform *)

Definition str := list ascii.

Coercion list_ascii_of_string : string >-> list.

Definition CR : ascii := ascii_of_nat 13.
Definition LF : ascii := ascii_of_nat 10.
Definition CRLF : str := [CR; LF].

(** Outcome of a call: a value, or the exception that left it. *)
Inductive exn : Type :=
| Error (message : str)   (* [throw new Error(message)] of the source *)
| TypeError               (* raised by [Headers], [Response], streams *)
| RangeError.             (* raised by [Response] on a status out of range *)

Inductive result (A : Type) : Type :=
| Ok (a : A)
| Throw (e : exn).
Arguments Ok {A} a.
Arguments Throw {A} e.

Definition bind {A B} (r : result A) (k : A -> result B) : result B :=
  match r with
  | Ok a => k a
  | Throw e => Throw e
  end.

Notation "'let*' x ':=' r 'in' k" := (bind r (fun x => k))
  (at level 10, x pattern, r at level 200, k at level 200).

Module JS.

(** [a === b] on strings. *)
Fixpoint eqb (a b : str) : bool :=
  match a, b with
  | [], [] => true
  | c :: a', d :: b' => Ascii.eqb c d && eqb a' b'
  | _, _ => false
  end.

(** [s.startsWith(p)]. *)
Fixpoint startsWith (s p : str) {struct p} : bool :=
  match p, s with
  | [], _ => true
  | c :: p', d :: s' => Ascii.eqb c d && startsWith s' p'
  | _ :: _, [] => false
  end.

(** Position of the first occurrence of [p] in [s], if any. *)
Fixpoint find (s p : str) : option nat :=
  if startsWith s p then Some 0
  else match s with
       | [] => None
       | _ :: s' => option_map S (find s' p)
       end.

(** [s.indexOf(p)]: [-1] when [p] does not occur. *)
Definition indexOf (s p : str) : Z :=
  match find s p with
  | Some i => Z.of_nat i
  | None => (-1)%Z
  end.

(** [s.includes(p)]. *)
Definition includes (s p : str) : bool :=
  match find s p with
  | Some _ => true
  | None => false
  end.

(** A relative position of [slice], resolved against the length. *)
Definition clampIndex (len : nat) (k : Z) : nat :=
  if (k <? 0)%Z then Z.to_nat (Z.max (Z.of_nat len + k) 0)
  else Nat.min (Z.to_nat k) len.

(** [s.slice(a, b)]. *)
Definition slice (s : str) (a b : Z) : str :=
  let from := clampIndex (length s) a in
  let to := clampIndex (length s) b in
  firstn (to - from) (skipn from s).

(** [s.slice(a)]. *)
Definition sliceFrom (s : str) (a : Z) : str :=
  skipn (clampIndex (length s) a) s.

(** [s.split(sep)] for a non-empty [sep]: cut at the successive
    non-overlapping occurrences, found from the left. *)
Fixpoint splitFuel (fuel : nat) (s sep : str) : list str :=
  match fuel with
  | 0 => [s]
  | S fuel' =>
      match find s sep with
      | None => [s]
      | Some i => firstn i s :: splitFuel fuel' (skipn (i + length sep) s) sep
      end
  end.

(** [s.split(sep)]; an empty separator cuts between all code units. *)
Definition split (s sep : str) : list str :=
  match sep with
  | [] => map (fun c => [c]) s
  | _ :: _ => splitFuel (length s) s sep
  end.

(** [l.join(sep)]. *)
Fixpoint join (sep : str) (l : list str) : str :=
  match l with
  | [] => []
  | [x] => x
  | x :: l' => x ++ sep ++ join sep l'
  end.

(** White space of [trim] and [parseInt], among 8-bit code units:
    TAB, LF, VT, FF, CR, SP and NBSP. *)
Definition isWhiteSpace (c : ascii) : bool :=
  let n := nat_of_ascii c in
  ((9 <=? n) && (n <=? 13)) || (n =? 32) || (n =? 160).

Fixpoint trimStart (s : str) : str :=
  match s with
  | [] => []
  | c :: s' => if isWhiteSpace c then trimStart s' else s
  end.

Definition trimEnd (s : str) : str := rev (trimStart (rev s)).

(** [s.trim()]: white space removed at both ends. *)
Definition trim (s : str) : str := trimEnd (trimStart s).

(** [s.toLowerCase()] on 8-bit code units: A-Z and the Latin-1 capitals. *)
Definition lowerChar (c : ascii) : ascii :=
  let n := nat_of_ascii c in
  if ((65 <=? n) && (n <=? 90))
     || ((192 <=? n) && (n <=? 222) && negb (n =? 215))
  then ascii_of_nat (n + 32) else c.

Definition toLowerCase (s : str) : str := map lowerChar s.

(** Numbers, as far as the codec meets them: the values of [parseInt]. *)
Inductive number : Type :=
| NaN
| Int (z : Z)                 (* the double of integer value [z] *)
| Infinity (negative : bool).

Definition isDigit (c : ascii) : bool :=
  let n := nat_of_ascii c in (48 <=? n) && (n <=? 57).

Fixpoint takeDigits (s : str) : str :=
  match s with
  | c :: s' => if isDigit c then c :: takeDigits s' else []
  | [] => []
  end.

Definition digitsValue (ds : str) : Z :=
  fold_left (fun acc c => (10 * acc + Z.of_nat (nat_of_ascii c - 48))%Z) ds 0%Z.

(** The double nearest to the integer [v], at least 0: [v] itself below
    2^53; above, the 53 leading bits of [v], rounded to nearest, to even on a
    tie.  [None] is the infinite double, from 2^1024 on. *)
Definition toDouble (v : Z) : option Z :=
  if (v <? 2 ^ 53)%Z then Some v
  else
    let e := (Z.log2 v - 52)%Z in
    let q := (v / 2 ^ e)%Z in
    let r := (v mod 2 ^ e)%Z in
    let q' := if (2 ^ (e - 1) <? r)%Z || ((r =? 2 ^ (e - 1))%Z && Z.odd q)
              then (q + 1)%Z else q in
    if (q' * 2 ^ e <? 2 ^ 1024)%Z then Some (q' * 2 ^ e)%Z else None.

(** [Number.parseInt(x, 10)]: white space is skipped, then a sign, and the
    digits that follow are read; the number is the double nearest to their
    value.  [None] is [undefined], which reads as the text "undefined" and
    has no digits.  (The zero read after a minus sign is the negative zero,
    which [Int 0] stands for as well: [Response] takes both for 0.) *)
Definition parseInt (x : option str) : number :=
  match x with
  | None => NaN
  | Some s =>
      let s1 := trimStart s in
      let '(neg, s2) :=
        match s1 with
        | c :: r => if Ascii.eqb c "-" then (true, r)
                    else if Ascii.eqb c "+" then (false, r)
                    else (false, s1)
        | [] => (false, s1)
        end in
      match takeDigits s2 with
      | [] => NaN
      | ds =>
          match toDouble (digitsValue ds) with
          | Some v => Int (if neg then (- v)%Z else v)
          | None => Infinity neg
          end
      end
  end.

End JS.

(** ** Predicates on strings *)

Module StrProps.

Definition allWhiteSpace (w : str) : Prop :=
  Forall (fun c => JS.isWhiteSpace c = true) w.

(** Nothing to trim: the string is empty, or white space neither starts nor
    ends it. *)
Definition trimmed (s : str) : Prop :=
  (forall c r, s = c :: r -> JS.isWhiteSpace c = false)
  /\ (forall c r, s = r ++ [c] -> JS.isWhiteSpace c = false).

End StrProps.

(** ** The Fetch classes the codec builds: [Headers] and [Response] *)

Module Fetch.

(** A header name is a non-empty token. *)
Definition isTchar (c : ascii) : bool :=
  let n := nat_of_ascii c in
  ((48 <=? n) && (n <=? 57)) || ((65 <=? n) && (n <=? 90))
  || ((97 <=? n) && (n <=? 122))
  || existsb (Nat.eqb n) [33; 35; 36; 37; 38; 39; 42; 43; 45; 46; 94; 95; 96; 124; 126].

Definition isHeaderName (name : str) : bool :=
  match name with
  | [] => false
  | _ :: _ => forallb isTchar name
  end.

(** HTTP white space: TAB, LF, CR, SP. *)
Definition isHttpWhitespace (c : ascii) : bool :=
  existsb (Nat.eqb (nat_of_ascii c)) [9; 10; 13; 32].

Fixpoint stripStart (s : str) : str :=
  match s with
  | [] => []
  | c :: s' => if isHttpWhitespace c then stripStart s' else s
  end.

(** A value is normalized before it is stored: HTTP white space is removed
    at both ends. *)
Definition normalize (value : str) : str :=
  rev (stripStart (rev (stripStart value))).

(** A normalized value is a header value when it holds no NUL, LF or CR. *)
Definition isHeaderValue (value : str) : bool :=
  forallb (fun c => negb (existsb (Nat.eqb (nat_of_ascii c)) [0; 10; 13])) value.

(** The header list, in the order of the [append] calls. *)
Definition Headers := list (str * str).

(** [headers.append(name, value)]. *)
Definition append (headers : Headers) (name value : str) : result Headers :=
  let value' := normalize value in
  if isHeaderName name && isHeaderValue value'
  then Ok (headers ++ [(name, value')])
  else Throw TypeError.

(** [new Headers(record)]: the entries are appended in their order. *)
Fixpoint fill (headers : Headers) (entries : list (str * str)) : result Headers :=
  match entries with
  | [] => Ok headers
  | (name, value) :: rest =>
      let* headers' := append headers name value in fill headers' rest
  end.

(** Names are compared without regard to the case of A-Z. *)
Definition byteLower (c : ascii) : ascii :=
  let n := nat_of_ascii c in
  if (65 <=? n) && (n <=? 90) then ascii_of_nat (n + 32) else c.

Definition sameName (a b : str) : bool :=
  JS.eqb (map byteLower a) (map byteLower b).

Definition valuesOf (headers : Headers) (name : str) : list str :=
  map snd (filter (fun e => sameName (fst e) name) headers).

(** [headers.get(name)]: the values under [name], joined by a comma and a
    space; [None] is [null]. *)
Definition get (headers : Headers) (name : str) : option str :=
  match valuesOf headers name with
  | [] => None
  | vs => Some (JS.join ", " vs)
  end.

Record Response : Type := {
  status : Z;
  statusText : str;
  headers : Headers;
  body : str
}.

(** Conversion of [status] to an unsigned short, as the platform does it:
    NaN and the infinities give 0, and an integer is reduced with the
    remainder operator of JavaScript ([x % 65536]), which keeps the sign:
    a negative status stays negative. *)
Definition toUnsignedShort (x : JS.number) : Z :=
  match x with
  | JS.NaN => 0%Z
  | JS.Int z => Z.rem z 65536
  | JS.Infinity _ => 0%Z
  end.

(** The reason phrase: TAB, SP, visible characters and bytes above 127. *)
Definition isReasonPhrase (s : str) : bool :=
  forallb (fun c => let n := nat_of_ascii c in
                    (n =? 9) || ((32 <=? n) && (n <=? 126)) || (128 <=? n)) s.

Definition isNullBodyStatus (z : Z) : bool :=
  existsb (Z.eqb z) [101; 103; 204; 205; 304]%Z.

(** [new Response(body, { headers, status, statusText })] with a string
    body.  A status outside 200..599 is a [RangeError]; a status text that
    is no reason phrase, or a null-body status (the body is a string, never
    [null]), a [TypeError].  A string body brings its content type when
    the headers have none. *)
Definition newResponse (body : str) (headers : Headers)
           (status : JS.number) (statusText : str) : result Response :=
  let st := toUnsignedShort status in
  if negb ((200 <=? st)%Z && (st <=? 599)%Z) then Throw RangeError
  else if negb (isReasonPhrase statusText) then Throw TypeError
  else if isNullBodyStatus st then Throw TypeError
  else Ok {| status := st;
             statusText := statusText;
             headers := match get headers "Content-Type" with
                        | Some _ => headers
                        | None => headers ++ [("content-type" : str, "text/plain;charset=UTF-8" : str)]
                        end;
             body := body |}.

End Fetch.

(** ** Requests and their body streams *)

(** A [ReadableStream<Uint8Array>]: the chunks still to be read, whether a
    reader holds its lock, and whether it has been read from.  The streams of
    the model deliver their chunks and close, and their bytes are below 128:
    for these [toString("utf-8")] gives the code units of the same values,
    so that decoding the chunks is concatenation. *)
Record ReadableStream : Type := {
  chunks : list str;
  locked : bool;
  disturbed : bool
}.

(** The streams live in a store; a request refers to its body by handle. *)
Definition store := nat -> ReadableStream.

Definition update (sigma : store) (id : nat) (s : ReadableStream) : store :=
  fun j => if j =? id then s else sigma j.

(** A stream that has been read to its end: the reader is released. *)
Definition drained : ReadableStream :=
  {| chunks := []; locked := false; disturbed := true |}.

(** A [Request] as the codec reads it: [headers] is the sequence that
    [request.headers.entries()] yields, [body] is [null] or the handle of the
    body stream. *)
Record Request : Type := {
  method : str;
  url : str;
  headers : list (str * str);
  body : option nat
}.

(** What [new Request(url, init)] receives from [toRequest]. *)
Record WireRequest : Type := {
  wireUrl : str;
  wireMethod : str;
  wireHeaders : Fetch.Headers;
  wireBody : str
}.

(** ** BatchRequest *)

Module BatchRequest.

(** An element of [operations]: a request, or a reference to a changeset
    array.  The arrays are kept apart, by reference, because
    [lastChangeset] is a second reference to the array last pushed. *)
Inductive entry : Type :=
| One (request : Request)
| Many (array : nat).

Record t : Type := {
  serviceEndpoint : str;
  authorizationHeader : str;
  operations : list entry;
  arrays : list (list Request);
  lastChangeset : option nat
}.

(** [array.push(request)] on the array behind a reference. *)
Fixpoint pushAt (arrays : list (list Request)) (a : nat) (request : Request)
  : list (list Request) :=
  match arrays, a with
  | [], _ => []
  | x :: rest, 0 => (x ++ [request]) :: rest
  | x :: rest, S a' => x :: pushAt rest a' request
  end.

Definition addRequest (this : t) (request : Request) : t :=
  if JS.eqb (method request) "GET" then
    {| serviceEndpoint := serviceEndpoint this;
       authorizationHeader := authorizationHeader this;
       operations := operations this ++ [One request];
       arrays := arrays this;
       lastChangeset := None |}
  else
    let this' :=
      match lastChangeset this with
      | Some _ => this
      | None =>
          let a := length (arrays this) in
          {| serviceEndpoint := serviceEndpoint this;
             authorizationHeader := authorizationHeader this;
             operations := operations this ++ [Many a];
             arrays := arrays this ++ [[]];
             lastChangeset := Some a |}
      end in
    match lastChangeset this' with
    | Some a =>
        {| serviceEndpoint := serviceEndpoint this';
           authorizationHeader := authorizationHeader this';
           operations := operations this';
           arrays := pushAt (arrays this') a request;
           lastChangeset := lastChangeset this' |}
    | None => this'
    end.

Definition constructor (serviceEndpoint authorizationHeader : str)
           (operations : list Request) : t :=
  fold_left addRequest operations
            {| serviceEndpoint := serviceEndpoint;
               authorizationHeader := authorizationHeader;
               operations := [];
               arrays := [];
               lastChangeset := None |}.

(** The envelope: [operations] with the array references followed. *)
Definition envelope (this : t) : list (Request + list Request) :=
  map (fun e => match e with
                | One r => inl r
                | Many a => inr (nth a (arrays this) [])
                end) (operations this).

Definition formatRequestHeaders (headers : list (str * str)) : list str :=
  fold_left (fun result '(key, value) =>
               if JS.eqb (JS.toLowerCase key) "authorization" then result
               else result ++ [key ++ ": " ++ value])
            headers [].

(** [for await (const chunk of stream)].  The reader is acquired at once,
    while the callbacks of [toRequest] start one after the other, and this
    fails on a locked stream: locked by someone else, or by an operation
    before this one in the batch that has the same body.  A stream acquired is
    then read to its end: the streams of the model do not fail while they
    are read (what [toRequest] leaves behind then depends on the order in
    which the reads settle).  [held] lists the streams this call has
    acquired. *)
Definition streamToString (id : nat) (st : store * list nat)
  : result str * (store * list nat) :=
  let '(sigma, held) := st in
  if locked (sigma id) || existsb (Nat.eqb id) held
  then (Throw TypeError, st)
  else (Ok (concat (chunks (sigma id))), (update sigma id drained, id :: held)).

Definition formatRequest (request : Request) (st : store * list nat)
  : result str * (store * list nat) :=
  let '(text, st') :=
    match body request with
    | Some id => streamToString id st
    | None => (Ok [], st)
    end in
  (let* text := text in
   Ok (JS.join CRLF
         (["Content-Type: application/http" : str;
           "Content-Transfer-Encoding: binary" : str;
           [];
           method request ++ " " ++ url request ++ " HTTP/1.1"]
          ++ formatRequestHeaders (headers request)
          ++ [[]; text])),
   st').

(** [Promise.all(requests.map(async ...))]: every callback starts, in
    order, whatever the others do; the whole fails if one of them does. *)
Fixpoint formatAll (prefix : str) (requests : list Request)
         (st : store * list nat) : list (result str) * (store * list nat) :=
  match requests with
  | [] => ([], st)
  | request :: rest =>
      let '(text, st1) := formatRequest request st in
      let '(texts, st2) := formatAll prefix rest st1 in
      ((let* text := text in Ok (prefix ++ CRLF ++ text)) :: texts, st2)
  end.

Fixpoint all {A} (l : list (result A)) : result (list A) :=
  match l with
  | [] => Ok []
  | r :: rest => let* a := r in let* rest' := all rest in Ok (a :: rest')
  end.

(** The parts of the outer body.  [k] counts the boundaries drawn so far
    from [random], the successive values of
    [Crypto.randomBytes(16).toString("hex")]. *)
Fixpoint formatParts (boundary : str) (random : nat -> str) (k : nat)
         (items : list (Request + list Request)) (st : store * list nat)
  : list (result str) * (store * list nat) :=
  match items with
  | [] => ([], st)
  | inl request :: rest =>
      let '(text, st1) := formatRequest request st in
      let '(texts, st2) := formatParts boundary random k rest st1 in
      ((let* text := text in Ok ("--" ++ boundary ++ CRLF ++ text)) :: texts, st2)
  | inr requests :: rest =>
      let changesetBoundary : str := "changeset_" ++ random k in
      let '(inner, st1) := formatAll ("--" ++ changesetBoundary) requests st in
      let '(texts, st2) := formatParts boundary random (S k) rest st1 in
      ((let* inner := all inner in
        Ok (JS.join CRLF
              (["--" ++ boundary;
                "Content-Type: multipart/mixed; boundary=" ++ changesetBoundary;
                []]
               ++ inner
               ++ ["--" ++ changesetBoundary ++ "--"]))) :: texts, st2)
  end.

Definition toRequest (this : t) (random : nat -> str) (sigma : store)
  : result WireRequest * store :=
  let boundary : str := "batch_" ++ random 0 in
  match Fetch.fill []
          [("Authorization" : str, authorizationHeader this);
           ("OData-Version" : str, "4.0" : str);
           ("Content-Type" : str, "multipart/mixed; boundary=" ++ boundary)] with
  | Throw e => (Throw e, sigma)
  | Ok headers =>
      let '(parts, st') := formatParts boundary random 1 (envelope this) (sigma, []) in
      (let* parts := all parts in
       Ok {| wireUrl := serviceEndpoint this ++ "/$batch";
             wireMethod := "POST";
             wireHeaders := headers;
             wireBody := JS.join CRLF parts ++ CRLF ++ "--" ++ boundary ++ "--" |},
       fst st')
  end.

(** Decoding. *)

Definition getBoundary (headers : Fetch.Headers) : result str :=
  match Fetch.get headers "Content-Type" with
  | None | Some [] => Throw (Error "Response is missing Content-Type header")
  | Some contentType =>
      match List.find (fun part => JS.startsWith part "boundary=")
                      (map JS.trim (JS.split contentType ";")) with
      | None | Some [] => Throw (Error "Content-Type header is missing boundary")
      | Some boundaryPart =>
          match nth_error (JS.split boundaryPart "=") 1 with
          | Some boundary => Ok boundary
          | None => Ok ("undefined" : str)
          end
      end
  end.

(** The loop of [splitPart] over the raw header lines. *)
Fixpoint appendHeaders (headers : Fetch.Headers) (rawHeaders : list str)
  : result Fetch.Headers :=
  match rawHeaders with
  | [] => Ok headers
  | rawHeader :: rest =>
      let separatorIndex := JS.indexOf rawHeader ":" in
      let* headers' :=
        Fetch.append headers
                     (JS.slice rawHeader 0 separatorIndex)
                     (JS.trim (JS.sliceFrom rawHeader (separatorIndex + 1))) in
      appendHeaders headers' rest
  end.

Definition splitPart (part : str) : result (Fetch.Headers * str) :=
  if JS.startsWith part CRLF then
    Ok ([], if JS.startsWith part CRLF then skipn 2 part else part)
  else
    let breakIndex := JS.indexOf part (CRLF ++ CRLF) in
    let rawHeaders := JS.slice part 0 breakIndex in
    let rawBody := JS.sliceFrom part (breakIndex + 4) in
    let* headers := appendHeaders [] (JS.split rawHeaders CRLF) in
    Ok (headers, rawBody).

Definition parseHttpResponse (rawResponse : str) : result Fetch.Response :=
  let firstBreakIndex := JS.indexOf rawResponse CRLF in
  let statusLine := JS.slice rawResponse 0 firstBreakIndex in
  let rawResponseBody := JS.sliceFrom rawResponse (firstBreakIndex + 2) in
  let words := JS.split statusLine " " in
  let statusCode := nth_error words 1 in
  let statusText := skipn 2 words in
  let* (headers, body) := splitPart rawResponseBody in
  Fetch.newResponse (JS.trim body) headers (JS.parseInt statusCode)
                    (JS.join " " statusText).

(** [array.map(splitPart)]: all the parts are split before any is read. *)
Fixpoint mapSplitPart (parts : list str) : result (list (Fetch.Headers * str)) :=
  match parts with
  | [] => Ok []
  | part :: rest =>
      let* p := splitPart part in
      let* ps := mapSplitPart rest in
      Ok (p :: ps)
  end.

(** The recursion of [parseMultipartResponse] follows the nesting of the
    body; [fuel] bounds its depth, and [None] means that it ran out. *)
Fixpoint parseMultipartResponseFuel (fuel : nat) (body : str)
         (headers : Fetch.Headers) : option (result (list Fetch.Response)) :=
  match fuel with
  | 0 => None
  | S fuel' =>
      match getBoundary headers with
      | Throw e => Some (Throw e)
      | Ok boundary =>
          let endBoundaryIndex := JS.indexOf body ("--" ++ boundary ++ "--") in
          let trimmedBody :=
            if (endBoundaryIndex >=? 0)%Z then JS.slice body 0 endBoundaryIndex
            else body in
          match mapSplitPart
                  (skipn 1 (JS.split trimmedBody ("--" ++ boundary ++ CRLF))) with
          | Throw e => Some (Throw e)
          | Ok parts =>
              (fix loop (parts : list (Fetch.Headers * str))
                   (responses : list Fetch.Response) {struct parts} :=
                 match parts with
                 | [] => Some (Ok responses)
                 | (headers, body) :: rest =>
                     match Fetch.get headers "Content-Type" with
                     | None | Some [] =>
                         Some (Throw (Error "Multipart part is missing content-type header"))
                     | Some contentType =>
                         if JS.eqb contentType "application/http" then
                           match parseHttpResponse body with
                           | Ok r => loop rest (responses ++ [r])
                           | Throw e => Some (Throw e)
                           end
                         else if JS.startsWith contentType "multipart/mixed" then
                           match parseMultipartResponseFuel fuel' body headers with
                           | None => None
                           | Some (Ok changesetResponses) =>
                               loop rest (responses ++ changesetResponses)
                           | Some (Throw e) => Some (Throw e)
                           end
                         else Some (Throw (Error ("Unknown content-type: " ++ contentType)))
                     end
                 end) parts []
          end
      end
  end.

(** A nested body is shorter than the body around it, so the length of the
    body is fuel enough: the second case is never met
    ([parseMultipartResponse_fuel] below). *)
Definition parseMultipartResponse (body : str) (headers : Fetch.Headers)
  : result (list Fetch.Response) :=
  match parseMultipartResponseFuel (S (length body)) body headers with
  | Some r => r
  | None => Throw RangeError
  end.

End BatchRequest.

(** ** Shapes of an envelope *)

(** The operations of an envelope, in its order. *)
Definition flatten (env : list (Request + list Request)) : list Request :=
  flat_map (fun item => match item with inl r => [r] | inr rs => rs end) env.

Definition isGet (r : Request) : bool := JS.eqb (method r) "GET".

(** A lone operation is a GET; a changeset is a non-empty run without GET. *)
Definition itemOk (item : Request + list Request) : bool :=
  match item with
  | inl r => isGet r
  | inr rs => negb (Nat.eqb (length rs) 0) && forallb (fun r => negb (isGet r)) rs
  end.

(** No changeset follows a changeset: the runs are maximal. *)
Fixpoint noAdjacentChangesets (env : list (Request + list Request)) : bool :=
  match env with
  | [] => true
  | inl _ :: rest => noAdjacentChangesets rest
  | inr _ :: rest =>
      match rest with
      | inr _ :: _ => false
      | _ => noAdjacentChangesets rest
      end
  end.

(** ** Multipart bodies as trees *)

(** A multipart body is a sequence of parts; a part is a leaf, or a nested
    multipart body with a boundary of its own. *)
Inductive mtree (A : Type) : Type :=
| Leaf (a : A)
| Node (boundary : str) (children : list (mtree A)).
Arguments Leaf {A} a.
Arguments Node {A} boundary children.

Module Multipart.

Section Render.
Context {A : Type}.
Variable leaf : A -> str.

(** The text of a part, after the delimiter line that opens it. *)
Fixpoint partText (t : mtree A) : str :=
  match t with
  | Leaf a => leaf a
  | Node b ts =>
      "Content-Type: multipart/mixed; boundary=" ++ b ++ CRLF ++ CRLF
      ++ concat (map (fun t' => "--" ++ b ++ CRLF ++ partText t' ++ CRLF) ts)
      ++ "--" ++ b ++ "--"
  end.

(** The parts of a body, each after its delimiter line and closed by a line
    break. *)
Definition partsText (b : str) (ts : list (mtree A)) : str :=
  concat (map (fun t => "--" ++ b ++ CRLF ++ partText t ++ CRLF) ts).

(** The outer body, laid out as [toRequest] does. *)
Definition topText (b : str) (ts : list (mtree A)) : str :=
  JS.join CRLF (map (fun t => "--" ++ b ++ CRLF ++ partText t) ts)
  ++ CRLF ++ "--" ++ b ++ "--".

End Render.

(** The same over texts: the parts [pts] after the delimiter line [D], and
    the closing delimiter. *)
Definition laid (D : str) (pts : list str) : str :=
  concat (map (fun x => D ++ CRLF ++ x ++ CRLF) pts).

Definition closing (D : str) : str := D ++ "--".

(** The leaves, in the order of the text. *)
Fixpoint leaves {A} (t : mtree A) : list A :=
  match t with
  | Leaf a => [a]
  | Node _ ts => flat_map leaves ts
  end.

Fixpoint depth {A} (t : mtree A) : nat :=
  match t with
  | Leaf _ => 0
  | Node _ ts => S (fold_right (fun t' d => Nat.max (depth t') d) 0 ts)
  end.

(** The shape of a tree: its nesting and its boundaries, without the
    contents of the leaves. *)
Fixpoint shape {A} (t : mtree A) : mtree unit :=
  match t with
  | Leaf _ => Leaf tt
  | Node b ts => Node b (map shape ts)
  end.

End Multipart.

(** ** The words of the specification *)

Module Spec.

(** [c] is the letter [l], a small letter, in small or in capital. *)
Definition sameLetter (c l : ascii) : Prop :=
  c = l
  \/ (65 <= nat_of_ascii c <= 90 /\ nat_of_ascii l = nat_of_ascii c + 32).

(** A header is named Authorization when its name is that word, whatever
    the case of each letter. *)
Definition namesAuthorization (key : str) : Prop :=
  Forall2 sameLetter key "authorization".

(** [kept] is [hs] without the headers named Authorization: the others are
    all there, in their order and as they are. *)
Inductive stripped : list (str * str) -> list (str * str) -> Prop :=
| stripped_nil : stripped [] []
| stripped_drop (e : str * str) (hs kept : list (str * str)) :
    namesAuthorization (fst e) -> stripped hs kept -> stripped (e :: hs) kept
| stripped_keep (e : str * str) (hs kept : list (str * str)) :
    ~ namesAuthorization (fst e) -> stripped hs kept -> stripped (e :: hs) (e :: kept).

End Spec.

(** ** The encoder, in closed form *)

Module Encoder.

Definition isAuthorization (key : str) : bool :=
  JS.eqb (JS.toLowerCase key) "authorization".

Definition headerLine (e : str * str) : str := fst e ++ ": " ++ snd e.

(** The text that the body stream of [r] holds in the store. *)
Definition bodyOf (sigma : store) (r : Request) : str :=
  match body r with
  | Some id => concat (chunks (sigma id))
  | None => []
  end.

(** The part of an operation: every header but Authorization, as it is. *)
Definition requestText (sigma : store) (r : Request) : str :=
  JS.join CRLF
    (["Content-Type: application/http" : str;
      "Content-Transfer-Encoding: binary" : str;
      [];
      method r ++ " " ++ url r ++ " HTTP/1.1"]
     ++ map headerLine (filter (fun e => negb (isAuthorization (fst e))) (headers r))
     ++ [[]; bodyOf sigma r]).

(** The envelope as a forest: the changesets take their boundaries from
    [random], from index [k] on. *)
Fixpoint envelopeTree (random : nat -> str) (k : nat)
         (items : list (Request + list Request)) : list (mtree Request) :=
  match items with
  | [] => []
  | inl r :: rest => Leaf r :: envelopeTree random k rest
  | inr rs :: rest =>
      Node ("changeset_" ++ random k) (map Leaf rs) :: envelopeTree random (S k) rest
  end.

Definition hasBody (id : nat) (r : Request) : bool :=
  match body r with
  | Some j => j =? id
  | None => false
  end.

(** The store while a batch is encoded: the streams acquired are drained,
    the others are as they were in [sigma]. *)
Definition tracked (sigma : store) (st : store * list nat) : Prop :=
  forall id, fst st id
             = if existsb (Nat.eqb id) (snd st) then drained else sigma id.

(** From [st] to [st'] the encoder went through the operations [rs]: it
    keeps what it holds and acquires only bodies of [rs]. *)
Definition reads (rs : list Request) (st st' : store * list nat) : Prop :=
  (forall sigma, tracked sigma st -> tracked sigma st')
  /\ (forall id, In id (snd st) -> In id (snd st'))
  /\ (forall id, In id (snd st') ->
                 In id (snd st) \/ existsb (hasBody id) rs = true).

End Encoder.

(** ** The decoder, line by line *)

Module Decoder.

(** The header that [splitPart] reads from a raw line: the name is what
    precedes the first colon ([slice(0, -1)] of the line when it has none),
    the value what follows it, trimmed. *)
Definition headerOfLine (rawHeader : str) : str * str :=
  let separatorIndex := JS.indexOf rawHeader ":" in
  (JS.slice rawHeader 0 separatorIndex,
   Fetch.normalize (JS.trim (JS.sliceFrom rawHeader (separatorIndex + 1)))).

(** The lines that [Headers.append] accepts. *)
Definition validHeaderLine (rawHeader : str) : bool :=
  Fetch.isHeaderName (fst (headerOfLine rawHeader))
  && Fetch.isHeaderValue (snd (headerOfLine rawHeader)).

(** The raw header lines of a part that does not start with a line break. *)
Definition rawHeaderLines (part : str) : list str :=
  JS.split (JS.slice part 0 (JS.indexOf part (CRLF ++ CRLF))) CRLF.

(** The parts of a body: what precedes the closing delimiter, if there is
    one, cut at the delimiter lines, without what precedes the first. *)
Definition bodyParts (body boundary : str) : list str :=
  let endBoundaryIndex := JS.indexOf body ("--" ++ boundary ++ "--") in
  let trimmedBody :=
    if (endBoundaryIndex >=? 0)%Z then JS.slice body 0 endBoundaryIndex
    else body in
  skipn 1 (JS.split trimmedBody ("--" ++ boundary ++ CRLF)).

Section Recursion.
Context {R : Type}.
(** [rec] stands for the recursive call, [ret] for leaving the loop with a
    result, [andThen] for going on with the responses of a part. *)
Variable rec : str -> Fetch.Headers -> R.
Variable ret : result (list Fetch.Response) -> R.
Variable andThen : R -> (list Fetch.Response -> R) -> R.

(** One round of the loop of [parseMultipartResponse]. *)
Definition dispatch (part : Fetch.Headers * str) : R :=
  let '(headers, body) := part in
  match Fetch.get headers "Content-Type" with
  | None | Some [] =>
      ret (Throw (Error "Multipart part is missing content-type header"))
  | Some contentType =>
      if JS.eqb contentType "application/http" then
        ret (let* r := BatchRequest.parseHttpResponse body in Ok [r])
      else if JS.startsWith contentType "multipart/mixed" then rec body headers
      else ret (Throw (Error ("Unknown content-type: " ++ contentType)))
  end.

Fixpoint processParts (parts : list (Fetch.Headers * str))
         (responses : list Fetch.Response) : R :=
  match parts with
  | [] => ret (Ok responses)
  | part :: rest =>
      andThen (dispatch part) (fun rs => processParts rest (responses ++ rs))
  end.

End Recursion.

(** The loop with the recursive call given as a function. *)
Definition decodeParts (rec : str -> Fetch.Headers -> result (list Fetch.Response)) :=
  processParts rec (fun r => r) bind.

(** The same while fuel may run out. *)
Definition decodePartsFuel
           (rec : str -> Fetch.Headers -> option (result (list Fetch.Response))) :=
  processParts rec Some
    (fun r k => match r with
                | None => None
                | Some (Ok rs) => k rs
                | Some (Throw e) => Some (Throw e)
                end).

(** The body of [parseMultipartResponse], with the recursive call given. *)
Definition decodeWith (rec : str -> Fetch.Headers -> result (list Fetch.Response))
           (body : str) (headers : Fetch.Headers) : result (list Fetch.Response) :=
  let* boundary := BatchRequest.getBoundary headers in
  let* parts := BatchRequest.mapSplitPart (bodyParts body boundary) in
  decodeParts rec parts [].

(** The errors that [parseMultipartResponse] throws itself. *)
Definition formatError (e : exn) : Prop :=
  e = Error "Response is missing Content-Type header"
  \/ e = Error "Content-Type header is missing boundary"
  \/ e = Error "Multipart part is missing content-type header"
  \/ exists contentType, e = Error ("Unknown content-type: " ++ contentType).

(** The exceptions of [Headers] and [Response], which it lets through. *)
Definition platformError (e : exn) : Prop :=
  e = TypeError \/ e = RangeError.

(** [get] found no usable value: [null], or the empty string. *)
Definition missing (value : option str) : Prop :=
  value = None \/ value = Some [].

End Decoder.

(** ** The state of the constructor, as the grouping proof sees it *)

Module Grouping.
Import BatchRequest.

Definition resolve (arrays : list (list Request)) (e : entry)
  : Request + list Request :=
  match e with
  | One r => inl r
  | Many a => inr (nth a arrays [])
  end.

Definition refs (ops : list entry) : list nat :=
  flat_map (fun e => match e with One _ => [] | Many a => [a] end) ops.

(** The references of [operations] are the arrays allocated, in order, and
    [lastChangeset] refers to the entry pushed last. *)
Definition inv (this : t) : Prop :=
  refs (operations this) = seq 0 (length (arrays this))
  /\ forall a, lastChangeset this = Some a ->
               exists ops, operations this = ops ++ [Many a].

(** The envelope ends with a changeset. *)
Definition endsOpen (env : list (Request + list Request)) : bool :=
  match rev env with
  | inr _ :: _ => true
  | _ => false
  end.

(** The state reached from the empty one by adding [ops]. *)
Record shaped (ops : list Request) (this : t) : Prop := {
  shaped_inv : inv this;
  shaped_order : flatten (envelope this) = ops;
  shaped_items : forallb itemOk (envelope this) = true;
  shaped_maximal : noAdjacentChangesets (envelope this) = true;
  shaped_closed : lastChangeset this = None -> endsOpen (envelope this) = false
}.

End Grouping.

(** ** Synthetic responses *)

(** The response to a batch, for the round trip: a response per operation,
    laid out as the encoder lays out the requests, with a status line in
    place of the request line. *)
Module Replies.

Record Reply : Type := {
  replyStatus : nat;
  replyText : str;
  replyHeaders : list (str * str);
  replyBody : str
}.

Definition digit (n : nat) : ascii := ascii_of_nat (48 + n).

(** The three digits of a status. *)
Definition decimal3 (n : nat) : str :=
  [digit (n / 100); digit ((n / 10) mod 10); digit (n mod 10)].

Definition headerBlock (hs : list (str * str)) : str :=
  concat (map (fun e => Encoder.headerLine e ++ CRLF) hs).

(** The HTTP text of a reply: status line, headers, blank line, body. *)
Definition httpText (r : Reply) : str :=
  "HTTP/1.1 " ++ decimal3 (replyStatus r) ++ " " ++ replyText r ++ CRLF
  ++ headerBlock (replyHeaders r) ++ CRLF ++ replyBody r.

(** The part of a reply. *)
Definition replyPart (r : Reply) : str :=
  "Content-Type: application/http" ++ CRLF
  ++ "Content-Transfer-Encoding: binary" ++ CRLF ++ CRLF ++ httpText r.

(** The headers as they are read back: the value of a line is taken
    without the white space around it. *)
Definition readBack (hs : list (str * str)) : Fetch.Headers :=
  map (fun e => (fst e, JS.trim (snd e))) hs.

(** The response that the reply stands for: its status, status text and
    headers, the header values and the body without the white space around
    them, with the content type that [Response] gives a text when the reply
    has none. *)
Definition expected (r : Reply) : Fetch.Response :=
  let headers := readBack (replyHeaders r) in
  {| Fetch.status := Z.of_nat (replyStatus r);
     Fetch.statusText := replyText r;
     Fetch.headers :=
       match Fetch.get headers "Content-Type" with
       | Some _ => headers
       | None => headers
                 ++ [("content-type" : str, "text/plain;charset=UTF-8" : str)]
       end;
     Fetch.body := JS.trim (replyBody r) |}.

(** White space neither starts nor ends [s]. *)
Definition isTrimmed (s : str) : bool :=
  match s with
  | [] => true
  | c :: _ => negb (JS.isWhiteSpace c) && negb (JS.isWhiteSpace (last s c))
  end.

Definition headerOk (e : str * str) : bool :=
  Fetch.isHeaderName (fst e) && Fetch.isHeaderValue (snd e) && isTrimmed (snd e).

(** A header that a line can hold and [Headers] accepts: a name of token
    characters, a value without NUL and line break. *)
Definition headerFine (e : str * str) : bool :=
  Fetch.isHeaderName (fst e) && Fetch.isHeaderValue (snd e).

(** A reply that [Response] accepts: a status from 200 to 599 that allows a
    body, a reason phrase, header names and values that [Headers]
    accepts. *)
Definition acceptable (r : Reply) : bool :=
  (200 <=? replyStatus r) && (replyStatus r <=? 599)
  && negb (Fetch.isNullBodyStatus (Z.of_nat (replyStatus r)))
  && Fetch.isReasonPhrase (replyText r)
  && forallb headerFine (replyHeaders r).

(** A reply that is read back as it is: one that [Response] accepts, with
    no white space around a header value or the body. *)
Definition replyOk (r : Reply) : bool :=
  (200 <=? replyStatus r) && (replyStatus r <=? 599)
  && negb (Fetch.isNullBodyStatus (Z.of_nat (replyStatus r)))
  && Fetch.isReasonPhrase (replyText r)
  && forallb headerOk (replyHeaders r)
  && isTrimmed (replyBody r).

(** A code unit that a boundary can hold for [getBoundary] to give it back:
    no white space, NUL, semicolon or equals sign. *)
Definition boundaryChar (c : ascii) : bool :=
  negb (JS.isWhiteSpace c)
  && negb (existsb (Nat.eqb (nat_of_ascii c)) [0; 59; 61]).

Definition boundaryOk (b : str) : bool := forallb boundaryChar b.

(** A tree whose boundaries can be read back and occur in no part that they
    enclose, with replies that [Response] accepts. *)
Fixpoint wellFormed (t : mtree Reply) : bool :=
  match t with
  | Leaf r => acceptable r
  | Node b ts =>
      boundaryOk b
      && forallb (fun t' => negb (JS.includes (Multipart.partText replyPart t') ("--" ++ b))
                            && wellFormed t') ts
  end.

(** The part of [t], as [parseMultipartResponse] meets it in a body, is
    split and read back as the replies of [t]. *)
Definition decodable (t : mtree Reply) : Prop :=
  exists part,
    BatchRequest.splitPart (Multipart.partText replyPart t ++ CRLF) = Ok part
    /\ Decoder.dispatch BatchRequest.parseMultipartResponse (fun r => r) part
       = Ok (map expected (Multipart.leaves t)).

(** The text that [Crypto.randomBytes(16).toString("hex")] gives: digits and
    the letters a to f. *)
Definition isHexDigit (c : ascii) : bool :=
  let n := nat_of_ascii c in
  ((48 <=? n) && (n <=? 57)) || ((97 <=? n) && (n <=? 102)).

Definition isHex (s : str) : bool := forallb isHexDigit s.

(** A tree of any depth: each boundary is longer than what it encloses. *)
Fixpoint tower (r : Reply) (d : nat) : mtree Reply :=
  match d with
  | 0 => Leaf r
  | S d' =>
      Node (repeat "x"%char (length (Multipart.partText replyPart (tower r d'))))
           [tower r d']
  end.

End Replies.

(** ** ClarisId, the identity token manager *)

Module ClarisId.

(** The session of the identity provider: three tokens, and the expiry that
    the identity token carries. *)
Record Session : Type := {
  accessToken : str;
  idToken : str;
  refreshToken : str;
  expiry : Z
}.

(** The remote configuration. *)
Record UserPool : Type := {
  userPoolId : str;
  clientId : str
}.

(** What the pending acquisition is waiting for. *)
Inductive stage : Type :=
| FetchingConfig
| Refreshing
| Authenticating.

(** The manager.  [idTokenPromise] is the pending acquisition handle,
    [waiting] lists the callers that await it, [settled] what the callers
    were answered, in order; the three counters count the calls made to the
    configuration endpoint and to the identity provider. *)
Record t : Type := {
  userSession : option Session;
  userPool : option UserPool;
  idTokenPromise : option stage;
  waiting : list nat;
  settled : list (nat * result str);
  authenticateCalls : nat;
  refreshCalls : nat;
  fetchCalls : nat
}.

(** What happens to a manager: a caller asks for the header at some time, or
    a call to the outside world comes back. *)
Inductive event : Type :=
| GetAuthorizationHeader (caller : nat) (now : Z)
| ConfigFetched (config : option UserPool)
| Refreshed (outcome : result Session)
| Authenticated (outcome : result Session).

Definition fresh (pool : option UserPool) : t :=
  {| userSession := None; userPool := pool; idTokenPromise := None;
     waiting := []; settled := [];
     authenticateCalls := 0; refreshCalls := 0; fetchCalls := 0 |}.

(** The header: the scheme is fixed. *)
Definition header (s : Session) : str := "FMID " ++ idToken s.

(** The acquisition settles: every caller that awaits the handle is answered
    and the handle is cleared. *)
Definition settle (m : t) (session : option Session) (answer : result str) : t :=
  {| userSession := session; userPool := userPool m; idTokenPromise := None;
     waiting := [];
     settled := settled m ++ map (fun caller => (caller, answer)) (waiting m);
     authenticateCalls := authenticateCalls m; refreshCalls := refreshCalls m;
     fetchCalls := fetchCalls m |}.

(** Full authentication needs the remote configuration, fetched on first
    need. *)
Definition authenticate (m : t) (callers : list nat) : t :=
  match userPool m with
  | Some _ =>
      {| userSession := None; userPool := userPool m;
         idTokenPromise := Some Authenticating;
         waiting := callers; settled := settled m;
         authenticateCalls := S (authenticateCalls m);
         refreshCalls := refreshCalls m; fetchCalls := fetchCalls m |}
  | None =>
      {| userSession := None; userPool := None;
         idTokenPromise := Some FetchingConfig;
         waiting := callers; settled := settled m;
         authenticateCalls := authenticateCalls m;
         refreshCalls := refreshCalls m; fetchCalls := S (fetchCalls m) |}
  end.

(** Modelled from the spec: [ClarisId.getAuthorizationHeader] and the
    acquisition behind it (src/ClarisId.ts is not among the sources, only
    its tests are), following section 4.1: a caller that finds a pending
    handle awaits it; without a handle, a session that is not expired answers
    at once, an expired one is refreshed, and full authentication follows
    when there is no session or the refresh fails; the remote configuration
    is fetched before the first authentication and kept, and a failed fetch
    ends the acquisition; when the acquisition settles, with a token or with
    a failure, the handle is cleared. *)
Definition step (m : t) (ev : event) : t :=
  match ev with
  | GetAuthorizationHeader caller now =>
      match idTokenPromise m with
      | Some _ =>
          {| userSession := userSession m; userPool := userPool m;
             idTokenPromise := idTokenPromise m;
             waiting := waiting m ++ [caller]; settled := settled m;
             authenticateCalls := authenticateCalls m;
             refreshCalls := refreshCalls m; fetchCalls := fetchCalls m |}
      | None =>
          match userSession m with
          | Some s =>
              if (now <? expiry s)%Z then
                {| userSession := userSession m; userPool := userPool m;
                   idTokenPromise := None; waiting := waiting m;
                   settled := settled m ++ [(caller, Ok (header s))];
                   authenticateCalls := authenticateCalls m;
                   refreshCalls := refreshCalls m; fetchCalls := fetchCalls m |}
              else
                {| userSession := userSession m; userPool := userPool m;
                   idTokenPromise := Some Refreshing;
                   waiting := [caller]; settled := settled m;
                   authenticateCalls := authenticateCalls m;
                   refreshCalls := S (refreshCalls m); fetchCalls := fetchCalls m |}
          | None => authenticate m [caller]
          end
      end
  | ConfigFetched config =>
      match idTokenPromise m, config with
      | Some FetchingConfig, Some pool =>
          {| userSession := None; userPool := Some pool;
             idTokenPromise := Some Authenticating;
             waiting := waiting m; settled := settled m;
             authenticateCalls := S (authenticateCalls m);
             refreshCalls := refreshCalls m; fetchCalls := fetchCalls m |}
      | Some FetchingConfig, None =>
          settle m None (Throw (Error "Could not fetch user pool config"))
      | _, _ => m
      end
  | Refreshed outcome =>
      match idTokenPromise m, outcome with
      | Some Refreshing, Ok s => settle m (Some s) (Ok (header s))
      | Some Refreshing, Throw _ => authenticate m (waiting m)
      | _, _ => m
      end
  | Authenticated outcome =>
      match idTokenPromise m, outcome with
      | Some Authenticating, Ok s => settle m (Some s) (Ok (header s))
      | Some Authenticating, Throw e => settle m None (Throw e)
      | _, _ => m
      end
  end.

Definition run (m : t) (events : list event) : t := fold_left step events m.

(** What a step answers: the entries that it adds to [settled]. *)
Definition delivered (m : t) (ev : event) : list (nat * result str) :=
  skipn (length (settled m)) (settled (step m ev)).

(** The call of a caller, given with the time of the call. *)
Definition call (c : nat * Z) : event := GetAuthorizationHeader (fst c) (snd c).

(** What the callers of an acquisition are answered. *)
Definition answer (outcome : result Session) : result str :=
  match outcome with
  | Ok s => Ok (header s)
  | Throw e => Throw e
  end.

End ClarisId.

(** ** Sample data *)

Module Examples.

Definition endpoint : str := "https://host/fmi/odata/v4/db".

Definition authorization : str := "FMID token".

Definition get1 : Request :=
  {| method := "GET"; url := "https://host/fmi/odata/v4/db/contacts";
     headers := [("accept" : str, "application/json" : str)];
     body := None |}.

Definition post1 : Request :=
  {| method := "POST"; url := "https://host/fmi/odata/v4/db/contacts";
     headers := [("authorization" : str, "FMID inner" : str);
                 ("content-type" : str, "application/json" : str)];
     body := Some 0 |}.

Definition random (k : nat) : str :=
  match k with
  | 0 => "00112233445566778899aabbccddeeff"
  | 1 => "0f1e2d3c4b5a69788796a5b4c3d2e1f0"
  | _ => "ffeeddccbbaa99887766554433221100"
  end.

(** Stream 0 holds a JSON text in two chunks. *)
Definition sigma : store :=
  fun id => {| chunks := match id with
                         | 0 => ["{" : str; "}" : str]
                         | _ => []
                         end;
               locked := false; disturbed := false |}.

Definition batch : BatchRequest.t :=
  BatchRequest.constructor endpoint authorization [get1; post1].

(** A response whose body starts with a space. *)
Definition spaced : str := "HTTP/1.1 200 OK" ++ CRLF ++ CRLF ++ " x".

Definition ok200 : Replies.Reply :=
  {| Replies.replyStatus := 200; Replies.replyText := "OK";
     Replies.replyHeaders := [("Content-Type" : str, "application/json" : str)];
     Replies.replyBody := "{}" |}.

Definition created201 : Replies.Reply :=
  {| Replies.replyStatus := 201; Replies.replyText := "Created";
     Replies.replyHeaders := [];
     Replies.replyBody := "done" |}.

Definition notFound404 : Replies.Reply :=
  {| Replies.replyStatus := 404; Replies.replyText := "Not Found";
     Replies.replyHeaders := [("Content-Type" : str, "text/plain" : str);
                              ("X-Trace" : str, "a b" : str)];
     Replies.replyBody := [] |}.

(** A response whose status line says 65736, and one that says 204. *)
Definition wrapped : str := "HTTP/1.1 65736 OK" ++ CRLF ++ CRLF ++ "x".

Definition empty204 : str := "HTTP/1.1 204 No Content" ++ CRLF ++ CRLF.

(** A reply whose body starts with a space. *)
Definition spacedReply : Replies.Reply :=
  {| Replies.replyStatus := 200; Replies.replyText := "OK";
     Replies.replyHeaders := [];
     Replies.replyBody := " x" |}.

(** A body nested three deep. *)
Definition nested : list (mtree Replies.Reply) :=
  [Leaf ok200;
   Node "changeset_1" [Leaf created201; Node "inner_2" [Node "core_3" [Leaf notFound404]]];
   Leaf ok200].

(** The replies to [batch]: one to the GET, one in a changeset to the POST. *)
Definition replies : list (mtree Replies.Reply) :=
  [Leaf ok200; Node ("changeset_" ++ random 1) [Leaf created201]].

Definition responseHeaders (b : str) : Fetch.Headers :=
  [("content-type" : str, "multipart/mixed; boundary=" ++ b)].

(** A batch of one GET. *)
Definition batchGet : BatchRequest.t :=
  BatchRequest.constructor endpoint authorization [get1].

(** A body of two parts: the first is text/plain, the second has no
    headers. *)
Definition twoBadParts : str :=
  "--b" ++ CRLF ++ "Content-Type: text/plain" ++ CRLF ++ CRLF ++ "hello" ++ CRLF
  ++ "--b" ++ CRLF ++ CRLF ++ "world" ++ CRLF
  ++ "--b--".

(** A well laid out body whose only reply has the status 204. *)
Definition noContent : str :=
  "--b" ++ CRLF ++ "Content-Type: application/http" ++ CRLF
  ++ "Content-Transfer-Encoding: binary" ++ CRLF ++ CRLF
  ++ "HTTP/1.1 204 No Content" ++ CRLF ++ CRLF ++ CRLF
  ++ "--b--".

(** The same reply, followed by a part that has no header. *)
Definition noContentThenBare : str :=
  "--b" ++ CRLF ++ "Content-Type: application/http" ++ CRLF
  ++ "Content-Transfer-Encoding: binary" ++ CRLF ++ CRLF
  ++ "HTTP/1.1 204 No Content" ++ CRLF ++ CRLF ++ CRLF
  ++ "--b" ++ CRLF ++ CRLF ++ "world" ++ CRLF
  ++ "--b--".

(** Replies that [Response] refuses: a status that allows no body, a status
    below 200 or above 599, a status text with a control character, a
    header name with a space. *)
Definition bare (status : nat) (text : str) : Replies.Reply :=
  {| Replies.replyStatus := status; Replies.replyText := text;
     Replies.replyHeaders := []; Replies.replyBody := [] |}.

Definition noContentReply : Replies.Reply := bare 204 "No Content".

Definition resetReply : Replies.Reply := bare 205 "Reset Content".

Definition notModifiedReply : Replies.Reply := bare 304 "Not Modified".

Definition continueReply : Replies.Reply := bare 100 "Continue".

Definition beyondReply : Replies.Reply := bare 600 "Beyond".

Definition controlReply : Replies.Reply :=
  {| Replies.replyStatus := 200; Replies.replyText := ["O"%char; ascii_of_nat 1; "K"%char];
     Replies.replyHeaders := []; Replies.replyBody := "x" |}.

Definition badHeaderReply : Replies.Reply :=
  {| Replies.replyStatus := 200; Replies.replyText := "OK";
     Replies.replyHeaders := [("Bad Header" : str, "x" : str)];
     Replies.replyBody := "x" |}.

(** A body with a changeset that holds the reply [r]. *)
Definition nestedWith (r : Replies.Reply) : list (mtree Replies.Reply) :=
  [Leaf {| Replies.replyStatus := 200; Replies.replyText := "OK";
           Replies.replyHeaders := []; Replies.replyBody := "{}" |};
   Node "changeset_1" [Leaf r]].

(** A reply whose body holds the closing delimiter of the batch. *)
Definition delimiterReply : Replies.Reply :=
  {| Replies.replyStatus := 200; Replies.replyText := "OK";
     Replies.replyHeaders := [];
     Replies.replyBody := "a--batch_" ++ random 0 ++ "--b" |}.

(** A POST with an Authorization header of its own, in mixed case. *)
Definition post2 : Request :=
  {| method := "POST"; url := "https://host/fmi/odata/v4/db/contacts";
     headers := [("AuthoriZation" : str, "FMID inner" : str);
                 ("content-type" : str, "application/json" : str);
                 ("x-authorization" : str, "kept" : str)];
     body := Some 0 |}.

Definition batchMixed : BatchRequest.t :=
  BatchRequest.constructor endpoint authorization [get1; post2].

Definition pool : ClarisId.UserPool :=
  {| ClarisId.userPoolId := "us-west-2_NqkuZcXQY";
     ClarisId.clientId := "4l9rvl4mv5es1eep1qe97cautn" |}.

Definition validSession : ClarisId.Session :=
  {| ClarisId.accessToken := "accessToken.eyJ9"; ClarisId.idToken := "idToken.eyJ9";
     ClarisId.refreshToken := "refreshToken"; ClarisId.expiry := 3600 |}.

(** A manager whose first caller awaits the identity provider. *)
Definition authenticating : ClarisId.t :=
  ClarisId.run (ClarisId.fresh (Some pool)) [ClarisId.GetAuthorizationHeader 1 0].

(** A manager that has answered its first caller and holds the session. *)
Definition authenticated : ClarisId.t :=
  ClarisId.run (ClarisId.fresh (Some pool))
               [ClarisId.GetAuthorizationHeader 1 0;
                ClarisId.Authenticated (Ok validSession)].

(** A part that is one code unit, without colon or line break. *)
Definition lonely : str := "X".

End Examples.

(** ** Further notions for the properties of the codec *)

Module Encoding.

(** The handles of the body streams of [rs], in their order. *)
Definition bodyIds (rs : list Request) : list nat :=
  flat_map (fun r => match body r with Some id => [id] | None => [] end) rs.

(** The stream [id] can be acquired in [st]: no reader holds it. *)
Definition isFree (st : store * list nat) (id : nat) : bool :=
  negb (locked (fst st id) || existsb (Nat.eqb id) (snd st)).

(** The streams [ids] can be acquired one after the other from [st]: each
    is free and not asked for twice. *)
Fixpoint acquirable (st : store * list nat) (ids : list nat) : bool :=
  match ids with
  | [] => true
  | id :: rest =>
      isFree st id && negb (existsb (Nat.eqb id) rest) && acquirable st rest
  end.

(** The call returned. *)
Definition succeeds {A} (r : result A) : bool :=
  match r with
  | Ok _ => true
  | Throw _ => false
  end.

(** What [toRequest] needs: header values that [Headers] accepts, and body
    streams that are unlocked and belong to one operation each. *)
Definition encodable (this : BatchRequest.t) (random : nat -> str) (sigma : store)
  : Prop :=
  Fetch.isHeaderValue (Fetch.normalize (BatchRequest.authorizationHeader this)) = true
  /\ Fetch.isHeaderValue
       (Fetch.normalize ("multipart/mixed; boundary=" ++ "batch_" ++ random 0)) = true
  /\ NoDup (bodyIds (flatten (BatchRequest.envelope this)))
  /\ forall id, In id (bodyIds (flatten (BatchRequest.envelope this))) ->
                locked (sigma id) = false.

(** The HTTP text of an operation, after the two headers of its part. *)
Definition httpRequest (sigma : store) (r : Request) : str :=
  JS.join CRLF
    ([method r ++ " " ++ url r ++ " HTTP/1.1"]
     ++ map Encoder.headerLine
            (filter (fun e => negb (Encoder.isAuthorization (fst e))) (headers r))
     ++ [[]; Encoder.bodyOf sigma r]).

End Encoding.

Module Framing.

(** What may precede the first delimiter line [D] of a body: nothing, or
    lines in which the delimiter does not occur. *)
Definition preambleOk (D pre : str) : Prop :=
  pre = [] \/ exists x, pre = x ++ CRLF /\ JS.includes x D = false.

(** The optional white space of a header line: spaces and tabs. *)
Definition isBlank (c : ascii) : bool :=
  Ascii.eqb c " " || Ascii.eqb c (ascii_of_nat 9).

(** A header line with white space [w1] before the value and [w2] after
    it. *)
Definition paddedLine (w1 w2 : str) (e : str * str) : str :=
  fst e ++ ":" ++ w1 ++ snd e ++ w2.

(** A header block of such lines, each ended by a line break. *)
Definition paddedBlock (w1 w2 : str) (hs : list (str * str)) : str :=
  concat (map (fun e => paddedLine w1 w2 e ++ CRLF) hs).

End Framing.
(* ================================================================== *)
(** * Properties *)

Lemma Ok_inj {A} (a b : A) : Ok a = Ok b -> a = b.
Proof. intros H. congruence. Qed.

(** ** Strings *)

Module JSFacts.
Import StrProps.

Lemma eqb_eq (a b : str) : JS.eqb a b = true <-> a = b.
Proof.
  revert b; induction a as [|c a IH]; intros [|d b]; simpl; split;
    try congruence; try reflexivity.
  - intros H. apply andb_true_iff in H as [H1 H2].
    apply Ascii.eqb_eq in H1. apply IH in H2. congruence.
  - intros H. injection H as -> ->. rewrite Ascii.eqb_refl. simpl.
    apply IH. reflexivity.
Qed.

Lemma eqb_refl (a : str) : JS.eqb a a = true.
Proof. apply eqb_eq. reflexivity. Qed.

Lemma eqb_neq (a b : str) : JS.eqb a b = false <-> a <> b.
Proof.
  split.
  - intros H E. apply eqb_eq in E. congruence.
  - intros H. destruct (JS.eqb a b) eqn:E; [|reflexivity].
    apply eqb_eq in E. contradiction.
Qed.

(** *** [startsWith] *)

Lemma startsWith_app (p r : str) : JS.startsWith (p ++ r) p = true.
Proof.
  induction p as [|c p IH]; simpl; [reflexivity|].
  rewrite Ascii.eqb_refl. exact IH.
Qed.

Lemma startsWith_iff (s p : str) :
  JS.startsWith s p = true <-> exists r, s = p ++ r.
Proof.
  split.
  - revert s; induction p as [|c p IH]; intros s H.
    + exists s. reflexivity.
    + destruct s as [|d s]; simpl in H; [discriminate|].
      apply andb_true_iff in H as [H1 H2]. apply Ascii.eqb_eq in H1. subst d.
      destruct (IH s H2) as [r ->]. exists r. reflexivity.
  - intros [r ->]. apply startsWith_app.
Qed.

Lemma startsWith_length (s p : str) :
  JS.startsWith s p = true -> length p <= length s.
Proof.
  intros H. apply startsWith_iff in H as [r ->]. rewrite length_app. lia.
Qed.

Lemma startsWith_nil (s : str) : JS.startsWith s [] = true.
Proof. destruct s; reflexivity. Qed.

(** A mismatch within the length of [s] is not repaired by what follows. *)
Lemma startsWith_false_app (s t p : str) :
  JS.startsWith s p = false -> length p <= length s ->
  JS.startsWith (s ++ t) p = false.
Proof.
  revert s; induction p as [|c p IH]; intros s H Hlen.
  - rewrite startsWith_nil in H. discriminate.
  - destruct s as [|d s]; simpl in *; [lia|].
    destruct (Ascii.eqb c d); simpl in *; [|reflexivity].
    apply IH; [exact H|lia].
Qed.

Lemma startsWith_true_app (s t p : str) :
  JS.startsWith s p = true -> JS.startsWith (s ++ t) p = true.
Proof.
  intros H. apply startsWith_iff in H as [r ->]. rewrite <- app_assoc.
  apply startsWith_app.
Qed.

Lemma startsWith_head (c d : ascii) (s p : str) :
  c <> d -> JS.startsWith (d :: s) (c :: p) = false.
Proof.
  intros H. simpl. destruct (Ascii.eqb c d) eqn:E; [|reflexivity].
  apply Ascii.eqb_eq in E. contradiction.
Qed.

(** *** [find] and [indexOf] *)

Lemma find_here (s p : str) : JS.startsWith s p = true -> JS.find s p = Some 0.
Proof. intros H. destruct s; simpl; rewrite H; reflexivity. Qed.

Lemma find_next (c : ascii) (s p : str) :
  JS.startsWith (c :: s) p = false ->
  JS.find (c :: s) p = option_map S (JS.find s p).
Proof. intros H. cbn [JS.find]. rewrite H. reflexivity. Qed.

Lemma find_nil (p : str) : p <> [] -> JS.find [] p = None.
Proof. destruct p; [congruence|reflexivity]. Qed.

Lemma find_spec (s p : str) (i : nat) :
  JS.find s p = Some i ->
  JS.startsWith (skipn i s) p = true
  /\ i + length p <= length s
  /\ forall j, j < i -> JS.startsWith (skipn j s) p = false.
Proof.
  revert i; induction s as [|c s IH]; intros i H.
  - simpl in H. destruct (JS.startsWith [] p) eqn:E; [|discriminate].
    injection H as <-. repeat split.
    + exact E.
    + apply startsWith_length in E. simpl in *. lia.
    + intros j Hj. lia.
  - cbn [JS.find] in H. destruct (JS.startsWith (c :: s) p) eqn:E.
    + injection H as <-. repeat split.
      * exact E.
      * apply startsWith_length in E. simpl in *. lia.
      * intros j Hj. lia.
    + destruct (JS.find s p) as [k|] eqn:Hk; [|discriminate].
      injection H as <-. destruct (IH k eq_refl) as (H1 & H2 & H3).
      repeat split.
      * exact H1.
      * simpl. lia.
      * intros [|j] Hj; [exact E|]. simpl. apply H3. lia.
Qed.

Lemma find_none (s p : str) (j : nat) :
  JS.find s p = None -> JS.startsWith (skipn j s) p = false.
Proof.
  revert j; induction s as [|c s IH]; intros j H.
  - rewrite skipn_nil. simpl in H.
    destruct (JS.startsWith [] p); [discriminate|reflexivity].
  - cbn [JS.find] in H. destruct (JS.startsWith (c :: s) p) eqn:E; [discriminate|].
    destruct (JS.find s p) eqn:Hk; [discriminate|].
    destruct j as [|j]; [exact E|]. simpl. apply IH. reflexivity.
Qed.

(** The first [n] positions hold no occurrence: the search goes on after
    them. *)
Lemma find_skip (s p : str) (n : nat) :
  (forall j, j < n -> JS.startsWith (skipn j s) p = false) ->
  n <= length s ->
  JS.find s p = option_map (Nat.add n) (JS.find (skipn n s) p).
Proof.
  revert s; induction n as [|n IH]; intros s Hno Hlen.
  - simpl. destruct (JS.find s p); reflexivity.
  - destruct s as [|c s]; simpl in Hlen; [lia|].
    rewrite find_next by (apply (Hno 0); lia).
    rewrite (IH s).
    + simpl. destruct (JS.find (skipn n s) p); reflexivity.
    + intros j Hj. apply (Hno (S j)). lia.
    + lia.
Qed.

Lemma find_intro (s p : str) (i : nat) :
  JS.startsWith (skipn i s) p = true ->
  (forall j, j < i -> JS.startsWith (skipn j s) p = false) ->
  i <= length s ->
  JS.find s p = Some i.
Proof.
  intros H Hno Hlen. rewrite (find_skip s p i Hno Hlen).
  rewrite (find_here _ _ H). simpl. f_equal. lia.
Qed.

(** An occurrence found in [s] stays the first one when [s] is extended. *)
Lemma find_app_found (s t p : str) (i : nat) :
  JS.find s p = Some i -> JS.find (s ++ t) p = Some i.
Proof.
  intros H. destruct (find_spec s p i H) as (H1 & H2 & H3).
  apply find_intro.
  - rewrite skipn_app. apply startsWith_true_app. exact H1.
  - intros j Hj. rewrite skipn_app. apply startsWith_false_app.
    + apply H3. exact Hj.
    + rewrite length_skipn. lia.
  - rewrite length_app. lia.
Qed.

(** A prefix without the first code unit of the pattern is stepped over. *)
Lemma find_free_prefix (x y : str) (c : ascii) (p : str) :
  Forall (fun d => d <> c) x ->
  JS.find (x ++ y) (c :: p) = option_map (Nat.add (length x)) (JS.find y (c :: p)).
Proof.
  induction x as [|d x IH]; intros H.
  - simpl. destruct (JS.find y (c :: p)); reflexivity.
  - inversion H as [|? ? Hd Hx]; subst.
    change ((d :: x) ++ y) with (d :: (x ++ y)).
    rewrite find_next by (apply startsWith_head; congruence).
    rewrite (IH Hx). simpl. destruct (JS.find y (c :: p)); reflexivity.
Qed.

Lemma find_free (x : str) (c : ascii) (p : str) :
  Forall (fun d => d <> c) x -> JS.find x (c :: p) = None.
Proof.
  intros H. rewrite <- (app_nil_r x), (find_free_prefix x [] c p H). reflexivity.
Qed.

Lemma indexOf_some (s p : str) (i : nat) :
  JS.find s p = Some i -> JS.indexOf s p = Z.of_nat i.
Proof. intros H. unfold JS.indexOf. rewrite H. reflexivity. Qed.

Lemma indexOf_none (s p : str) :
  JS.find s p = None -> JS.indexOf s p = (-1)%Z.
Proof. intros H. unfold JS.indexOf. rewrite H. reflexivity. Qed.

(** *** [slice] *)

Lemma clampIndex_nat (len i : nat) : JS.clampIndex len (Z.of_nat i) = Nat.min i len.
Proof.
  unfold JS.clampIndex. destruct (Z.ltb_spec (Z.of_nat i) 0); [lia|].
  rewrite Nat2Z.id. reflexivity.
Qed.

Lemma slice_prefix (s : str) (i : nat) : JS.slice s 0 (Z.of_nat i) = firstn i s.
Proof.
  unfold JS.slice. rewrite clampIndex_nat. change 0%Z with (Z.of_nat 0).
  rewrite clampIndex_nat. simpl. rewrite Nat.sub_0_r.
  destruct (Nat.le_ge_cases i (length s)).
  - rewrite Nat.min_l by lia. reflexivity.
  - rewrite Nat.min_r by lia. rewrite !firstn_all2 by lia. reflexivity.
Qed.

Lemma sliceFrom_nat (s : str) (i : nat) : JS.sliceFrom s (Z.of_nat i) = skipn i s.
Proof.
  unfold JS.sliceFrom. rewrite clampIndex_nat.
  destruct (Nat.le_ge_cases i (length s)).
  - rewrite Nat.min_l by lia. reflexivity.
  - rewrite Nat.min_r by lia. rewrite !skipn_all2 by lia. reflexivity.
Qed.

(** [slice(0, -1)] drops the last code unit. *)
Lemma slice_minus_one (s : str) : JS.slice s 0 (-1) = removelast s.
Proof.
  unfold JS.slice. change 0%Z with (Z.of_nat 0). rewrite clampIndex_nat.
  unfold JS.clampIndex. simpl skipn. rewrite Nat.sub_0_r.
  change (-1 <? 0)%Z with true. cbv iota.
  rewrite removelast_firstn_len. f_equal. lia.
Qed.

(** *** Occurrences and line breaks *)

Lemma includes_false (s p : str) (j : nat) :
  JS.includes s p = false -> JS.startsWith (skipn j s) p = false.
Proof.
  unfold JS.includes. destruct (JS.find s p) eqn:E; [discriminate|].
  intros _. apply find_none. exact E.
Qed.

Lemma startsWith_prefix (s p q : str) :
  JS.startsWith s (p ++ q) = true -> JS.startsWith s p = true.
Proof.
  intros H. apply startsWith_iff in H as [r ->]. rewrite <- app_assoc.
  apply startsWith_app.
Qed.

(** What does not occur is not the start of something that occurs. *)
Lemma includes_prefix (s p q : str) :
  JS.includes s p = false -> JS.includes s (p ++ q) = false.
Proof.
  intros H. unfold JS.includes. destruct (JS.find s (p ++ q)) as [i|] eqn:E;
    [|reflexivity].
  apply find_spec in E as (E & _ & _). apply startsWith_prefix in E.
  rewrite (includes_false s p i H) in E. discriminate.
Qed.

Lemma includes_long (s p : str) : length s < length p -> JS.includes s p = false.
Proof.
  intros H. unfold JS.includes. destruct (JS.find s p) as [i|] eqn:E; [|reflexivity].
  apply find_spec in E as (_ & E & _). lia.
Qed.

(** A pattern without [c] that starts in [x] ends before the [c] after [x]. *)
Lemma startsWith_stop (x y p : str) (c : ascii) :
  ~ In c p -> JS.startsWith (x ++ c :: y) p = true -> JS.startsWith x p = true.
Proof.
  revert x; induction p as [|d p IH]; intros x Hc H; [reflexivity|].
  destruct x as [|e x]; simpl in H.
  - apply andb_true_iff in H as [H _]. apply Ascii.eqb_eq in H. subst.
    exfalso. apply Hc. left. reflexivity.
  - apply andb_true_iff in H as [H1 H2]. simpl. rewrite H1. simpl.
    apply IH; [|exact H2]. intros Hin. apply Hc. right. exact Hin.
Qed.

Lemma match_split_char (x y p : str) (c : ascii) (j : nat) :
  ~ In c p ->
  JS.startsWith (skipn j (x ++ c :: y)) p = true ->
  (j + length p <= length x /\ JS.startsWith (skipn j x) p = true)
  \/ (length x < j /\ JS.startsWith (skipn (j - length x - 1) y) p = true).
Proof.
  intros Hc H. rewrite skipn_app in H.
  destruct (Nat.le_gt_cases j (length x)) as [Hj|Hj].
  - left. replace (j - length x) with 0 in H by lia. simpl in H.
    apply startsWith_stop in H; [|exact Hc]. split; [|exact H].
    apply startsWith_length in H. rewrite length_skipn in H. lia.
  - right. split; [exact Hj|]. rewrite skipn_all2 in H by lia. simpl in H.
    destruct (j - length x) as [|k] eqn:Ek; [lia|]. simpl in H.
    simpl. rewrite Nat.sub_0_r. exact H.
Qed.

(** What does not occur is not inside something that occurs. *)
Lemma includes_infix (s a p q : str) :
  JS.includes s p = false -> JS.includes s (a ++ p ++ q) = false.
Proof.
  intros H. unfold JS.includes. destruct (JS.find s (a ++ p ++ q)) as [i|] eqn:E;
    [|reflexivity].
  apply find_spec in E as (E & _ & _). apply startsWith_iff in E as [r E].
  assert (M : JS.startsWith (skipn (length a + i) s) p = true).
  { rewrite <- skipn_skipn, E, <- !app_assoc.
    rewrite skipn_app, skipn_all, Nat.sub_diag. simpl. apply startsWith_app. }
  rewrite (includes_false s p _ H) in M. discriminate.
Qed.

Lemma includes_intro (s p : str) :
  (forall j, JS.startsWith (skipn j s) p = false) -> JS.includes s p = false.
Proof.
  intros H. unfold JS.includes. destruct (JS.find s p) as [i|] eqn:E; [|reflexivity].
  apply find_spec in E as (E & _ & _). rewrite H in E. discriminate.
Qed.

(** A pattern without [c] occurs in [x ++ c :: y] only inside [x] or [y]. *)
Lemma includes_split_char (x y p : str) (c : ascii) :
  ~ In c p ->
  JS.includes x p = false -> JS.includes y p = false ->
  JS.includes (x ++ c :: y) p = false.
Proof.
  intros Hc Hx Hy. apply includes_intro. intros j.
  destruct (JS.startsWith (skipn j (x ++ c :: y)) p) eqn:E; [|reflexivity].
  apply match_split_char in E as [[_ E]|[_ E]]; [| |exact Hc].
  - rewrite (includes_false x p j Hx) in E. discriminate.
  - rewrite (includes_false y p _ Hy) in E. discriminate.
Qed.

(** A pattern does not occur in a text without its first code unit. *)
Lemma includes_free (x : str) (c : ascii) (p : str) :
  Forall (fun d => d <> c) x -> JS.includes x (c :: p) = false.
Proof. intros H. unfold JS.includes. rewrite (find_free x c p H). reflexivity. Qed.

Lemma includes_free_prefix (x y : str) (c : ascii) (p : str) :
  Forall (fun d => d <> c) x ->
  JS.includes y (c :: p) = false -> JS.includes (x ++ y) (c :: p) = false.
Proof.
  intros H Hy. unfold JS.includes in *. rewrite (find_free_prefix x y c p H).
  destruct (JS.find y (c :: p)); [discriminate|reflexivity].
Qed.

Section Lines.
Variable p : str.
Hypothesis p_nonempty : p <> [].
Hypothesis p_no_CR : ~ In CR p.
Hypothesis p_no_LF : ~ In LF p.

(** A pattern without line break that does not occur in a line does not
    start in it, nor in the line break after it. *)
Lemma no_match_in_line (x rest : str) (j : nat) :
  JS.includes x p = false -> j < length x + 2 ->
  JS.startsWith (skipn j (x ++ CRLF ++ rest)) p = false.
Proof.
  intros Hx Hj. destruct (JS.startsWith _ p) eqn:E; [|reflexivity]. exfalso.
  change (x ++ CRLF ++ rest) with (x ++ CR :: (LF :: rest)) in E.
  apply match_split_char in E as [[_ E]|[Hlt E]]; [| |exact p_no_CR].
  - rewrite (includes_false x p j Hx) in E. discriminate.
  - replace (j - length x - 1) with 0 in E by lia. simpl in E.
    destruct p as [|d q]; [congruence|]. simpl in E.
    apply andb_true_iff in E as [E _]. apply Ascii.eqb_eq in E.
    apply p_no_LF. left. exact E.
Qed.

Lemma skipn_line (x rest : str) : skipn (length x + 2) (x ++ CRLF ++ rest) = rest.
Proof.
  rewrite skipn_app, skipn_all2 by lia.
  replace (length x + 2 - length x) with 2 by lia. reflexivity.
Qed.

(** The search goes on after the line. *)
Lemma find_skip_line (x rest : str) :
  JS.includes x p = false ->
  JS.find (x ++ CRLF ++ rest) p
  = option_map (Nat.add (length x + 2)) (JS.find rest p).
Proof.
  intros Hx. rewrite (find_skip _ p (length x + 2)).
  - rewrite skipn_line. reflexivity.
  - intros j Hj. apply no_match_in_line; assumption.
  - rewrite !length_app. simpl. lia.
Qed.

(** Something that starts with [p] is first found after the line. *)
Lemma find_after_line (x q rest : str) :
  JS.includes x p = false ->
  JS.find (x ++ CRLF ++ (p ++ q) ++ rest) (p ++ q) = Some (length x + 2).
Proof.
  intros Hx. apply find_intro.
  - rewrite skipn_line. apply startsWith_app.
  - intros j Hj. destruct (JS.startsWith _ (p ++ q)) eqn:E; [|reflexivity].
    apply startsWith_prefix in E.
    rewrite no_match_in_line in E by assumption. discriminate.
  - rewrite !length_app. simpl. lia.
Qed.

(** A pattern without line break occurs in lines only inside a line. *)
Lemma includes_line (x rest : str) :
  JS.includes x p = false -> JS.includes rest p = false ->
  JS.includes (x ++ CRLF ++ rest) p = false.
Proof.
  intros Hx Hr. unfold JS.includes in *. rewrite (find_skip_line x rest Hx).
  destruct (JS.find rest p); [discriminate|reflexivity].
Qed.

Lemma find_none_line (x q : str) :
  JS.includes x p = false -> JS.find (x ++ CRLF) (p ++ q) = None.
Proof.
  intros Hx. destruct (JS.find (x ++ CRLF) (p ++ q)) as [i|] eqn:E; [|reflexivity].
  apply find_spec in E as (E & Hb & _). apply startsWith_prefix in E.
  rewrite <- (app_nil_r (x ++ CRLF)), <- app_assoc in E.
  rewrite no_match_in_line in E; [discriminate|exact Hx|].
  rewrite !length_app in Hb. simpl in Hb.
  destruct p; [congruence|simpl in Hb; lia].
Qed.

End Lines.

(** *** [split] and [join] *)

Lemma str_len_ind (P : str -> Prop) :
  (forall s, (forall t, length t < length s -> P t) -> P s) -> forall s, P s.
Proof.
  intros H s. remember (length s) as n eqn:Hn. revert s Hn.
  induction n as [n IH] using lt_wf_ind. intros s Hn. apply H.
  intros t Ht. apply (IH (length t)); [lia|reflexivity].
Qed.

Section Split.
Variable p : str.
Hypothesis p_nonempty : p <> [].

Lemma p_length : 1 <= length p.
Proof. destruct p; [congruence|simpl; lia]. Qed.

Lemma splitFuel_stable (f1 f2 : nat) (s : str) :
  length s <= f1 -> length s <= f2 -> JS.splitFuel f1 s p = JS.splitFuel f2 s p.
Proof.
  revert f2 s; induction f1 as [|f1 IH]; intros f2 s H1 H2.
  - destruct s; simpl in H1; [|lia]. destruct f2; cbn [JS.splitFuel]; [reflexivity|].
    rewrite find_nil by exact p_nonempty. reflexivity.
  - destruct f2 as [|f2].
    + destruct s; simpl in H2; [|lia]. cbn [JS.splitFuel].
      rewrite find_nil by exact p_nonempty. reflexivity.
    + cbn [JS.splitFuel]. destruct (JS.find s p) as [i|] eqn:E; [|reflexivity].
      f_equal. pose proof (find_spec s p i E) as (_ & Hb & _).
      pose proof p_length.
      apply IH; rewrite length_skipn; lia.
Qed.

Lemma split_eq (s : str) : JS.split s p = JS.splitFuel (length s) s p.
Proof. unfold JS.split. destruct p; [congruence|reflexivity]. Qed.

Lemma split_none (s : str) : JS.find s p = None -> JS.split s p = [s].
Proof.
  intros E. rewrite split_eq.
  destruct (length s); cbn [JS.splitFuel]; [reflexivity|]. rewrite E. reflexivity.
Qed.

Lemma split_some (s : str) (i : nat) :
  JS.find s p = Some i ->
  JS.split s p = firstn i s :: JS.split (skipn (i + length p) s) p.
Proof.
  intros E. pose proof (find_spec s p i E) as (_ & Hb & _).
  pose proof p_length as Hl.
  rewrite !split_eq.
  destruct (length s) as [|n] eqn:Hn; [lia|].
  cbn [JS.splitFuel]. rewrite E. f_equal.
  apply splitFuel_stable; rewrite length_skipn; lia.
Qed.

(** The first separator of [a ++ p ++ b] ends the first piece. *)
Lemma split_app (a b : str) :
  JS.find (a ++ p ++ b) p = Some (length a) ->
  JS.split (a ++ p ++ b) p = a :: JS.split b p.
Proof.
  intros E. rewrite (split_some _ _ E). f_equal.
  - rewrite firstn_app, Nat.sub_diag, firstn_all. simpl. apply app_nil_r.
  - rewrite app_assoc, skipn_app, <- length_app, skipn_all, Nat.sub_diag.
    reflexivity.
Qed.

Lemma split_nonempty (s : str) : JS.split s p <> [].
Proof.
  destruct (JS.find s p) as [i|] eqn:E.
  - rewrite (split_some _ _ E). discriminate.
  - rewrite (split_none _ E). discriminate.
Qed.

Lemma join_cons (x : str) (l : list str) :
  l <> [] -> JS.join p (x :: l) = x ++ p ++ JS.join p l.
Proof. destruct l; [congruence|reflexivity]. Qed.

(** Joining the pieces with the separator gives the string back. *)
Lemma join_split (s : str) : JS.join p (JS.split s p) = s.
Proof.
  induction s as [s IH] using str_len_ind.
  destruct (JS.find s p) as [i|] eqn:E.
  - rewrite (split_some _ _ E), join_cons by apply split_nonempty.
    pose proof (find_spec s p i E) as (Hm & Hb & _). pose proof p_length.
    rewrite IH by (rewrite length_skipn; lia).
    apply startsWith_iff in Hm as [r Hr].
    rewrite <- (firstn_skipn i s) at 3. f_equal. rewrite Hr. f_equal.
    rewrite Nat.add_comm, <- skipn_skipn, Hr.
    rewrite skipn_app, skipn_all, Nat.sub_diag. reflexivity.
  - rewrite (split_none _ E). reflexivity.
Qed.

Lemma split_elem_length (s x : str) : In x (JS.split s p) -> length x <= length s.
Proof.
  revert x; induction s as [s IH] using str_len_ind; intros x Hx.
  destruct (JS.find s p) as [i|] eqn:E.
  - rewrite (split_some _ _ E) in Hx.
    pose proof (find_spec s p i E) as (_ & Hb & _). pose proof p_length.
    destruct Hx as [<-|Hx].
    + rewrite length_firstn. lia.
    + apply IH in Hx; rewrite length_skipn in *; lia.
  - rewrite (split_none _ E) in Hx. destruct Hx as [<-|[]]. lia.
Qed.

(** Every piece but the first comes after a separator. *)
Lemma split_tail_length (s x : str) :
  In x (skipn 1 (JS.split s p)) -> length x + length p <= length s.
Proof.
  intros Hx. destruct (JS.find s p) as [i|] eqn:E.
  - rewrite (split_some _ _ E) in Hx. simpl in Hx.
    pose proof (find_spec s p i E) as (_ & Hb & _).
    apply split_elem_length in Hx. rewrite length_skipn in Hx. lia.
  - rewrite (split_none _ E) in Hx. destruct Hx.
Qed.

End Split.

(** *** [trim] *)

Lemma trimStart_skip (w s : str) :
  allWhiteSpace w -> JS.trimStart (w ++ s) = JS.trimStart s.
Proof.
  induction w as [|c w IH]; intros H; [reflexivity|].
  inversion H as [|? ? Hc Hw]; subst. simpl. rewrite Hc. apply IH. exact Hw.
Qed.

Lemma trimStart_all (w : str) : allWhiteSpace w -> JS.trimStart w = [].
Proof.
  intros H. rewrite <- (app_nil_r w), trimStart_skip by exact H. reflexivity.
Qed.

Lemma trimStart_id (s : str) :
  (forall c r, s = c :: r -> JS.isWhiteSpace c = false) -> JS.trimStart s = s.
Proof.
  intros H. destruct s as [|c r]; [reflexivity|]. simpl.
  rewrite (H c r eq_refl). reflexivity.
Qed.

Lemma trimEnd_skip (s w : str) :
  allWhiteSpace w -> JS.trimEnd (s ++ w) = JS.trimEnd s.
Proof.
  intros H. unfold JS.trimEnd. rewrite rev_app_distr, trimStart_skip; [reflexivity|].
  apply Forall_rev. exact H.
Qed.

Lemma trimEnd_id (s : str) :
  (forall c r, s = r ++ [c] -> JS.isWhiteSpace c = false) -> JS.trimEnd s = s.
Proof.
  intros H. unfold JS.trimEnd. rewrite trimStart_id; [apply rev_involutive|].
  intros c r Hr. apply (H c (rev r)).
  rewrite <- (rev_involutive s), Hr. reflexivity.
Qed.

(** White space around a trimmed string is what [trim] removes. *)
Lemma trim_pad (w1 s w2 : str) :
  allWhiteSpace w1 -> allWhiteSpace w2 -> trimmed s ->
  JS.trim (w1 ++ s ++ w2) = s.
Proof.
  intros H1 H2 [Hs He]. unfold JS.trim. rewrite trimStart_skip by exact H1.
  destruct s as [|c r].
  - simpl. rewrite trimStart_all by exact H2. reflexivity.
  - rewrite trimStart_id.
    + rewrite trimEnd_skip by exact H2. apply trimEnd_id. exact He.
    + intros d q Hq. simpl in Hq. injection Hq as <- _. apply (Hs c r eq_refl).
Qed.

Lemma trim_id (s : str) : trimmed s -> JS.trim s = s.
Proof.
  intros H. rewrite <- (trim_pad [] s [] (Forall_nil _) (Forall_nil _) H) at 2.
  rewrite app_nil_r. reflexivity.
Qed.

End JSFacts.

(** ** The encoder *)

Module EncoderFacts.
Import BatchRequest Encoder Multipart.

Lemma join_snoc (sep : str) (l : list str) (e : str) :
  JS.join sep (l ++ [e]) = concat (map (fun x => x ++ sep) l) ++ e.
Proof.
  induction l as [|x l IH]; [reflexivity|].
  change ((x :: l) ++ [e]) with (x :: (l ++ [e])).
  rewrite JSFacts.join_cons by (destruct l; discriminate).
  rewrite IH. simpl. rewrite <- !app_assoc. reflexivity.
Qed.

Lemma formatRequestHeaders_acc (hs : list (str * str)) (acc : list str) :
  fold_left (fun result '(key, value) =>
               if JS.eqb (JS.toLowerCase key) "authorization" then result
               else result ++ [key ++ ": " ++ value]) hs acc
  = acc ++ map headerLine (filter (fun e => negb (isAuthorization (fst e))) hs).
Proof.
  revert acc; induction hs as [|[key value] hs IH]; intros acc.
  - simpl. rewrite app_nil_r. reflexivity.
  - cbn [fold_left filter]. rewrite IH.
    destruct (isAuthorization (fst (key, value))) eqn:E;
      unfold isAuthorization in E; cbn [fst] in E; rewrite E; cbn [negb map].
    + reflexivity.
    + rewrite <- app_assoc. reflexivity.
Qed.

(** The loop of [formatRequestHeaders] keeps every entry but those named
    Authorization, in their order, each as [key: value]. *)
Lemma formatRequestHeaders_eq (hs : list (str * str)) :
  formatRequestHeaders hs
  = map headerLine (filter (fun e => negb (isAuthorization (fst e))) hs).
Proof. unfold formatRequestHeaders. rewrite formatRequestHeaders_acc. reflexivity. Qed.

(** *** The streams *)

Lemma existsb_eqb_In (id : nat) (l : list nat) :
  existsb (Nat.eqb id) l = true <-> In id l.
Proof.
  rewrite existsb_exists. split.
  - intros (x & Hx & E). apply Nat.eqb_eq in E. subst. exact Hx.
  - intros H. exists id. split; [exact H|apply Nat.eqb_refl].
Qed.

Lemma reads_refl (st : store * list nat) : reads [] st st.
Proof. repeat split; auto. Qed.

Lemma existsb_hasBody_app (id : nat) (l1 l2 : list Request) :
  existsb (hasBody id) (l1 ++ l2) = existsb (hasBody id) l1 || existsb (hasBody id) l2.
Proof. apply existsb_app. Qed.

Lemma reads_trans (rs1 rs2 : list Request) (st st1 st2 : store * list nat) :
  reads rs1 st st1 -> reads rs2 st1 st2 -> reads (rs1 ++ rs2) st st2.
Proof.
  intros (A1 & A2 & A3) (B1 & B2 & B3). repeat split.
  - intros sigma H. apply B1, A1, H.
  - intros id H. apply B2, A2, H.
  - intros id H. rewrite existsb_hasBody_app.
    destruct (B3 id H) as [H1|H1].
    + destruct (A3 id H1) as [H2|H2]; [left; exact H2|right].
      rewrite H2. reflexivity.
    + right. rewrite H1. apply orb_true_r.
Qed.

Lemma streamToString_reads (r : Request) (id : nat) (st : store * list nat) :
  body r = Some id -> reads [r] st (snd (streamToString id st)).
Proof.
  intros Hb. destruct st as [sigma held]. unfold streamToString.
  destruct (locked (sigma id) || existsb (Nat.eqb id) held) eqn:E.
  - simpl. repeat split; auto.
  - simpl. repeat split.
    + intros sigma0 H j. specialize (H j). simpl in *. unfold update.
      destruct (Nat.eqb_spec j id) as [->|Hne].
      * reflexivity.
      * simpl. exact H.
    + intros j Hj. simpl in *. right. exact Hj.
    + intros j [<-|Hj]; simpl.
      * right. unfold hasBody. rewrite Hb, Nat.eqb_refl. reflexivity.
      * left. exact Hj.
Qed.

Lemma formatRequest_snd (r : Request) (st : store * list nat) :
  snd (formatRequest r st)
  = match body r with
    | Some id => snd (streamToString id st)
    | None => st
    end.
Proof.
  unfold formatRequest. destruct (body r) as [id|].
  - destruct (streamToString id st). reflexivity.
  - reflexivity.
Qed.

Lemma formatRequest_fst (r : Request) (st : store * list nat) :
  fst (formatRequest r st)
  = (let* text := match body r with
                  | Some id => fst (streamToString id st)
                  | None => Ok []
                  end in
     Ok (JS.join CRLF
           (["Content-Type: application/http" : str;
             "Content-Transfer-Encoding: binary" : str;
             [];
             method r ++ " " ++ url r ++ " HTTP/1.1"]
            ++ formatRequestHeaders (headers r)
            ++ [[]; text]))).
Proof.
  unfold formatRequest. destruct (body r) as [id|].
  - destruct (streamToString id st). reflexivity.
  - reflexivity.
Qed.

Lemma formatRequest_reads (r : Request) (st : store * list nat) :
  reads [r] st (snd (formatRequest r st)).
Proof.
  rewrite formatRequest_snd. destruct (body r) as [id|] eqn:Hb.
  - apply streamToString_reads. exact Hb.
  - repeat split; auto.
Qed.

(** A part that could be formatted holds the text that the body had in the
    initial store, and its stream is held from then on. *)
Lemma formatRequest_ok (sigma : store) (r : Request) (st : store * list nat) (text : str) :
  tracked sigma st ->
  fst (formatRequest r st) = Ok text ->
  text = requestText sigma r
  /\ forall id, body r = Some id -> In id (snd (snd (formatRequest r st))).
Proof.
  intros Ht. rewrite formatRequest_fst, formatRequest_snd.
  unfold requestText, bodyOf. rewrite formatRequestHeaders_eq.
  destruct (body r) as [id|].
  - destruct st as [cur held]. unfold streamToString.
    destruct (locked (cur id) || existsb (Nat.eqb id) held) eqn:E; simpl.
    + discriminate.
    + intros H. injection H as <-. apply orb_false_iff in E as [_ E].
      specialize (Ht id). simpl in Ht. rewrite E in Ht. rewrite Ht. split.
      * reflexivity.
      * intros j Hj. injection Hj as <-. left. reflexivity.
  - simpl. intros H. injection H as <-. split; [reflexivity|]. discriminate.
Qed.

Lemma all_cons {A} (r : result A) (rest : list (result A)) (l : list A) :
  all (r :: rest) = Ok l ->
  exists a l', r = Ok a /\ all rest = Ok l' /\ l = a :: l'.
Proof.
  simpl. destruct r as [a|e]; simpl; [|discriminate].
  destruct (all rest) as [l'|e]; simpl; [|discriminate].
  intros H. injection H as <-. eauto.
Qed.

Lemma formatAll_cons (prefix : str) (r : Request) (rs : list Request)
      (st : store * list nat) :
  formatAll prefix (r :: rs) st
  = ((let* text := fst (formatRequest r st) in Ok (prefix ++ CRLF ++ text))
       :: fst (formatAll prefix rs (snd (formatRequest r st))),
     snd (formatAll prefix rs (snd (formatRequest r st)))).
Proof.
  simpl. destruct (formatRequest r st) as [text st1]. simpl.
  destruct (formatAll prefix rs st1). reflexivity.
Qed.

Lemma formatAll_reads (prefix : str) (rs : list Request) (st : store * list nat) :
  reads rs st (snd (formatAll prefix rs st)).
Proof.
  revert st; induction rs as [|r rs IH]; intros st.
  - apply reads_refl.
  - rewrite formatAll_cons. simpl snd.
    apply (reads_trans [r] rs _ _ _ (formatRequest_reads r st) (IH _)).
Qed.

Lemma formatAll_ok (sigma : store) (prefix : str) (rs : list Request)
      (st : store * list nat) (l : list str) :
  tracked sigma st ->
  all (fst (formatAll prefix rs st)) = Ok l ->
  l = map (fun r => prefix ++ CRLF ++ requestText sigma r) rs
  /\ forall r id, In r rs -> body r = Some id ->
                  In id (snd (snd (formatAll prefix rs st))).
Proof.
  revert st l; induction rs as [|r rs IH]; intros st l Ht H.
  - simpl in H. injection H as <-. split; [reflexivity|]. intros r id [].
  - rewrite formatAll_cons in *. simpl fst in H. simpl snd.
    apply all_cons in H as (a & l' & Ha & Hl' & ->).
    destruct (fst (formatRequest r st)) as [text|e] eqn:Hr; [|discriminate].
    simpl in Ha. injection Ha as <-.
    destruct (formatRequest_ok sigma r st text Ht Hr) as [-> Hheld].
    pose proof (formatRequest_reads r st) as (T1 & _ & _).
    destruct (IH _ _ (T1 _ Ht) Hl') as [-> Hrest]. split; [reflexivity|].
    intros q id [<-|Hq] Hb.
    + pose proof (formatAll_reads prefix rs (snd (formatRequest r st))) as (_ & M & _).
      apply M, Hheld, Hb.
    + apply (Hrest q id Hq Hb).
Qed.

Lemma formatParts_inl (b : str) (random : nat -> str) (k : nat) (r : Request)
      (rest : list (Request + list Request)) (st : store * list nat) :
  formatParts b random k (inl r :: rest) st
  = ((let* text := fst (formatRequest r st) in Ok ("--" ++ b ++ CRLF ++ text))
       :: fst (formatParts b random k rest (snd (formatRequest r st))),
     snd (formatParts b random k rest (snd (formatRequest r st)))).
Proof.
  cbn [formatParts]. destruct (formatRequest r st) as [text st1]. cbn [fst snd].
  destruct (formatParts b random k rest st1). reflexivity.
Qed.

Lemma formatParts_inr (b : str) (random : nat -> str) (k : nat) (rs : list Request)
      (rest : list (Request + list Request)) (st : store * list nat) :
  let cb : str := "changeset_" ++ random k in
  let st1 := snd (formatAll ("--" ++ cb) rs st) in
  formatParts b random k (inr rs :: rest) st
  = ((let* inner := all (fst (formatAll ("--" ++ cb) rs st)) in
      Ok (JS.join CRLF
            (["--" ++ b; "Content-Type: multipart/mixed; boundary=" ++ cb; []]
             ++ inner ++ ["--" ++ cb ++ "--"])))
       :: fst (formatParts b random (S k) rest st1),
     snd (formatParts b random (S k) rest st1)).
Proof.
  cbn [formatParts]. destruct (formatAll _ rs st) as [inner st1]. cbn [fst snd].
  destruct (formatParts b random (S k) rest st1). reflexivity.
Qed.

Lemma formatParts_reads (b : str) (random : nat -> str) (k : nat)
      (items : list (Request + list Request)) (st : store * list nat) :
  reads (flatten items) st (snd (formatParts b random k items st)).
Proof.
  revert k st; induction items as [|[r|rs] items IH]; intros k st.
  - apply reads_refl.
  - rewrite formatParts_inl. cbn [snd].
    apply (reads_trans [r] (flatten items) _ _ _ (formatRequest_reads r st) (IH _ _)).
  - rewrite formatParts_inr. cbn [snd].
    apply (reads_trans rs (flatten items) _ _ _ (formatAll_reads _ rs st) (IH _ _)).
Qed.

(** The text of a changeset, as [toRequest] joins it, is the text of the
    node of its requests. *)
Lemma changeset_text (leaf : Request -> str) (b cb : str) (rs : list Request) :
  JS.join CRLF
    (["--" ++ b; "Content-Type: multipart/mixed; boundary=" ++ cb; []]
     ++ map (fun r => ("--" ++ cb) ++ CRLF ++ leaf r) rs
     ++ ["--" ++ cb ++ "--"])
  = "--" ++ b ++ CRLF ++ partText leaf (Node cb (map Leaf rs)).
Proof.
  cbn [app]. rewrite !JSFacts.join_cons; try discriminate.
  - rewrite join_snoc. cbn [partText]. rewrite !map_map.
    rewrite <- !app_assoc. cbn [app].
    rewrite (map_ext (fun x => (("--" ++ cb) ++ CRLF ++ leaf x) ++ CRLF)
                     (fun x => "--" ++ cb ++ CRLF ++ partText leaf (Leaf x) ++ CRLF)).
    + reflexivity.
    + intros r. cbn [partText]. rewrite <- !app_assoc. reflexivity.
  - destruct (map _ rs); discriminate.
Qed.

Lemma formatParts_ok (sigma : store) (b : str) (random : nat -> str) (k : nat)
      (items : list (Request + list Request)) (st : store * list nat) (l : list str) :
  tracked sigma st ->
  all (fst (formatParts b random k items st)) = Ok l ->
  l = map (fun t => "--" ++ b ++ CRLF ++ partText (requestText sigma) t)
          (envelopeTree random k items)
  /\ forall r id, In r (flatten items) -> body r = Some id ->
                  In id (snd (snd (formatParts b random k items st))).
Proof.
  revert k st l; induction items as [|[r|rs] items IH]; intros k st l Ht H.
  - simpl in H. injection H as <-. split; [reflexivity|]. intros r id [].
  - rewrite formatParts_inl in *. cbn [fst snd] in *.
    apply all_cons in H as (a & l' & Ha & Hl' & ->).
    destruct (fst (formatRequest r st)) as [text|e] eqn:Hr; [|discriminate].
    simpl in Ha. injection Ha as <-.
    destruct (formatRequest_ok sigma r st text Ht Hr) as [-> Hheld].
    pose proof (formatRequest_reads r st) as (T1 & _ & _).
    destruct (IH _ _ _ (T1 _ Ht) Hl') as [-> Hrest]. split; [reflexivity|].
    intros q id Hq Hb. cbn [flatten flat_map] in Hq. apply in_app_iff in Hq.
    destruct Hq as [[<-|[]]|Hq].
    + pose proof (formatParts_reads b random k items (snd (formatRequest r st)))
        as (_ & M & _).
      apply M, Hheld, Hb.
    + apply (Hrest q id Hq Hb).
  - rewrite formatParts_inr in *. cbn [fst snd] in *.
    apply all_cons in H as (a & l' & Ha & Hl' & ->).
    destruct (all (fst (formatAll ("--" ++ "changeset_" ++ random k) rs st)))
      as [inner|e] eqn:Hi; [|discriminate].
    cbn [bind] in Ha. apply Ok_inj in Ha. subst a.
    destruct (formatAll_ok sigma _ rs st inner Ht Hi) as [-> Hheld].
    pose proof (formatAll_reads ("--" ++ "changeset_" ++ random k) rs st) as (T1 & _ & _).
    destruct (IH _ _ _ (T1 _ Ht) Hl') as [-> Hrest]. split.
    + cbn [envelopeTree map]. rewrite changeset_text. reflexivity.
    + intros q id Hq Hb. cbn [flatten flat_map] in Hq. apply in_app_iff in Hq.
      destruct Hq as [Hq|Hq].
      * pose proof (formatParts_reads b random (S k) items
                      (snd (formatAll ("--" ++ "changeset_" ++ random k) rs st)))
          as (_ & M & _).
        apply M, (Hheld q id Hq Hb).
      * apply (Hrest q id Hq Hb).
Qed.

(** *** The outer request *)

Lemma append_ok (h h' : Fetch.Headers) (name value : str) :
  Fetch.append h name value = Ok h' -> h' = h ++ [(name, Fetch.normalize value)].
Proof.
  unfold Fetch.append.
  destruct (Fetch.isHeaderName name && Fetch.isHeaderValue (Fetch.normalize value));
    [|discriminate].
  intros H. injection H as <-. reflexivity.
Qed.

Lemma tracked_init (sigma : store) : tracked sigma (sigma, []).
Proof. intros id. reflexivity. Qed.

Lemma existsb_hasBody (id : nat) (rs : list Request) :
  existsb (hasBody id) rs = true <-> exists r, In r rs /\ body r = Some id.
Proof.
  rewrite existsb_exists. split; intros (r & Hr & H); exists r; split; try exact Hr.
  - unfold hasBody in H. destruct (body r) as [j|]; [|discriminate].
    apply Nat.eqb_eq in H. subst. reflexivity.
  - unfold hasBody. rewrite H. apply Nat.eqb_refl.
Qed.

(** What a successful [toRequest] returns and leaves behind. *)
Lemma toRequest_ok (this : t) (random : nat -> str) (sigma sigma' : store)
      (w : WireRequest) :
  toRequest this random sigma = (Ok w, sigma') ->
  wireUrl w = serviceEndpoint this ++ "/$batch"
  /\ wireMethod w = "POST"
  /\ wireHeaders w
     = [("Authorization" : str, Fetch.normalize (authorizationHeader this));
        ("OData-Version" : str, Fetch.normalize "4.0");
        ("Content-Type" : str,
         Fetch.normalize ("multipart/mixed; boundary=" ++ "batch_" ++ random 0))]
  /\ wireBody w
     = topText (requestText sigma) ("batch_" ++ random 0)
               (envelopeTree random 1 (envelope this))
  /\ forall id, sigma' id
                = if existsb (hasBody id) (flatten (envelope this)) then drained
                  else sigma id.
Proof.
  unfold toRequest. cbn [Fetch.fill bind].
  destruct (Fetch.append [] "Authorization" (authorizationHeader this))
    as [h1|e] eqn:E1; cbn [bind]; [|discriminate].
  destruct (Fetch.append h1 "OData-Version" "4.0") as [h2|e] eqn:E2;
    cbn [bind]; [|discriminate].
  destruct (Fetch.append h2 "Content-Type" _) as [h3|e] eqn:E3;
    cbn [bind]; [|discriminate].
  apply append_ok in E1, E2, E3. subst h1 h2 h3.
  pose proof (formatParts_reads ("batch_" ++ random 0) random 1 (envelope this) (sigma, []))
    as (T & _ & Hin).
  pose proof (formatParts_ok sigma ("batch_" ++ random 0) random 1 (envelope this) (sigma, []))
    as Hok.
  destruct (formatParts ("batch_" ++ random 0) random 1 (envelope this) (sigma, []))
    as [parts st'].
  cbn [fst snd] in *.
  destruct (all parts) as [l|e]; cbn [bind]; [|discriminate].
  intros H. injection H as <- <-. cbn [wireUrl wireMethod wireHeaders wireBody].
  destruct (Hok l (tracked_init sigma) eq_refl) as [-> Hheld].
  split; [reflexivity|]. split; [reflexivity|]. split; [reflexivity|]. split.
  - reflexivity.
  - intros id. rewrite (T sigma (tracked_init sigma) id).
    destruct (existsb (hasBody id) (flatten (envelope this))) eqn:Eb.
    + apply existsb_hasBody in Eb as (r & Hr & Hb).
      pose proof (Hheld r id Hr Hb) as Hh.
      apply existsb_eqb_In in Hh. rewrite Hh. reflexivity.
    + destruct (existsb (Nat.eqb id) (snd st')) eqn:Eh; [|reflexivity].
      apply existsb_eqb_In in Eh. destruct (Hin id Eh) as [[]|Hc]. congruence.
Qed.

(** Whatever [toRequest] returns, a stream is left as it was or drained, and
    only bodies of the operations are drained. *)
Lemma toRequest_store (this : t) (random : nat -> str) (sigma : store) (id : nat) :
  snd (toRequest this random sigma) id = sigma id
  \/ (snd (toRequest this random sigma) id = drained
      /\ existsb (hasBody id) (flatten (envelope this)) = true).
Proof.
  unfold toRequest. destruct (Fetch.fill _ _) as [h|e]; [|left; reflexivity].
  pose proof (formatParts_reads ("batch_" ++ random 0) random 1 (envelope this) (sigma, []))
    as (T & _ & Hin).
  destruct (formatParts ("batch_" ++ random 0) random 1 (envelope this) (sigma, []))
    as [parts st'].
  cbn [fst snd] in *. rewrite (T sigma (tracked_init sigma) id).
  destruct (existsb (Nat.eqb id) (snd st')) eqn:Eh; [|left; reflexivity].
  right. split; [reflexivity|]. apply existsb_eqb_In in Eh.
  destruct (Hin id Eh) as [[]|Hc]. exact Hc.
Qed.

End EncoderFacts.

(** ** The decoder *)

Module DecoderFacts.
Import BatchRequest Decoder StrProps.

(** *** The header lines *)

Lemma appendHeaders_cons (h : Fetch.Headers) (rawHeader : str) (rest : list str) :
  appendHeaders h (rawHeader :: rest)
  = if validHeaderLine rawHeader
    then appendHeaders (h ++ [headerOfLine rawHeader]) rest
    else Throw TypeError.
Proof.
  cbn [appendHeaders]. unfold Fetch.append, validHeaderLine, headerOfLine.
  cbn [fst snd].
  destruct (Fetch.isHeaderName _ && Fetch.isHeaderValue _); reflexivity.
Qed.

Lemma appendHeaders_valid (h : Fetch.Headers) (lines : list str) :
  forallb validHeaderLine lines = true ->
  appendHeaders h lines = Ok (h ++ map headerOfLine lines).
Proof.
  revert h; induction lines as [|l lines IH]; intros h H.
  - simpl. rewrite app_nil_r. reflexivity.
  - cbn [forallb] in H. apply andb_true_iff in H as [H1 H2].
    rewrite appendHeaders_cons, H1, (IH _ H2). cbn [map].
    rewrite <- app_assoc. reflexivity.
Qed.

Lemma appendHeaders_invalid (h : Fetch.Headers) (lines : list str) :
  forallb validHeaderLine lines = false ->
  appendHeaders h lines = Throw TypeError.
Proof.
  revert h; induction lines as [|l lines IH]; intros h H.
  - discriminate.
  - cbn [forallb] in H. rewrite appendHeaders_cons.
    destruct (validHeaderLine l); [|reflexivity]. apply IH. exact H.
Qed.

(** *** [splitPart] *)

Lemma splitPart_blank (part : str) :
  JS.startsWith part CRLF = true -> splitPart part = Ok ([], skipn 2 part).
Proof. intros H. unfold splitPart. rewrite H. reflexivity. Qed.

Lemma splitPart_headers (part : str) :
  JS.startsWith part CRLF = false ->
  splitPart part
  = if forallb validHeaderLine (rawHeaderLines part)
    then Ok (map headerOfLine (rawHeaderLines part),
             JS.sliceFrom part (JS.indexOf part (CRLF ++ CRLF) + 4))
    else Throw TypeError.
Proof.
  intros H. unfold splitPart. rewrite H. fold (rawHeaderLines part).
  destruct (forallb validHeaderLine (rawHeaderLines part)) eqn:E.
  - rewrite (appendHeaders_valid [] _ E). reflexivity.
  - rewrite (appendHeaders_invalid [] _ E). reflexivity.
Qed.

(** The body that [splitPart] returns is no longer than the part. *)
Lemma splitPart_length (part : str) (h : Fetch.Headers) (b : str) :
  splitPart part = Ok (h, b) -> length b <= length part.
Proof.
  destruct (JS.startsWith part CRLF) eqn:E.
  - rewrite (splitPart_blank _ E). intros H. apply Ok_inj in H.
    apply (f_equal snd) in H. cbn [snd] in H. subst b.
    rewrite length_skipn. lia.
  - rewrite (splitPart_headers _ E).
    destruct (forallb validHeaderLine (rawHeaderLines part)); [|discriminate].
    intros H. apply Ok_inj in H.
    apply (f_equal snd) in H. cbn [snd] in H. subst b. unfold JS.sliceFrom.
    rewrite length_skipn. lia.
Qed.

(** *** What [trim] takes off *)

Lemma trimStart_spec (s : str) :
  exists w, s = w ++ JS.trimStart s /\ allWhiteSpace w
            /\ forall c r, JS.trimStart s = c :: r -> JS.isWhiteSpace c = false.
Proof.
  induction s as [|c s (w & E & Hw & Hf)].
  - exists []. repeat split; [constructor|discriminate].
  - simpl. destruct (JS.isWhiteSpace c) eqn:Hc.
    + exists (c :: w). repeat split.
      * simpl. f_equal. exact E.
      * constructor; assumption.
      * exact Hf.
    + exists []. repeat split; [constructor|].
      intros d r H. injection H as <- _. exact Hc.
Qed.

Lemma trim_spec (s : str) :
  exists w1 w2, s = w1 ++ JS.trim s ++ w2
                /\ allWhiteSpace w1 /\ allWhiteSpace w2 /\ trimmed (JS.trim s).
Proof.
  destruct (trimStart_spec s) as (w1 & E1 & H1 & F1).
  destruct (trimStart_spec (rev (JS.trimStart s))) as (w2 & E2 & H2 & F2).
  assert (E3 : JS.trimStart s = JS.trim s ++ rev w2).
  { unfold JS.trim, JS.trimEnd. rewrite <- rev_app_distr, <- E2.
    symmetry. apply rev_involutive. }
  exists w1, (rev w2). repeat split.
  - rewrite <- E3. exact E1.
  - exact H1.
  - apply Forall_rev. exact H2.
  - intros c r Hr. apply (F1 c (r ++ rev w2)). rewrite E3, Hr. reflexivity.
  - intros c r Hr. apply (F2 c (rev r)). unfold JS.trim, JS.trimEnd in Hr.
    rewrite <- (rev_involutive (JS.trimStart _)), Hr, rev_app_distr. reflexivity.
Qed.

(** *** The recursion of [parseMultipartResponse] *)

Lemma parseMultipartResponseFuel_S (fuel : nat) (body : str) (headers : Fetch.Headers) :
  parseMultipartResponseFuel (S fuel) body headers
  = match getBoundary headers with
    | Throw e => Some (Throw e)
    | Ok boundary =>
        match mapSplitPart (bodyParts body boundary) with
        | Throw e => Some (Throw e)
        | Ok parts => decodePartsFuel (parseMultipartResponseFuel fuel) parts []
        end
    end.
Proof.
  cbn [parseMultipartResponseFuel]. destruct (getBoundary headers) as [boundary|e];
    [|reflexivity].
  fold (bodyParts body boundary).
  destruct (mapSplitPart (bodyParts body boundary)) as [parts|e]; [|reflexivity].
  match goal with
  | |- ?loop parts [] = _ =>
      enough (H : forall acc, loop parts acc
                              = decodePartsFuel (parseMultipartResponseFuel fuel) parts acc)
        by apply H
  end.
  induction parts as [|[h b] parts IH]; intros acc; [reflexivity|].
  cbn [decodePartsFuel processParts dispatch].
  destruct (Fetch.get h "Content-Type") as [[|c ct]|]; try reflexivity.
  destruct (JS.eqb (c :: ct) "application/http").
  - destruct (parseHttpResponse b) as [r|e]; [|reflexivity]. cbn [bind]. apply IH.
  - destruct (JS.startsWith (c :: ct) "multipart/mixed"); [|reflexivity].
    destruct (parseMultipartResponseFuel fuel b h) as [[rs|e]|]; try reflexivity.
    apply IH.
Qed.

Lemma mapSplitPart_In (l : list str) (parts : list (Fetch.Headers * str))
      (hb : Fetch.Headers * str) :
  mapSplitPart l = Ok parts -> In hb parts ->
  exists part, In part l /\ splitPart part = Ok hb.
Proof.
  revert parts; induction l as [|x l IH]; intros parts H Hin.
  - simpl in H. apply Ok_inj in H. subst. destruct Hin.
  - cbn [mapSplitPart] in H. destruct (splitPart x) as [p|e] eqn:Ex; [|discriminate].
    cbn [bind] in H. destruct (mapSplitPart l) as [ps|e]; [|discriminate].
    cbn [bind] in H. apply Ok_inj in H. subst parts. destruct Hin as [<-|Hin].
    + exists x. split; [left; reflexivity|exact Ex].
    + destruct (IH ps eq_refl Hin) as (part & Hp & Hs).
      exists part. split; [right; exact Hp|exact Hs].
Qed.

Lemma delimiter_nonempty (boundary suffix : str) : "--" ++ boundary ++ suffix <> [].
Proof. discriminate. Qed.

(** A part of a body is shorter than the body. *)
Lemma bodyParts_length (body boundary part : str) :
  In part (bodyParts body boundary) -> length part < length body.
Proof.
  unfold bodyParts. intros H.
  apply (JSFacts.split_tail_length _ (delimiter_nonempty boundary CRLF)) in H.
  assert (Hl : 1 <= length ("--" ++ boundary ++ CRLF)) by (simpl; lia).
  destruct (JS.indexOf body ("--" ++ boundary ++ "--") >=? 0)%Z.
  - unfold JS.slice in H. rewrite length_firstn, length_skipn in H. lia.
  - lia.
Qed.

Lemma parts_shorter (body boundary : str) (parts : list (Fetch.Headers * str))
      (h : Fetch.Headers) (b : str) :
  mapSplitPart (bodyParts body boundary) = Ok parts -> In (h, b) parts ->
  length b < length body.
Proof.
  intros H Hin. destruct (mapSplitPart_In _ _ _ H Hin) as (part & Hp & Hs).
  apply bodyParts_length in Hp. apply splitPart_length in Hs. lia.
Qed.

Lemma decodePartsFuel_ext
      (rec1 rec2 : str -> Fetch.Headers -> option (result (list Fetch.Response)))
      (parts : list (Fetch.Headers * str)) (acc : list Fetch.Response) :
  (forall h b, In (h, b) parts -> rec1 b h = rec2 b h) ->
  decodePartsFuel rec1 parts acc = decodePartsFuel rec2 parts acc.
Proof.
  revert acc; induction parts as [|[h b] parts IH]; intros acc H; [reflexivity|].
  cbn [decodePartsFuel processParts dispatch].
  assert (IH' : forall acc, decodePartsFuel rec1 parts acc = decodePartsFuel rec2 parts acc).
  { intros acc'. apply IH. intros h' b' Hin. apply H. right. exact Hin. }
  unfold decodePartsFuel in IH'.
  destruct (Fetch.get h "Content-Type") as [[|c ct]|]; try reflexivity.
  destruct (JS.eqb (c :: ct) "application/http").
  - destruct (parseHttpResponse b) as [r|e]; [|reflexivity]. cbn [bind]. apply IH'.
  - destruct (JS.startsWith (c :: ct) "multipart/mixed"); [|reflexivity].
    rewrite (H h b (or_introl eq_refl)).
    destruct (rec2 b h) as [[rs|e]|]; try reflexivity. apply IH'.
Qed.

(** With the recursive calls answering, the loop with fuel is the loop. *)
Lemma decodePartsFuel_total
      (recF : str -> Fetch.Headers -> option (result (list Fetch.Response)))
      (rec : str -> Fetch.Headers -> result (list Fetch.Response))
      (parts : list (Fetch.Headers * str)) (acc : list Fetch.Response) :
  (forall h b, In (h, b) parts -> recF b h = Some (rec b h)) ->
  decodePartsFuel recF parts acc = Some (decodeParts rec parts acc).
Proof.
  revert acc; induction parts as [|[h b] parts IH]; intros acc H; [reflexivity|].
  cbn [decodePartsFuel decodeParts processParts dispatch].
  assert (IH' : forall acc, decodePartsFuel recF parts acc = Some (decodeParts rec parts acc)).
  { intros acc'. apply IH. intros h' b' Hin. apply H. right. exact Hin. }
  unfold decodePartsFuel, decodeParts in IH'.
  destruct (Fetch.get h "Content-Type") as [[|c ct]|]; try reflexivity.
  destruct (JS.eqb (c :: ct) "application/http").
  - destruct (parseHttpResponse b) as [r|e]; [|reflexivity]. cbn [bind]. apply IH'.
  - destruct (JS.startsWith (c :: ct) "multipart/mixed"); [|reflexivity].
    rewrite (H h b (or_introl eq_refl)).
    destruct (rec b h) as [rs|e]; [|reflexivity]. cbn [bind]. apply IH'.
Qed.

(** Fuel above the length of the body is enough, and any such fuel gives the
    same result. *)
Lemma parseMultipartResponseFuel_enough (n : nat) :
  forall (m : nat) (body : str) (headers : Fetch.Headers),
    length body < n -> length body < m ->
    parseMultipartResponseFuel n body headers = parseMultipartResponseFuel m body headers
    /\ parseMultipartResponseFuel n body headers <> None.
Proof.
  induction n as [|n IH]; intros m body headers Hn Hm; [lia|].
  destruct m as [|m]; [lia|]. rewrite !parseMultipartResponseFuel_S.
  destruct (getBoundary headers) as [boundary|e]; [|split; [reflexivity|discriminate]].
  destruct (mapSplitPart (bodyParts body boundary)) as [parts|e] eqn:Ep;
    [|split; [reflexivity|discriminate]].
  assert (Hrec : forall h b, In (h, b) parts ->
                             parseMultipartResponseFuel n b h
                             = parseMultipartResponseFuel m b h
                             /\ parseMultipartResponseFuel n b h <> None).
  { intros h b Hin. pose proof (parts_shorter _ _ _ _ _ Ep Hin). apply IH; lia. }
  split.
  - apply decodePartsFuel_ext. intros h b Hin. apply (Hrec h b Hin).
  - rewrite (decodePartsFuel_total _
               (fun b h => match parseMultipartResponseFuel n b h with
                           | Some r => r
                           | None => Throw RangeError
                           end)).
    + discriminate.
    + intros h b Hin. destruct (Hrec h b Hin) as [_ Hne].
      destruct (parseMultipartResponseFuel n b h); [reflexivity|congruence].
Qed.

Lemma parseMultipartResponse_fuel (n : nat) (body : str) (headers : Fetch.Headers) :
  length body < n ->
  parseMultipartResponseFuel n body headers = Some (parseMultipartResponse body headers).
Proof.
  intros Hn. unfold parseMultipartResponse.
  destruct (parseMultipartResponseFuel_enough n (S (length body)) body headers Hn
              (Nat.lt_succ_diag_r _)) as [<- Hne].
  destruct (parseMultipartResponseFuel n body headers); [reflexivity|congruence].
Qed.

(** The equation of [parseMultipartResponse]: the source, with the recursive
    call being [parseMultipartResponse] itself. *)
Lemma parseMultipartResponse_unfold (body : str) (headers : Fetch.Headers) :
  parseMultipartResponse body headers
  = decodeWith parseMultipartResponse body headers.
Proof.
  unfold parseMultipartResponse at 1. rewrite parseMultipartResponseFuel_S.
  unfold decodeWith.
  destruct (getBoundary headers) as [boundary|e]; [|reflexivity]. cbn [bind].
  destruct (mapSplitPart (bodyParts body boundary)) as [parts|e] eqn:Ep;
    [|reflexivity].
  cbn [bind]. rewrite (decodePartsFuel_total _ parseMultipartResponse); [reflexivity|].
  intros h b Hin. apply parseMultipartResponse_fuel.
  apply (parts_shorter _ _ _ _ _ Ep Hin).
Qed.

End DecoderFacts.

(** ** Decoding what was laid out *)

Module RepliesFacts.
Import BatchRequest Decoder StrProps Encoder Multipart Replies.

(** *** Code units *)

Lemma forallb_not_In {A} (f : A -> bool) (l : list A) (c : A) :
  forallb f l = true -> f c = false -> ~ In c l.
Proof.
  intros H Hc Hin. rewrite forallb_forall in H. rewrite (H c Hin) in Hc. discriminate.
Qed.

Lemma forallb_free {A} (f : A -> bool) (l : list A) (c : A) :
  forallb f l = true -> f c = false -> Forall (fun d => d <> c) l.
Proof.
  intros H Hc. apply Forall_forall. intros d Hd E. subst d.
  apply (forallb_not_In f l c H Hc Hd).
Qed.

Lemma isTrimmed_trimmed (s : str) : isTrimmed s = true -> trimmed s.
Proof.
  destruct s as [|c r]; intros H.
  - split; intros d q E; [discriminate|destruct q; discriminate].
  - unfold isTrimmed in H. apply andb_true_iff in H as [H1 H2].
    apply negb_true_iff in H1, H2. split; intros d q E.
    + injection E as <- _. exact H1.
    + rewrite E, last_last in H2. exact H2.
Qed.

Lemma trimmed_app (u v : str) :
  u <> [] -> trimmed u -> forallb (fun c => negb (JS.isWhiteSpace c)) v = true ->
  trimmed (u ++ v).
Proof.
  intros Hu [H1 H2] Hv. split; intros d q E.
  - destruct u as [|c r]; [congruence|]. injection E as <- _. apply (H1 c r eq_refl).
  - destruct v as [|c v'] using rev_ind.
    + rewrite app_nil_r in E. apply (H2 d q E).
    + rewrite app_assoc in E. apply app_inj_tail in E as [_ <-].
      rewrite forallb_app in Hv. apply andb_true_iff in Hv as [_ Hv].
      simpl in Hv. rewrite andb_true_r in Hv. apply negb_true_iff in Hv. exact Hv.
Qed.

(** White space of HTTP is white space of [trim]. *)
Lemma http_whitespace (c : ascii) :
  Fetch.isHttpWhitespace c = true -> JS.isWhiteSpace c = true.
Proof.
  unfold Fetch.isHttpWhitespace, JS.isWhiteSpace. cbn [existsb].
  destruct (Nat.eqb_spec (nat_of_ascii c) 9) as [->|_]; [reflexivity|].
  destruct (Nat.eqb_spec (nat_of_ascii c) 10) as [->|_]; [reflexivity|].
  destruct (Nat.eqb_spec (nat_of_ascii c) 13) as [->|_]; [reflexivity|].
  destruct (Nat.eqb_spec (nat_of_ascii c) 32) as [->|_]; [reflexivity|].
  discriminate.
Qed.

Lemma stripStart_id (s : str) :
  (forall c r, s = c :: r -> JS.isWhiteSpace c = false) -> Fetch.stripStart s = s.
Proof.
  intros H. destruct s as [|c r]; [reflexivity|]. simpl.
  destruct (Fetch.isHttpWhitespace c) eqn:E; [|reflexivity].
  apply http_whitespace in E. rewrite (H c r eq_refl) in E. discriminate.
Qed.

(** A trimmed value is stored as it is. *)
Lemma normalize_trimmed (v : str) : trimmed v -> Fetch.normalize v = v.
Proof.
  intros [H1 H2]. unfold Fetch.normalize. rewrite (stripStart_id v H1).
  rewrite stripStart_id; [apply rev_involutive|].
  intros c r Hr. apply (H2 c (rev r)).
  rewrite <- (rev_involutive v), Hr. reflexivity.
Qed.

(** *** Header lines *)

Lemma tchar_not_colon (name : str) :
  forallb Fetch.isTchar name = true -> Forall (fun d => d <> ":"%char) name.
Proof. intros H. apply (forallb_free _ _ _ H). reflexivity. Qed.

Lemma tchar_not_CR (name : str) :
  forallb Fetch.isTchar name = true -> Forall (fun d => d <> CR) name.
Proof. intros H. apply (forallb_free _ _ _ H). reflexivity. Qed.

Lemma isHeaderName_tchar (name : str) :
  Fetch.isHeaderName name = true -> forallb Fetch.isTchar name = true /\ name <> [].
Proof.
  unfold Fetch.isHeaderName. destruct name; [discriminate|]. intros H.
  split; [exact H|discriminate].
Qed.

Lemma value_not_CR (v : str) :
  Fetch.isHeaderValue v = true -> Forall (fun d => d <> CR) v.
Proof. intros H. apply (forallb_free _ _ _ H). reflexivity. Qed.

Lemma headerOfLine_line (name value : str) :
  Fetch.isHeaderName name = true -> trimmed value ->
  headerOfLine (name ++ ": " ++ value) = (name, value).
Proof.
  intros Hn Hv. apply isHeaderName_tchar in Hn as [Hn _].
  assert (F : JS.find (name ++ ": " ++ value) ":" = Some (length name)).
  { rewrite (JSFacts.find_free_prefix name _ ":"%char []) by (apply tchar_not_colon, Hn).
    change (": " ++ value) with (":"%char :: " "%char :: value).
    rewrite JSFacts.find_here by reflexivity. simpl. f_equal. lia. }
  unfold headerOfLine. rewrite (JSFacts.indexOf_some _ _ _ F).
  rewrite JSFacts.slice_prefix.
  replace (Z.of_nat (length name) + 1)%Z with (Z.of_nat (length name + 1)) by lia.
  rewrite JSFacts.sliceFrom_nat. f_equal.
  - rewrite firstn_app, Nat.sub_diag, firstn_all. simpl. apply app_nil_r.
  - rewrite skipn_app, skipn_all2 by lia.
    replace (length name + 1 - length name) with 1 by lia.
    change (skipn 1 (": " ++ value)) with (" "%char :: value).
    assert (T : JS.trim (" "%char :: value) = value).
    { rewrite <- (app_nil_r value) at 1.
      apply (JSFacts.trim_pad [" "%char] value []); [|constructor|exact Hv].
      repeat constructor. }
    rewrite app_nil_l, T. apply normalize_trimmed, Hv.
Qed.

Lemma validHeaderLine_line (name value : str) :
  Fetch.isHeaderName name = true -> Fetch.isHeaderValue value = true ->
  trimmed value ->
  validHeaderLine (name ++ ": " ++ value) = true.
Proof.
  intros Hn Hv Ht. unfold validHeaderLine.
  rewrite (headerOfLine_line name value Hn Ht). cbn [fst snd]. rewrite Hn, Hv.
  reflexivity.
Qed.

Lemma line_not_CR (name value : str) :
  Fetch.isHeaderName name = true -> Fetch.isHeaderValue value = true ->
  Forall (fun d => d <> CR) (name ++ ": " ++ value).
Proof.
  intros Hn Hv. apply isHeaderName_tchar in Hn as [Hn _].
  apply Forall_app. split; [apply tchar_not_CR, Hn|].
  constructor; [discriminate|]. constructor; [discriminate|]. apply value_not_CR, Hv.
Qed.

(** A header line is read back with its value trimmed, whatever the white
    space around the value. *)
Lemma trim_space (value : str) : JS.trim (" "%char :: value) = JS.trim value.
Proof.
  destruct (DecoderFacts.trim_spec value) as (w1 & w2 & E & H1 & H2 & H3).
  rewrite E at 1.
  change (" "%char :: w1 ++ JS.trim value ++ w2)
    with ((" "%char :: w1) ++ JS.trim value ++ w2).
  apply JSFacts.trim_pad; [|exact H2|exact H3].
  constructor; [reflexivity|exact H1].
Qed.

Lemma isHeaderValue_trim (value : str) :
  Fetch.isHeaderValue value = true -> Fetch.isHeaderValue (JS.trim value) = true.
Proof.
  destruct (DecoderFacts.trim_spec value) as (w1 & w2 & E & _).
  intros H. rewrite E in H. unfold Fetch.isHeaderValue in *.
  rewrite !forallb_app in H. apply andb_true_iff in H as [_ H].
  apply andb_true_iff in H as [H _]. exact H.
Qed.

Lemma headerOfLine_any (name value : str) :
  Fetch.isHeaderName name = true ->
  headerOfLine (name ++ ": " ++ value) = (name, JS.trim value).
Proof.
  intros Hn. apply isHeaderName_tchar in Hn as [Hn _].
  assert (F : JS.find (name ++ ": " ++ value) ":" = Some (length name)).
  { rewrite (JSFacts.find_free_prefix name _ ":"%char []) by (apply tchar_not_colon, Hn).
    change (": " ++ value) with (":"%char :: " "%char :: value).
    rewrite JSFacts.find_here by reflexivity. simpl. f_equal. lia. }
  unfold headerOfLine. rewrite (JSFacts.indexOf_some _ _ _ F).
  rewrite JSFacts.slice_prefix.
  replace (Z.of_nat (length name) + 1)%Z with (Z.of_nat (length name + 1)) by lia.
  rewrite JSFacts.sliceFrom_nat. f_equal.
  - rewrite firstn_app, Nat.sub_diag, firstn_all. simpl. apply app_nil_r.
  - rewrite skipn_app, skipn_all2 by lia.
    replace (length name + 1 - length name) with 1 by lia.
    change (skipn 1 (": " ++ value)) with (" "%char :: value).
    rewrite app_nil_l, trim_space. apply normalize_trimmed.
    destruct (DecoderFacts.trim_spec value) as (w1 & w2 & _ & _ & _ & H3). exact H3.
Qed.

Lemma validHeaderLine_any (name value : str) :
  Fetch.isHeaderName name = true -> Fetch.isHeaderValue value = true ->
  validHeaderLine (name ++ ": " ++ value) = true.
Proof.
  intros Hn Hv. unfold validHeaderLine.
  rewrite (headerOfLine_any name value Hn). cbn [fst snd].
  rewrite Hn, (isHeaderValue_trim value Hv). reflexivity.
Qed.

(** *** Blocks of lines *)

(** Lines without CR, joined by line breaks, are cut back into the lines. *)
Lemma split_join_lines (l : str) (lines : list str) :
  Forall (fun x => Forall (fun d => d <> CR) x) (l :: lines) ->
  JS.split (JS.join CRLF (l :: lines)) CRLF = l :: lines.
Proof.
  revert l; induction lines as [|l2 lines IH]; intros l H.
  - inversion H as [|? ? Hl _]; subst. cbn [JS.join].
    apply JSFacts.split_none; [discriminate|]. apply JSFacts.find_free. exact Hl.
  - inversion H as [|? ? Hl Hrest]; subst.
    rewrite JSFacts.join_cons by discriminate.
    rewrite JSFacts.split_app; [f_equal; apply IH; exact Hrest|discriminate|].
    rewrite (JSFacts.find_free_prefix l _ CR [LF]) by exact Hl.
    rewrite JSFacts.find_here by apply JSFacts.startsWith_app.
    simpl. f_equal. lia.
Qed.

(** The first blank line after a block of non-empty lines without CR is the
    one after the block. *)
Lemma find_blank_line (l : str) (lines : list str) (rest : str) :
  Forall (fun x => x <> [] /\ Forall (fun d => d <> CR) x) (l :: lines) ->
  JS.find (JS.join CRLF (l :: lines) ++ CRLF ++ CRLF ++ rest) (CRLF ++ CRLF)
  = Some (length (JS.join CRLF (l :: lines))).
Proof.
  revert l; induction lines as [|l2 lines IH]; intros l H.
  - inversion H as [|? ? [_ Hl] _]; subst. cbn [JS.join].
    rewrite (JSFacts.find_free_prefix l _ CR [LF; CR; LF]) by exact Hl.
    rewrite JSFacts.find_here by (apply (JSFacts.startsWith_app (CRLF ++ CRLF))).
    simpl. f_equal. lia.
  - inversion H as [|? ? [_ Hl] Hrest]; subst.
    rewrite JSFacts.join_cons by discriminate. rewrite <- !app_assoc.
    rewrite (JSFacts.find_free_prefix l _ CR [LF; CR; LF]) by exact Hl.
    specialize (IH l2 Hrest).
    inversion Hrest as [|? ? [Hne Hl2] _]; subst.
    destruct l2 as [|c l2']; [congruence|].
    assert (Hc : c <> CR) by (inversion Hl2; assumption).
    match goal with
    | |- context [JS.join CRLF ?x] =>
        assert (Eb : exists b', JS.join CRLF x = c :: b')
          by (destruct lines; simpl; eauto);
        destruct Eb as [b' Eb]; rewrite Eb in IH |- *
    end.
    change (CRLF ++ (c :: b') ++ CRLF ++ CRLF ++ rest)
      with (CR :: LF :: (c :: b') ++ CRLF ++ CRLF ++ rest).
    rewrite JSFacts.find_next.
    2:{ cbn [JS.startsWith app]. rewrite !Ascii.eqb_refl. cbn [andb].
        destruct (Ascii.eqb_spec CR c); [congruence|reflexivity]. }
    rewrite JSFacts.find_next by reflexivity.
    change [CR; LF; CR; LF] with (CRLF ++ CRLF).
    rewrite IH. simpl. f_equal. rewrite !length_app. simpl. lia.
Qed.

(** [splitPart] on a block of header lines, a blank line and a body. *)
Lemma splitPart_block (block body : str) :
  JS.startsWith (block ++ CRLF) CRLF = false ->
  JS.find (block ++ CRLF ++ CRLF ++ body) (CRLF ++ CRLF) = Some (length block) ->
  forallb validHeaderLine (JS.split block CRLF) = true ->
  splitPart (block ++ CRLF ++ CRLF ++ body)
  = Ok (map headerOfLine (JS.split block CRLF), body).
Proof.
  intros Hs Hf Hv. rewrite DecoderFacts.splitPart_headers.
  - unfold rawHeaderLines. rewrite (JSFacts.indexOf_some _ _ _ Hf).
    rewrite JSFacts.slice_prefix.
    replace (Z.of_nat (length block) + 4)%Z with (Z.of_nat (length block + 4)) by lia.
    rewrite JSFacts.sliceFrom_nat.
    rewrite firstn_app, Nat.sub_diag, firstn_all. simpl firstn. rewrite app_nil_r.
    rewrite Hv. do 2 f_equal.
    rewrite skipn_app, skipn_all2 by lia.
    replace (length block + 4 - length block) with 4 by lia. reflexivity.
  - rewrite app_assoc. apply JSFacts.startsWith_false_app; [exact Hs|].
    rewrite length_app. simpl. lia.
Qed.

(** *** A reply *)

Lemma firstn_exact {A} (x y : list A) : firstn (length x) (x ++ y) = x.
Proof. rewrite firstn_app, Nat.sub_diag, firstn_all. simpl. apply app_nil_r. Qed.

Lemma skipn_exact {A} (x y : list A) (n : nat) :
  skipn (length x + n) (x ++ y) = skipn n y.
Proof.
  rewrite skipn_app, skipn_all2 by lia.
  replace (length x + n - length x) with n by lia. reflexivity.
Qed.

Lemma concat_lines (sep l : str) (lines : list str) :
  concat (map (fun x => x ++ sep) (l :: lines)) = JS.join sep (l :: lines) ++ sep.
Proof.
  revert l; induction lines as [|l2 lines IH]; intros l.
  - simpl. rewrite app_nil_r. reflexivity.
  - rewrite JSFacts.join_cons by discriminate.
    change (concat (map (fun x => x ++ sep) (l :: l2 :: lines)))
      with ((l ++ sep) ++ concat (map (fun x => x ++ sep) (l2 :: lines))).
    rewrite IH, <- !app_assoc. reflexivity.
Qed.

Lemma headerOk_parts (e : str * str) :
  headerOk e = true ->
  Fetch.isHeaderName (fst e) = true /\ Fetch.isHeaderValue (snd e) = true
  /\ trimmed (snd e).
Proof.
  unfold headerOk. intros H. apply andb_true_iff in H as [H H3].
  apply andb_true_iff in H as [H1 H2]. auto using isTrimmed_trimmed.
Qed.

Lemma headerLines_ok (hs : list (str * str)) :
  forallb headerOk hs = true ->
  Forall (fun x => x <> [] /\ Forall (fun d => d <> CR) x) (map headerLine hs)
  /\ forallb validHeaderLine (map headerLine hs) = true
  /\ map headerOfLine (map headerLine hs) = hs.
Proof.
  induction hs as [|[name value] hs IH]; intros H.
  - repeat split. constructor.
  - cbn [forallb] in H. apply andb_true_iff in H as [He Hs].
    destruct (IH Hs) as (I1 & I2 & I3).
    destruct (headerOk_parts _ He) as (Hn & Hv & Ht). cbn [fst snd] in *.
    cbn [map forallb]. unfold headerLine at 1 3 5. cbn [fst snd].
    repeat split.
    + constructor; [|exact I1]. split.
      * destruct name; [discriminate|discriminate].
      * apply line_not_CR; assumption.
    + rewrite validHeaderLine_line by assumption. exact I2.
    + rewrite headerOfLine_line by assumption. f_equal. exact I3.
Qed.

(** After the status line: the headers and the body of the reply. *)
Lemma splitPart_headerBlock (hs : list (str * str)) (body : str) :
  forallb headerOk hs = true ->
  splitPart (headerBlock hs ++ CRLF ++ body) = Ok (hs, body).
Proof.
  intros H. destruct (headerLines_ok hs H) as (H1 & H2 & H3).
  destruct hs as [|e hs].
  - apply DecoderFacts.splitPart_blank. reflexivity.
  - unfold headerBlock.
    rewrite <- (map_map headerLine (fun x => x ++ CRLF)).
    change (map headerLine (e :: hs)) with (headerLine e :: map headerLine hs) in *.
    rewrite concat_lines, <- app_assoc.
    rewrite splitPart_block.
    + rewrite split_join_lines.
      * rewrite H3. reflexivity.
      * eapply Forall_impl; [|exact H1]. intros x [_ Hx]. exact Hx.
    + inversion H1 as [|? ? [Hne Hcr] _]; subst.
      destruct (headerLine e) as [|c l] eqn:El; [congruence|].
      assert (Hc : c <> CR) by (inversion Hcr; assumption).
      destruct (map headerLine hs); cbn [JS.join app];
        apply JSFacts.startsWith_head; congruence.
    + apply find_blank_line. exact H1.
    + rewrite split_join_lines; [exact H2|].
      eapply Forall_impl; [|exact H1]. intros x [_ Hx]. exact Hx.
Qed.

Lemma headerFine_parts (e : str * str) :
  headerFine e = true ->
  Fetch.isHeaderName (fst e) = true /\ Fetch.isHeaderValue (snd e) = true.
Proof. unfold headerFine. intros H. apply andb_true_iff in H. exact H. Qed.

Lemma headerOk_fine (hs : list (str * str)) :
  forallb headerOk hs = true -> forallb headerFine hs = true.
Proof.
  intros H. apply forallb_forall. intros e He.
  rewrite forallb_forall in H. destruct (headerOk_parts e (H e He)) as (Hn & Hv & _).
  unfold headerFine. rewrite Hn, Hv. reflexivity.
Qed.

(** Headers written without white space around the values are read back as
    they are. *)
Lemma readBack_id (hs : list (str * str)) :
  forallb headerOk hs = true -> readBack hs = hs.
Proof.
  induction hs as [|[name value] hs IH]; intros H; [reflexivity|].
  cbn [forallb] in H. apply andb_true_iff in H as [He Hs].
  destruct (headerOk_parts _ He) as (_ & _ & Ht). cbn [snd] in Ht.
  cbn [readBack map fst snd]. rewrite (JSFacts.trim_id value Ht). f_equal.
  apply IH, Hs.
Qed.

Lemma headerLines_any (hs : list (str * str)) :
  forallb headerFine hs = true ->
  Forall (fun x => x <> [] /\ Forall (fun d => d <> CR) x) (map headerLine hs)
  /\ forallb validHeaderLine (map headerLine hs) = true
  /\ map headerOfLine (map headerLine hs) = readBack hs.
Proof.
  induction hs as [|[name value] hs IH]; intros H.
  - repeat split. constructor.
  - cbn [forallb] in H. apply andb_true_iff in H as [He Hs].
    destruct (IH Hs) as (I1 & I2 & I3).
    destruct (headerFine_parts _ He) as (Hn & Hv). cbn [fst snd] in *.
    cbn [map forallb readBack]. unfold headerLine at 1 3 5. cbn [fst snd].
    repeat split.
    + constructor; [|exact I1]. split.
      * destruct name; [discriminate|discriminate].
      * apply line_not_CR; assumption.
    + rewrite validHeaderLine_any by assumption. exact I2.
    + rewrite headerOfLine_any by assumption. f_equal. exact I3.
Qed.

(** The same, for values written with white space around them. *)
Lemma splitPart_headerBlock_any (hs : list (str * str)) (body : str) :
  forallb headerFine hs = true ->
  splitPart (headerBlock hs ++ CRLF ++ body) = Ok (readBack hs, body).
Proof.
  intros H. destruct (headerLines_any hs H) as (H1 & H2 & H3).
  destruct hs as [|e hs].
  - apply DecoderFacts.splitPart_blank. reflexivity.
  - unfold headerBlock.
    rewrite <- (map_map headerLine (fun x => x ++ CRLF)).
    change (map headerLine (e :: hs)) with (headerLine e :: map headerLine hs) in *.
    rewrite concat_lines, <- app_assoc.
    rewrite splitPart_block.
    + rewrite split_join_lines.
      * rewrite H3. reflexivity.
      * eapply Forall_impl; [|exact H1]. intros x [_ Hx]. exact Hx.
    + inversion H1 as [|? ? [Hne Hcr] _]; subst.
      destruct (headerLine e) as [|c l] eqn:El; [congruence|].
      assert (Hc : c <> CR) by (inversion Hcr; assumption).
      destruct (map headerLine hs); cbn [JS.join app];
        apply JSFacts.startsWith_head; congruence.
    + apply find_blank_line. exact H1.
    + rewrite split_join_lines; [exact H2|].
      eapply Forall_impl; [|exact H1]. intros x [_ Hx]. exact Hx.
Qed.

(** The three digits of a status are read back as the status, and hold
    neither CR nor a space. *)
Lemma decimal3_checked :
  forallb (fun n =>
             match JS.parseInt (Some (decimal3 n)) with
             | JS.Int z => (z =? Z.of_nat n)%Z
             | _ => false
             end
             && forallb (fun c => negb (Ascii.eqb c CR) && negb (Ascii.eqb c " "))
                        (decimal3 n))
          (seq 0 1000) = true.
Proof. vm_compute. reflexivity. Qed.

Lemma decimal3_spec (n : nat) :
  n < 1000 ->
  JS.parseInt (Some (decimal3 n)) = JS.Int (Z.of_nat n)
  /\ Forall (fun d => d <> CR) (decimal3 n)
  /\ Forall (fun d => d <> " "%char) (decimal3 n).
Proof.
  intros Hn. pose proof decimal3_checked as H. rewrite forallb_forall in H.
  specialize (H n). rewrite in_seq in H. specialize (H ltac:(lia)).
  apply andb_true_iff in H as [H1 H2].
  destruct (JS.parseInt (Some (decimal3 n))) as [|z|]; try discriminate.
  apply Z.eqb_eq in H1. subst z. split; [reflexivity|].
  rewrite forallb_forall in H2.
  split; apply Forall_forall; intros d Hd E; subst d; specialize (H2 _ Hd);
    apply andb_true_iff in H2 as [A B]; [|clear A];
    rewrite Ascii.eqb_refl in *; discriminate.
Qed.

Lemma reasonPhrase_not_CR (text : str) :
  Fetch.isReasonPhrase text = true -> Forall (fun d => d <> CR) text.
Proof. intros H. apply (forallb_free _ _ _ H). reflexivity. Qed.

Lemma acceptable_parts (r : Reply) :
  acceptable r = true ->
  200 <= replyStatus r <= 599
  /\ Fetch.isNullBodyStatus (Z.of_nat (replyStatus r)) = false
  /\ Fetch.isReasonPhrase (replyText r) = true
  /\ forallb headerFine (replyHeaders r) = true.
Proof.
  unfold acceptable. intros H.
  repeat (apply andb_true_iff in H as [H ?]).
  repeat split; try assumption.
  - apply Nat.leb_le. assumption.
  - apply Nat.leb_le. assumption.
  - apply negb_true_iff. assumption.
Qed.

Lemma replyOk_acceptable (r : Reply) :
  replyOk r = true -> acceptable r = true /\ trimmed (replyBody r).
Proof.
  unfold replyOk, acceptable. intros H. apply andb_true_iff in H as [H Hb].
  split; [|apply isTrimmed_trimmed, Hb].
  apply andb_true_iff in H as [H Hh]. rewrite H. apply headerOk_fine, Hh.
Qed.

Lemma replyOk_parts (r : Reply) :
  replyOk r = true ->
  200 <= replyStatus r <= 599
  /\ Fetch.isNullBodyStatus (Z.of_nat (replyStatus r)) = false
  /\ Fetch.isReasonPhrase (replyText r) = true
  /\ forallb headerFine (replyHeaders r) = true
  /\ trimmed (replyBody r).
Proof.
  intros H. destruct (replyOk_acceptable r H) as [Ha Hb].
  destruct (acceptable_parts r Ha) as (H1 & H2 & H3 & H4). auto.
Qed.

Lemma words_of_statusLine (code text : str) :
  Forall (fun d => d <> " "%char) code ->
  JS.split ("HTTP/1.1 " ++ code ++ " " ++ text) " "
  = ("HTTP/1.1" : str) :: code :: JS.split text " ".
Proof.
  intros Hc.
  change ("HTTP/1.1 " ++ code ++ " " ++ text)
    with ("HTTP/1.1" ++ " " ++ (code ++ " " ++ text)).
  rewrite JSFacts.split_app; [f_equal|discriminate|].
  - rewrite JSFacts.split_app; [reflexivity|discriminate|].
    rewrite (JSFacts.find_free_prefix code _ " "%char []) by exact Hc.
    rewrite JSFacts.find_here by reflexivity. simpl. f_equal. lia.
  - apply (JSFacts.find_app_found ("HTTP/1.1" ++ " ") _ " " 8). reflexivity.
Qed.

(** White space after a text is trimmed with the white space that ends
    it. *)
Lemma trim_end (s w : str) : allWhiteSpace w -> JS.trim (s ++ w) = JS.trim s.
Proof.
  intros Hw. destruct (DecoderFacts.trim_spec s) as (w1 & w2 & E & H1 & H2 & H3).
  rewrite E at 1. rewrite <- !app_assoc.
  apply JSFacts.trim_pad; [exact H1| |exact H3].
  apply Forall_app. split; assumption.
Qed.

(** [parseHttpResponse] on the text of a reply: the status line and the
    headers are read, and [Response] is given the trimmed body. *)
Lemma parseHttpResponse_httpText (r : Reply) :
  replyStatus r < 1000 ->
  Fetch.isReasonPhrase (replyText r) = true ->
  forallb headerFine (replyHeaders r) = true ->
  parseHttpResponse (httpText r ++ CRLF)
  = Fetch.newResponse (JS.trim (replyBody r)) (readBack (replyHeaders r))
                      (JS.Int (Z.of_nat (replyStatus r))) (replyText r).
Proof.
  intros Hst Hrp Hhs.
  destruct (decimal3_spec (replyStatus r) Hst) as (Hint & Hcr & Hsp).
  set (statusLine := "HTTP/1.1 " ++ decimal3 (replyStatus r) ++ " " ++ replyText r).
  set (rest := headerBlock (replyHeaders r) ++ CRLF ++ replyBody r ++ CRLF).
  assert (E : httpText r ++ CRLF = statusLine ++ CRLF ++ rest).
  { unfold httpText, statusLine, rest. rewrite <- !app_assoc. reflexivity. }
  assert (Hline : Forall (fun d => d <> CR) statusLine).
  { unfold statusLine. apply Forall_app. split; [repeat constructor; discriminate|].
    apply Forall_app. split; [exact Hcr|].
    constructor; [discriminate|]. apply reasonPhrase_not_CR, Hrp. }
  assert (F : JS.find (statusLine ++ CRLF ++ rest) CRLF = Some (length statusLine)).
  { rewrite (JSFacts.find_free_prefix statusLine _ CR [LF]) by exact Hline.
    rewrite JSFacts.find_here by apply JSFacts.startsWith_app.
    simpl. f_equal. lia. }
  unfold parseHttpResponse. rewrite E, (JSFacts.indexOf_some _ _ _ F).
  rewrite JSFacts.slice_prefix, firstn_exact.
  replace (Z.of_nat (length statusLine) + 2)%Z
    with (Z.of_nat (length statusLine + 2)) by lia.
  rewrite JSFacts.sliceFrom_nat, skipn_exact. change (skipn 2 (CRLF ++ rest)) with rest.
  unfold statusLine at 1 2. rewrite (words_of_statusLine _ _ Hsp).
  cbn [nth_error skipn]. rewrite Hint.
  rewrite (JSFacts.join_split " ") by discriminate.
  unfold rest. rewrite (splitPart_headerBlock_any _ _ Hhs). cbn [bind].
  rewrite (trim_end (replyBody r) CRLF) by (repeat constructor). reflexivity.
Qed.

(** The status that [Response] takes from a number of three digits. *)
Lemma status_of_nat (n : nat) :
  n < 1000 -> Fetch.toUnsignedShort (JS.Int (Z.of_nat n)) = Z.of_nat n.
Proof. intros H. cbn [Fetch.toUnsignedShort]. apply Z.rem_small. lia. Qed.

(** [parseHttpResponse] reads back a reply that [Response] accepts. *)
Lemma parseHttpResponse_acceptable (r : Reply) :
  acceptable r = true ->
  parseHttpResponse (httpText r ++ CRLF) = Ok (expected r).
Proof.
  intros H. destruct (acceptable_parts r H) as (Hst & Hnull & Hrp & Hhs).
  rewrite (parseHttpResponse_httpText r ltac:(lia) Hrp Hhs).
  unfold Fetch.newResponse. rewrite (status_of_nat (replyStatus r)) by lia.
  assert (R : (200 <=? Z.of_nat (replyStatus r))%Z && (Z.of_nat (replyStatus r) <=? 599)%Z = true).
  { apply andb_true_iff. split; apply Z.leb_le; lia. }
  rewrite R, Hrp, Hnull. reflexivity.
Qed.

Lemma parseHttpResponse_reply (r : Reply) :
  replyOk r = true ->
  parseHttpResponse (httpText r ++ CRLF) = Ok (expected r).
Proof.
  intros H. apply parseHttpResponse_acceptable, (replyOk_acceptable r H).
Qed.

(** The body of a reply that is read back as it is. *)
Lemma expected_body (r : Reply) :
  replyOk r = true -> Fetch.body (expected r) = replyBody r.
Proof.
  intros H. cbn [expected Fetch.body].
  apply JSFacts.trim_id, (replyOk_acceptable r H).
Qed.

(** *** Boundaries *)

Lemma boundaryChar_value (c : ascii) :
  boundaryChar c = true ->
  negb (JS.isWhiteSpace c) = true
  /\ negb (existsb (Nat.eqb (nat_of_ascii c)) [0; 10; 13]) = true.
Proof.
  destruct c as [[|] [|] [|] [|] [|] [|] [|] [|]]; vm_compute; intros H;
    (discriminate H || (split; reflexivity)).
Qed.

Lemma forallb_impl {A} (f g : A -> bool) (l : list A) :
  (forall x, f x = true -> g x = true) -> forallb f l = true -> forallb g l = true.
Proof.
  intros H. rewrite !forallb_forall. intros Hf x Hx. apply H, Hf, Hx.
Qed.

Lemma boundaryOk_parts (b : str) :
  boundaryOk b = true ->
  Forall (fun d => d <> CR) b /\ Forall (fun d => d <> LF) b
  /\ Forall (fun d => d <> ";"%char) b /\ Forall (fun d => d <> "="%char) b
  /\ forallb (fun c => negb (JS.isWhiteSpace c)) b = true
  /\ Fetch.isHeaderValue b = true.
Proof.
  unfold boundaryOk. intros H. repeat split.
  - apply (forallb_free _ _ _ H). reflexivity.
  - apply (forallb_free _ _ _ H). reflexivity.
  - apply (forallb_free _ _ _ H). reflexivity.
  - apply (forallb_free _ _ _ H). reflexivity.
  - revert H. apply forallb_impl. intros c Hc. apply (boundaryChar_value c Hc).
  - revert H. apply forallb_impl. intros c Hc. apply (boundaryChar_value c Hc).
Qed.

Lemma Forall_not_In {A} (c : A) (l : list A) : Forall (fun d => d <> c) l -> ~ In c l.
Proof. intros H Hin. rewrite Forall_forall in H. apply (H c Hin). reflexivity. Qed.

(** The value of the Content-Type of a multipart body. *)
Lemma multipart_value (b : str) :
  boundaryOk b = true ->
  Fetch.isHeaderValue ("multipart/mixed; boundary=" ++ b) = true
  /\ trimmed ("multipart/mixed; boundary=" ++ b)
  /\ Forall (fun d => d <> CR) ("multipart/mixed; boundary=" ++ b).
Proof.
  intros H. destruct (boundaryOk_parts b H) as (Hcr & _ & _ & _ & Hws & Hv).
  repeat split.
  - unfold Fetch.isHeaderValue in *. rewrite forallb_app, Hv. reflexivity.
  - apply trimmed_app; [discriminate| |exact Hws]. apply isTrimmed_trimmed. reflexivity.
  - apply trimmed_app; [discriminate| |exact Hws]. apply isTrimmed_trimmed. reflexivity.
  - apply Forall_app. split; [|exact Hcr]. repeat constructor; discriminate.
Qed.

Lemma getBoundary_ok (hs : Fetch.Headers) (b : str) :
  Fetch.get hs "Content-Type" = Some ("multipart/mixed; boundary=" ++ b) ->
  boundaryOk b = true ->
  getBoundary hs = Ok b.
Proof.
  intros Hget H. destruct (boundaryOk_parts b H) as (_ & _ & Hsc & Heq & Hws & _).
  unfold getBoundary. rewrite Hget.
  change ("multipart/mixed; boundary=" ++ b)
    with ("m"%char :: ("ultipart/mixed; boundary=" ++ b)) at 1.
  cbv iota.
  assert (S1 : JS.split ("multipart/mixed; boundary=" ++ b) ";"
               = [("multipart/mixed" : str); " boundary=" ++ b]).
  { change ("multipart/mixed; boundary=" ++ b)
      with ("multipart/mixed" ++ ";" ++ (" boundary=" ++ b)).
    rewrite JSFacts.split_app; [f_equal|discriminate|].
    - apply JSFacts.split_none; [discriminate|].
      apply JSFacts.find_free. apply Forall_app. split; [|exact Hsc].
      repeat constructor; discriminate.
    - apply (JSFacts.find_app_found ("multipart/mixed" ++ ";") _ ";" 15). reflexivity. }
  change ("m"%char :: ("ultipart/mixed; boundary=" ++ b))
    with ("multipart/mixed; boundary=" ++ b).
  rewrite S1. cbn [map].
  assert (T1 : JS.trim "multipart/mixed" = ("multipart/mixed" : str)) by reflexivity.
  assert (T2 : JS.trim (" boundary=" ++ b) = "boundary=" ++ b).
  { change (" boundary=" ++ b) with ([" "%char] ++ ("boundary=" ++ b)).
    rewrite <- (app_nil_r ("boundary=" ++ b)) at 1.
    apply JSFacts.trim_pad; [repeat constructor|constructor|].
    apply trimmed_app; [discriminate| |exact Hws]. apply isTrimmed_trimmed. reflexivity. }
  rewrite T1, T2. cbn [List.find].
  replace (JS.startsWith "multipart/mixed" "boundary=") with false by reflexivity.
  rewrite JSFacts.startsWith_app.
  change ("boundary=" ++ b) with ("b"%char :: ("oundary=" ++ b)) at 1. cbv iota.
  change ("boundary=" ++ b) with ("boundary" ++ "=" ++ b).
  rewrite JSFacts.split_app; [|discriminate|].
  - rewrite (JSFacts.split_none "="); [reflexivity|discriminate|].
    apply JSFacts.find_free. exact Heq.
  - apply (JSFacts.find_app_found ("boundary" ++ "=") _ "=" 8). reflexivity.
Qed.

(** *** A body that was laid out *)

Section LaidOut.
Variable D : str.
Hypothesis D_nonempty : D <> [].
Hypothesis D_no_CR : ~ In CR D.
Hypothesis D_no_LF : ~ In LF D.

#[local] Abbreviation closing := (Multipart.closing D).
#[local] Abbreviation laid := (Multipart.laid D).

Lemma closing_nonempty : closing <> [].
Proof. unfold closing. destruct D; [congruence|discriminate]. Qed.

Lemma closing_no_CR : ~ In CR closing.
Proof.
  unfold closing. intros H. apply in_app_iff in H as [H|H]; [exact (D_no_CR H)|].
  destruct H as [H|[H|[]]]; discriminate H.
Qed.

Lemma closing_no_LF : ~ In LF closing.
Proof.
  unfold closing. intros H. apply in_app_iff in H as [H|H]; [exact (D_no_LF H)|].
  destruct H as [H|[H|[]]]; discriminate H.
Qed.

(** The closing delimiter is first found after the parts. *)
Lemma find_closing (pts : list str) (tail : str) :
  Forall (fun x => JS.includes x D = false) pts ->
  JS.find (laid pts ++ closing ++ tail) closing = Some (length (laid pts)).
Proof.
  induction pts as [|x pts IH]; intros H.
  - change (laid [] ++ closing ++ tail) with (closing ++ tail).
    apply JSFacts.find_here. apply JSFacts.startsWith_app.
  - inversion H as [|? ? Hx Hrest]; subst.
    unfold laid. cbn [map concat]. fold (laid pts). rewrite <- !app_assoc.
    rewrite (JSFacts.find_skip_line closing closing_nonempty closing_no_CR closing_no_LF).
    2:{ apply JSFacts.includes_long. unfold closing. rewrite length_app. simpl. lia. }
    rewrite (JSFacts.find_skip_line closing closing_nonempty closing_no_CR closing_no_LF).
    2:{ apply JSFacts.includes_prefix. exact Hx. }
    rewrite (IH Hrest). cbn [option_map]. f_equal. rewrite !length_app. simpl. lia.
Qed.

(** Cut at the delimiter lines, the text is the parts. *)
Lemma split_laid (pts : list str) (x : str) :
  JS.includes x D = false ->
  Forall (fun y => JS.includes y D = false) pts ->
  JS.split (x ++ CRLF ++ concat (map (fun y => (D ++ CRLF) ++ y ++ CRLF) pts)) (D ++ CRLF)
  = (x ++ CRLF) :: map (fun y => y ++ CRLF) pts.
Proof.
  assert (Hsep : D ++ CRLF <> []) by (destruct D; [congruence|discriminate]).
  revert x; induction pts as [|y pts IH]; intros x Hx H.
  - cbn [map concat]. rewrite app_nil_r.
    apply JSFacts.split_none; [exact Hsep|].
    apply JSFacts.find_none_line; assumption.
  - inversion H as [|? ? Hy Hrest]; subst. cbn [map concat].
    rewrite <- !app_assoc.
    rewrite (app_assoc x CRLF), (app_assoc D CRLF).
    rewrite JSFacts.split_app; [f_equal|exact Hsep|].
    + apply IH; assumption.
    + rewrite <- !app_assoc. rewrite length_app. simpl length.
      rewrite (app_assoc D CRLF).
      apply JSFacts.find_after_line; assumption.
Qed.

Lemma bodyParts_laid (pts : list str) (pre tail : str) :
  Forall (fun x => JS.includes x D = false) pts ->
  pre = [] \/ pre = CRLF ->
  let body := pre ++ laid pts ++ closing ++ tail in
  let endBoundaryIndex := JS.indexOf body closing in
  skipn 1 (JS.split (if (endBoundaryIndex >=? 0)%Z
                     then JS.slice body 0 endBoundaryIndex else body)
                    (D ++ CRLF))
  = map (fun x => x ++ CRLF) pts.
Proof.
  intros H Hpre body endBoundaryIndex.
  assert (Hsep : D ++ CRLF <> []) by (destruct D; [congruence|discriminate]).
  assert (F : JS.find body closing = Some (length (pre ++ laid pts))).
  { unfold body. destruct Hpre as [->| ->].
    - cbn [app]. apply find_closing. exact H.
    - rewrite <- (app_nil_l (CRLF ++ _)).
      rewrite (JSFacts.find_skip_line closing closing_nonempty closing_no_CR closing_no_LF)
        by (apply JSFacts.includes_long; unfold closing; rewrite length_app; simpl; lia).
      rewrite (find_closing pts tail H). cbn [option_map].
      f_equal; rewrite ?length_app; reflexivity. }
  unfold endBoundaryIndex. rewrite (JSFacts.indexOf_some _ _ _ F).
  replace (Z.of_nat (length (pre ++ laid pts)) >=? 0)%Z with true
    by (symmetry; apply Z.geb_le; lia).
  rewrite JSFacts.slice_prefix. unfold body. rewrite app_assoc, firstn_exact.
  assert (L : laid pts = concat (map (fun y => (D ++ CRLF) ++ y ++ CRLF) pts)).
  { unfold laid. f_equal. apply map_ext. intros y. rewrite <- !app_assoc. reflexivity. }
  destruct Hpre as [->| ->].
  - cbn [app]. destruct pts as [|y pts].
    + rewrite (JSFacts.split_none _ Hsep) by (apply JSFacts.find_nil; exact Hsep).
      reflexivity.
    + inversion H as [|? ? Hy Hrest]; subst. rewrite L. cbn [map concat].
      rewrite <- !app_assoc. rewrite (app_assoc D CRLF).
      rewrite <- (app_nil_l ((D ++ CRLF) ++ _)).
      rewrite JSFacts.split_app; [|exact Hsep|].
      * cbn [skipn]. apply split_laid; assumption.
      * rewrite app_nil_l. apply JSFacts.find_here. apply JSFacts.startsWith_app.
  - rewrite L. rewrite <- (app_nil_l (CRLF ++ _)).
    rewrite split_laid; [reflexivity| |exact H].
    apply JSFacts.includes_long. destruct D; [congruence|simpl; lia].
Qed.

End LaidOut.

Lemma delimiter_ok (b : str) :
  boundaryOk b = true ->
  "--" ++ b <> [] /\ ~ In CR ("--" ++ b) /\ ~ In LF ("--" ++ b).
Proof.
  intros H. destruct (boundaryOk_parts b H) as (Hcr & Hlf & _).
  split; [discriminate|]. split; intros [E|[E|Hin]]; try discriminate E.
  - apply (Forall_not_In _ _ Hcr Hin).
  - apply (Forall_not_In _ _ Hlf Hin).
Qed.

(** The parts of a body that was laid out with the boundary [b]. *)
Lemma bodyParts_text {A} (leaf : A -> str) (b : str) (ts : list (mtree A))
      (pre tail : str) :
  boundaryOk b = true ->
  Forall (fun t => JS.includes (partText leaf t) ("--" ++ b) = false) ts ->
  pre = [] \/ pre = CRLF ->
  bodyParts (pre ++ partsText leaf b ts ++ "--" ++ b ++ "--" ++ tail) b
  = map (fun t => partText leaf t ++ CRLF) ts.
Proof.
  intros Hb H Hpre. destruct (delimiter_ok b Hb) as (H1 & H2 & H3).
  pose proof (bodyParts_laid ("--" ++ b) H1 H2 H3 (map (partText leaf) ts) pre tail) as L.
  specialize (L ltac:(apply Forall_map; exact H) Hpre). cbv zeta in L.
  unfold Multipart.laid, Multipart.closing in L. rewrite !map_map in L.
  assert (Eb : pre ++ partsText leaf b ts ++ "--" ++ b ++ "--" ++ tail
               = pre ++ concat (map (fun t => ("--" ++ b) ++ CRLF ++ partText leaf t ++ CRLF) ts)
                     ++ (("--" ++ b) ++ "--") ++ tail).
  { unfold partsText. rewrite <- !app_assoc. reflexivity. }
  unfold bodyParts. rewrite Eb. exact L.
Qed.

(** *** Parts *)

Lemma mtree_induction {A} (P : mtree A -> Prop) :
  (forall a, P (Leaf a)) ->
  (forall b ts, Forall P ts -> P (Node b ts)) ->
  forall t, P t.
Proof.
  intros Hleaf Hnode. fix IH 1. intros [a|b ts].
  - apply Hleaf.
  - apply Hnode. induction ts as [|t ts IHts]; constructor; [apply IH|exact IHts].
Qed.

Lemma get_single (name value : str) :
  Fetch.sameName name "Content-Type" = true ->
  Fetch.get [(name, value)] "Content-Type" = Some value.
Proof.
  intros H. unfold Fetch.get, Fetch.valuesOf. cbn [filter fst]. rewrite H. reflexivity.
Qed.

(** The part of a nested body is split into its Content-Type and the body. *)
Lemma splitPart_node (b body : str) :
  boundaryOk b = true ->
  splitPart ("Content-Type: multipart/mixed; boundary=" ++ b ++ CRLF ++ CRLF ++ body)
  = Ok ([("Content-Type" : str, "multipart/mixed; boundary=" ++ b)], body).
Proof.
  intros H. destruct (multipart_value b H) as (Hv & Ht & Hcr).
  set (value := "multipart/mixed; boundary=" ++ b) in *.
  change ("Content-Type: multipart/mixed; boundary=" ++ b ++ CRLF ++ CRLF ++ body)
    with ("Content-Type" ++ ": " ++ value ++ CRLF ++ CRLF ++ body).
  assert (Hline : Forall (fun d => d <> CR) ("Content-Type" ++ ": " ++ value)).
  { apply (line_not_CR "Content-Type" value); [reflexivity|exact Hv]. }
  assert (Hsplit : JS.split ("Content-Type" ++ ": " ++ value) CRLF
                   = ["Content-Type" ++ ": " ++ value]).
  { apply JSFacts.split_none; [discriminate|]. apply JSFacts.find_free. exact Hline. }
  replace ("Content-Type" ++ ": " ++ value ++ CRLF ++ CRLF ++ body)
    with (("Content-Type" ++ ": " ++ value) ++ CRLF ++ CRLF ++ body)
    by (rewrite <- !app_assoc; reflexivity).
  rewrite splitPart_block.
  - rewrite Hsplit. cbn [map].
    rewrite (headerOfLine_line "Content-Type" value eq_refl Ht). reflexivity.
  - reflexivity.
  - rewrite (JSFacts.find_free_prefix _ _ CR [LF; CR; LF]) by exact Hline.
    rewrite JSFacts.find_here by (apply (JSFacts.startsWith_app (CRLF ++ CRLF))).
    simpl. f_equal. lia.
  - rewrite Hsplit. cbn [forallb].
    rewrite (validHeaderLine_line "Content-Type" value eq_refl Hv Ht). reflexivity.
Qed.

(** A part with that Content-Type is decoded as a body. *)
Lemma dispatch_node (rec : str -> Fetch.Headers -> result (list Fetch.Response))
      (b body : str) :
  dispatch rec (fun r => r)
           ([("Content-Type" : str, "multipart/mixed; boundary=" ++ b)], body)
  = rec body [("Content-Type" : str, "multipart/mixed; boundary=" ++ b)].
Proof.
  unfold dispatch. rewrite get_single by reflexivity.
  change ("multipart/mixed; boundary=" ++ b)
    with ("m"%char :: ("ultipart/mixed; boundary=" ++ b)) at 1 2 3.
  cbv iota.
  replace (JS.eqb ("m"%char :: "ultipart/mixed; boundary=" ++ b) "application/http")
    with false by reflexivity.
  change ("m"%char :: ("ultipart/mixed; boundary=" ++ b))
    with ("multipart/mixed" ++ ("; boundary=" ++ b)).
  rewrite JSFacts.startsWith_app. reflexivity.
Qed.

Lemma leaf_decodable (r : Reply) : acceptable r = true -> decodable (Leaf r).
Proof.
  intros H. unfold decodable. cbn [partText leaves map].
  exists ([("Content-Type" : str, "application/http" : str);
           ("Content-Transfer-Encoding" : str, "binary" : str)],
          httpText r ++ CRLF).
  split.
  - unfold replyPart.
    replace (("Content-Type: application/http" ++ CRLF
              ++ "Content-Transfer-Encoding: binary" ++ CRLF ++ CRLF ++ httpText r) ++ CRLF)
      with (("Content-Type: application/http" ++ CRLF ++ "Content-Transfer-Encoding: binary")
              ++ CRLF ++ CRLF ++ httpText r ++ CRLF)
      by (rewrite <- !app_assoc; reflexivity).
    rewrite splitPart_block; reflexivity.
  - unfold dispatch.
    replace (Fetch.get _ "Content-Type") with (Some ("application/http" : str))
      by reflexivity.
    cbn [list_ascii_of_string]. cbv iota.
    replace (JS.eqb _ _) with true by reflexivity.
    rewrite (parseHttpResponse_acceptable r H). reflexivity.
Qed.

(** Parts that can be decoded are decoded one after the other. *)
Lemma decode_parts (ts : list (mtree Reply)) :
  Forall decodable ts ->
  exists parts,
    mapSplitPart (map (fun t => partText replyPart t ++ CRLF) ts) = Ok parts
    /\ forall acc,
        decodeParts parseMultipartResponse parts acc
        = Ok (acc ++ map expected (flat_map leaves ts)).
Proof.
  induction ts as [|t ts IH]; intros H.
  - exists []. split; [reflexivity|]. intros acc. simpl. rewrite app_nil_r. reflexivity.
  - inversion H as [|? ? (part & Hs & Hd) Hrest]; subst.
    destruct (IH Hrest) as (parts & Hm & Hp).
    exists (part :: parts). split.
    + cbn [map mapSplitPart]. rewrite Hs. cbn [bind]. rewrite Hm. reflexivity.
    + intros acc. unfold decodeParts in *. cbn [processParts].
      rewrite Hd. cbn [bind]. rewrite Hp. cbn [flat_map].
      rewrite map_app, app_assoc. reflexivity.
Qed.

(** A body whose parts can be decoded is decoded into their replies, with or
    without a line break before the first delimiter, and whatever follows the
    closing delimiter. *)
Lemma decode_body (b : str) (ts : list (mtree Reply)) (pre tail : str)
      (hs : Fetch.Headers) :
  boundaryOk b = true ->
  Forall (fun t => JS.includes (partText replyPart t) ("--" ++ b) = false) ts ->
  Forall decodable ts ->
  Fetch.get hs "Content-Type" = Some ("multipart/mixed; boundary=" ++ b) ->
  pre = [] \/ pre = CRLF ->
  parseMultipartResponse (pre ++ partsText replyPart b ts ++ "--" ++ b ++ "--" ++ tail) hs
  = Ok (map expected (flat_map leaves ts)).
Proof.
  intros Hb Hinc Hdec Hget Hpre.
  rewrite DecoderFacts.parseMultipartResponse_unfold. unfold decodeWith.
  rewrite (getBoundary_ok hs b Hget Hb). cbn [bind].
  rewrite (bodyParts_text replyPart b ts pre tail Hb Hinc Hpre).
  destruct (decode_parts ts Hdec) as (parts & Hm & Hp).
  rewrite Hm. cbn [bind]. rewrite Hp. reflexivity.
Qed.

Lemma wellFormed_node (b : str) (ts : list (mtree Reply)) :
  wellFormed (Node b ts) = true ->
  boundaryOk b = true
  /\ Forall (fun t => JS.includes (partText replyPart t) ("--" ++ b) = false) ts
  /\ Forall (fun t => wellFormed t = true) ts.
Proof.
  cbn [wellFormed]. intros H. apply andb_true_iff in H as [Hb H].
  split; [exact Hb|]. rewrite forallb_forall in H.
  split; apply Forall_forall; intros t Ht; specialize (H t Ht);
    apply andb_true_iff in H as [H1 H2]; [apply negb_true_iff, H1|exact H2].
Qed.

(** Every well-formed tree can be decoded, whatever its depth. *)
Lemma wellFormed_decodable (t : mtree Reply) : wellFormed t = true -> decodable t.
Proof.
  induction t as [r|b ts IH] using mtree_induction; intros H.
  - apply leaf_decodable. exact H.
  - destruct (wellFormed_node b ts H) as (Hb & Hinc & Hwf).
    assert (Hdec : Forall decodable ts).
    { rewrite Forall_forall in *. intros t Ht. apply (IH t Ht), (Hwf t Ht). }
    unfold decodable. cbn [partText leaves].
    exists ([("Content-Type" : str, "multipart/mixed; boundary=" ++ b)],
            partsText replyPart b ts ++ "--" ++ b ++ "--" ++ CRLF).
    split.
    + rewrite <- (splitPart_node b _ Hb). f_equal.
      unfold partsText. rewrite <- !app_assoc. reflexivity.
    + rewrite dispatch_node.
      apply (decode_body b ts [] CRLF _ Hb Hinc Hdec); [|left; reflexivity].
      apply get_single. reflexivity.
Qed.

(** *** The outer body *)

Lemma topText_eq {A} (leaf : A -> str) (b : str) (ts : list (mtree A)) :
  topText leaf b ts
  = match ts with [] => CRLF | _ :: _ => [] end
      ++ partsText leaf b ts ++ "--" ++ b ++ "--".
Proof.
  unfold topText, partsText. destruct ts as [|t ts]; [reflexivity|].
  cbn [app].
  assert (E : forall l,
             map (fun t => "--" ++ b ++ CRLF ++ partText leaf t ++ CRLF) l
             = map (fun x => x ++ CRLF)
                   (map (fun t => "--" ++ b ++ CRLF ++ partText leaf t) l)).
  { intros l. rewrite map_map. apply map_ext. intros u.
    rewrite <- !app_assoc. reflexivity. }
  rewrite E. cbn [map]. rewrite (app_assoc _ CRLF), <- concat_lines.
  cbn [map concat]. rewrite <- !app_assoc. reflexivity.
Qed.

Lemma decode_top (b : str) (ts : list (mtree Reply)) (tail : str) (hs : Fetch.Headers) :
  wellFormed (Node b ts) = true ->
  Fetch.get hs "Content-Type" = Some ("multipart/mixed; boundary=" ++ b) ->
  parseMultipartResponse (topText replyPart b ts ++ tail) hs
  = Ok (map expected (flat_map leaves ts)).
Proof.
  intros H Hget. destruct (wellFormed_node b ts H) as (Hb & Hinc & Hwf).
  rewrite topText_eq, <- !app_assoc.
  apply decode_body; try assumption.
  - eapply Forall_impl; [|exact Hwf]. intros t. apply wellFormed_decodable.
  - destruct ts; [right|left]; reflexivity.
Qed.

(** *** Towers *)

Lemma boundaryOk_repeat (n : nat) : boundaryOk (repeat "x"%char n) = true.
Proof. induction n as [|n IH]; [reflexivity|]. simpl. exact IH. Qed.

Lemma tower_depth (r : Reply) (d : nat) : depth (tower r d) = d.
Proof. induction d as [|d IH]; [reflexivity|]. simpl. rewrite IH, Nat.max_0_r. reflexivity. Qed.

Lemma tower_wellFormed (r : Reply) (d : nat) :
  acceptable r = true -> wellFormed (tower r d) = true.
Proof.
  intros H. induction d as [|d IH]; [exact H|].
  cbn [tower wellFormed forallb]. rewrite boundaryOk_repeat, IH.
  rewrite JSFacts.includes_long; [reflexivity|].
  rewrite length_app, repeat_length. simpl. lia.
Qed.

Lemma tower_leaves (r : Reply) (d : nat) : leaves (tower r d) = [r].
Proof. induction d as [|d IH]; [reflexivity|]. simpl. rewrite IH. reflexivity. Qed.

End RepliesFacts.

(** ** Grouping into the envelope *)

Module GroupingFacts.
Import BatchRequest Grouping.




Lemma refs_app (x y : list entry) : refs (x ++ y) = refs x ++ refs y.
Proof. unfold refs. apply flat_map_app. Qed.

Lemma envelope_eq (this : t) :
  envelope this = map (resolve (arrays this)) (operations this).
Proof. reflexivity. Qed.

Lemma resolve_grow (arrays : list (list Request)) (x : list Request) (ops : list entry) :
  Forall (fun a => a < length arrays) (refs ops) ->
  map (resolve (arrays ++ [x])) ops = map (resolve arrays) ops.
Proof.
  induction ops as [|[r|a] ops IH]; simpl; intros H.
  - reflexivity.
  - f_equal. apply IH. exact H.
  - inversion H as [|? ? Ha Hrest]; subst.
    rewrite app_nth1 by exact Ha. f_equal. apply IH. exact Hrest.
Qed.

Lemma nth_pushAt_other (arrays : list (list Request)) (a b : nat) (r : Request) :
  a <> b -> nth b (pushAt arrays a r) [] = nth b arrays [].
Proof.
  revert a b; induction arrays as [|x arrays IH]; intros a b Hab.
  - destruct a; reflexivity.
  - destruct a as [|a], b as [|b]; simpl; try reflexivity.
    + contradiction.
    + apply IH. intros E. apply Hab. congruence.
Qed.

Lemma nth_pushAt_same (arrays : list (list Request)) (a : nat) (r : Request) :
  a < length arrays -> nth a (pushAt arrays a r) [] = nth a arrays [] ++ [r].
Proof.
  revert a; induction arrays as [|x arrays IH]; intros a Ha; simpl in Ha.
  - lia.
  - destruct a as [|a]; simpl; [reflexivity|]. apply IH. lia.
Qed.

Lemma length_pushAt (arrays : list (list Request)) (a : nat) (r : Request) :
  length (pushAt arrays a r) = length arrays.
Proof.
  revert a; induction arrays as [|x arrays IH]; intros [|a]; simpl;
    try reflexivity.
  f_equal. apply IH.
Qed.

Lemma resolve_pushAt (arrays : list (list Request)) (a : nat) (r : Request)
      (ops : list entry) :
  ~ In a (refs ops) ->
  map (resolve (pushAt arrays a r)) ops = map (resolve arrays) ops.
Proof.
  induction ops as [|[q|b] ops IH]; simpl; intros H.
  - reflexivity.
  - f_equal. apply IH. exact H.
  - rewrite nth_pushAt_other by (intros E; apply H; left; congruence).
    f_equal. apply IH. intros Hin. apply H. right. exact Hin.
Qed.

(** When [lastChangeset] is set, it is the last array allocated and the
    references before it are older. *)
Lemma inv_last (this : t) (a : nat) (ops : list entry) :
  refs (operations this) = seq 0 (length (arrays this)) ->
  operations this = ops ++ [Many a] ->
  length (arrays this) = S a /\ refs ops = seq 0 a.
Proof.
  intros Hrefs Hops. rewrite Hops, refs_app in Hrefs. simpl in Hrefs.
  destruct (length (arrays this)) as [|n] eqn:Hn.
  - simpl in Hrefs. destruct (refs ops); discriminate.
  - rewrite seq_S in Hrefs. simpl in Hrefs.
    apply app_inj_tail in Hrefs as [H1 H2]. subst a. split; [reflexivity|exact H1].
Qed.

Lemma seq_bound (n : nat) : Forall (fun a => a < n) (seq 0 n).
Proof. apply Forall_forall. intros a Ha. apply in_seq in Ha. lia. Qed.

(** What one [addRequest] does to the envelope. *)
Lemma addRequest_get (this : t) (r : Request) :
  isGet r = true ->
  inv this ->
  inv (addRequest this r)
  /\ lastChangeset (addRequest this r) = None
  /\ envelope (addRequest this r) = envelope this ++ [inl r].
Proof.
  intros Hget [Hrefs Hlast]. unfold addRequest. unfold isGet in Hget.
  rewrite Hget. repeat split; simpl.
  - rewrite refs_app. simpl. rewrite app_nil_r. exact Hrefs.
  - intros a Ha. discriminate.
  - rewrite !envelope_eq. cbn [operations arrays]. rewrite map_app. reflexivity.
Qed.

Lemma addRequest_open (this : t) (r : Request) :
  isGet r = false ->
  lastChangeset this = None ->
  inv this ->
  inv (addRequest this r)
  /\ lastChangeset (addRequest this r) <> None
  /\ envelope (addRequest this r) = envelope this ++ [inr [r]].
Proof.
  intros Hget Hnone [Hrefs Hlast]. unfold addRequest. unfold isGet in Hget.
  rewrite Hget, Hnone. simpl. repeat split; simpl.
  - rewrite refs_app, length_pushAt, length_app. simpl.
    rewrite Nat.add_1_r, seq_S, Hrefs. reflexivity.
  - intros a Ha. injection Ha as <-. eexists. reflexivity.
  - discriminate.
  - rewrite !envelope_eq. cbn [operations arrays]. rewrite map_app.
    cbn [map resolve].
    rewrite nth_pushAt_same by (rewrite length_app; simpl; lia).
    rewrite app_nth2 by lia. rewrite Nat.sub_diag. simpl.
    f_equal. rewrite resolve_pushAt.
    + apply resolve_grow. rewrite Hrefs. apply seq_bound.
    + rewrite Hrefs. intros Hin. apply in_seq in Hin. lia.
Qed.

Lemma addRequest_extend (this : t) (r : Request) (a : nat) :
  isGet r = false ->
  lastChangeset this = Some a ->
  inv this ->
  inv (addRequest this r)
  /\ lastChangeset (addRequest this r) <> None
  /\ exists env rs, envelope this = env ++ [inr rs]
                    /\ envelope (addRequest this r) = env ++ [inr (rs ++ [r])].
Proof.
  intros Hget Hsome [Hrefs Hlast]. unfold addRequest. unfold isGet in Hget.
  rewrite Hget, Hsome. simpl. rewrite Hsome.
  destruct (Hlast a Hsome) as [ops Hops].
  destruct (inv_last this a ops Hrefs Hops) as [Hlen Hold].
  repeat split; simpl.
  - rewrite length_pushAt. exact Hrefs.
  - intros b Hb. injection Hb as <-. exists ops. exact Hops.
  - discriminate.
  - exists (map (resolve (arrays this)) ops), (nth a (arrays this) []).
    rewrite !envelope_eq. cbn [operations arrays]. rewrite Hops, !map_app.
    cbn [map resolve]. split; [reflexivity|].
    rewrite nth_pushAt_same by lia. f_equal.
    apply resolve_pushAt. rewrite Hold. intros Hin. apply in_seq in Hin. lia.
Qed.


Lemma endsOpen_snoc (env : list (Request + list Request)) (x : Request + list Request) :
  endsOpen (env ++ [x]) = match x with inl _ => false | inr _ => true end.
Proof. unfold endsOpen. rewrite rev_app_distr. destruct x; reflexivity. Qed.

Lemma flatten_snoc (env : list (Request + list Request)) (x : Request + list Request) :
  flatten (env ++ [x]) = flatten env ++ match x with inl r => [r] | inr rs => rs end.
Proof. unfold flatten. rewrite flat_map_app. simpl. rewrite app_nil_r. reflexivity. Qed.

Lemma noAdjacent_snoc_inl (env : list (Request + list Request)) (r : Request) :
  noAdjacentChangesets (env ++ [inl r]) = noAdjacentChangesets env.
Proof.
  induction env as [|[q|rs] env IH]; simpl; try reflexivity; try exact IH.
  destruct env as [|[q|rs'] env]; simpl in *; try reflexivity; exact IH.
Qed.

Lemma noAdjacent_snoc_inr (env : list (Request + list Request)) (rs : list Request) :
  noAdjacentChangesets (env ++ [inr rs])
  = noAdjacentChangesets env && negb (endsOpen env).
Proof.
  induction env as [|[q|rs'] env IH]; simpl; try reflexivity.
  - rewrite IH. f_equal. unfold endsOpen. simpl.
    destruct (rev env) as [|[?|?] ?]; reflexivity.
  - destruct env as [|[q|rs2] env].
    + reflexivity.
    + simpl in *. rewrite IH. f_equal. unfold endsOpen. simpl.
      rewrite <- !app_assoc. simpl.
      destruct (rev env) as [|[?|?] ?]; reflexivity.
    + reflexivity.
Qed.

Lemma noAdjacent_relabel (env : list (Request + list Request)) (rs rs' : list Request) :
  noAdjacentChangesets (env ++ [inr rs]) = noAdjacentChangesets (env ++ [inr rs']).
Proof. rewrite !noAdjacent_snoc_inr. reflexivity. Qed.

Lemma isGet_false_itemOk (r : Request) : isGet r = false -> itemOk (inr [r]) = true.
Proof. intros H. simpl. rewrite H. reflexivity. Qed.


Lemma shaped_addRequest (ops : list Request) (this : t) (r : Request) :
  shaped ops this -> shaped (ops ++ [r]) (addRequest this r).
Proof.
  intros [Hinv Hord Hitems Hmax Hclosed].
  destruct (isGet r) eqn:Hget.
  - destruct (addRequest_get this r Hget Hinv) as (Hi & Hl & He).
    split.
    + exact Hi.
    + rewrite He, flatten_snoc, Hord. reflexivity.
    + rewrite He, forallb_app, Hitems. simpl. rewrite Hget. reflexivity.
    + rewrite He, noAdjacent_snoc_inl. exact Hmax.
    + intros _. rewrite He. apply endsOpen_snoc.
  - destruct (lastChangeset this) as [a|] eqn:Hlast.
    + destruct (addRequest_extend this r a Hget Hlast Hinv)
        as (Hi & Hl & env & rs & He0 & He).
      split.
      * exact Hi.
      * rewrite He, flatten_snoc. rewrite He0, flatten_snoc in Hord.
        rewrite <- Hord, app_assoc. reflexivity.
      * rewrite He, forallb_app. rewrite He0, forallb_app in Hitems.
        apply andb_true_iff in Hitems as [H1 H2]. rewrite H1. simpl in *.
        rewrite andb_true_r in H2. apply andb_true_iff in H2 as [H2 H3].
        rewrite length_app, forallb_app, H3. simpl. rewrite Hget.
        rewrite Nat.add_1_r. reflexivity.
      * rewrite He, (noAdjacent_relabel env _ rs), <- He0. exact Hmax.
      * intros Hn. contradiction.
    + destruct (addRequest_open this r Hget Hlast Hinv) as (Hi & Hl & He).
      split.
      * exact Hi.
      * rewrite He, flatten_snoc, Hord. reflexivity.
      * rewrite He, forallb_app, Hitems. simpl. rewrite Hget. reflexivity.
      * rewrite He, noAdjacent_snoc_inr, Hmax, (Hclosed eq_refl). reflexivity.
      * intros Hn. contradiction.
Qed.

Lemma shaped_constructor (endpoint auth : str) (ops : list Request) :
  shaped ops (constructor endpoint auth ops).
Proof.
  unfold constructor. induction ops as [|r ops IH] using rev_ind.
  - split; try reflexivity. split; [reflexivity|]. intros a Ha. discriminate.
  - rewrite fold_left_app. simpl. apply shaped_addRequest. exact IH.
Qed.

End GroupingFacts.

(** C1. The envelope that the constructor builds keeps the operations in the
    order given ([flatten] gives the list back), holds every GET on its own
    and every other operation in a changeset, each changeset being a
    non-empty run without GET, and never has two changesets in a row, so that
    the changesets are the maximal runs of operations other than GET.  For
    GET, POST, POST, GET, PATCH it is GET, changeset of the two POST, GET,
    changeset of the PATCH, whatever the addresses, headers and bodies. *)
Theorem constructor_groups_maximal_runs :
  (forall (endpoint auth : str) (ops : list Request),
      let env := BatchRequest.envelope (BatchRequest.constructor endpoint auth ops) in
      flatten env = ops
      /\ forallb itemOk env = true
      /\ noAdjacentChangesets env = true)
  /\ (forall (endpoint auth u1 u2 u3 u4 u5 : str)
             (h1 h2 h3 h4 h5 : list (str * str)) (b1 b2 b3 b4 b5 : option nat),
         let g1 := {| method := "GET"; url := u1; headers := h1; body := b1 |} in
         let p1 := {| method := "POST"; url := u2; headers := h2; body := b2 |} in
         let p2 := {| method := "POST"; url := u3; headers := h3; body := b3 |} in
         let g2 := {| method := "GET"; url := u4; headers := h4; body := b4 |} in
         let p3 := {| method := "PATCH"; url := u5; headers := h5; body := b5 |} in
         BatchRequest.envelope (BatchRequest.constructor endpoint auth [g1; p1; p2; g2; p3])
         = [inl g1; inr [p1; p2]; inl g2; inr [p3]]).
Proof.
  split.
  - intros endpoint auth ops env.
    destruct (GroupingFacts.shaped_constructor endpoint auth ops) as [_ H1 H2 H3 _].
    auto.
  - intros. reflexivity.
Qed.

(** ** Authorization *)

Module AuthorizationFacts.

(** Lower-casing gives a small letter exactly for that letter, small or
    capital. *)
Lemma lowerChar_sameLetter (c l : ascii) :
  97 <= nat_of_ascii l <= 122 ->
  JS.lowerChar c = l <-> Spec.sameLetter c l.
Proof.
  intros Hl. unfold JS.lowerChar, Spec.sameLetter.
  pose proof (nat_ascii_bounded c) as Hc.
  destruct ((65 <=? nat_of_ascii c) && (nat_of_ascii c <=? 90)) eqn:E1.
  - apply andb_true_iff in E1 as [A B]. apply Nat.leb_le in A, B. cbn [orb].
    split.
    + intros <-. right. split; [lia|]. rewrite nat_ascii_embedding by lia. reflexivity.
    + intros [->|[_ H]]; [lia|]. rewrite <- H. apply ascii_nat_embedding.
  - cbn [orb].
    assert (N : ~ 65 <= nat_of_ascii c <= 90).
    { intros [A B]. apply Nat.leb_le in A, B. rewrite A, B in E1. discriminate. }
    destruct ((192 <=? nat_of_ascii c) && (nat_of_ascii c <=? 222)
              && negb (nat_of_ascii c =? 215)) eqn:E2.
    + apply andb_true_iff in E2 as [E2 _]. apply andb_true_iff in E2 as [A B].
      apply Nat.leb_le in A, B. split.
      * intros <-. rewrite nat_ascii_embedding in Hl by lia. lia.
      * intros [->|[H _]]; [lia|contradiction].
    + split; [intros ->; left; reflexivity|].
      intros [->|[H _]]; [reflexivity|contradiction].
Qed.

Lemma toLowerCase_sameLetters (key target : str) :
  Forall (fun l => 97 <= nat_of_ascii l <= 122) target ->
  JS.toLowerCase key = target <-> Forall2 Spec.sameLetter key target.
Proof.
  revert target. induction key as [|c key IH]; intros [|l target] H.
  - split; constructor.
  - split; [discriminate|intros F; inversion F].
  - split; [discriminate|intros F; inversion F].
  - inversion H as [|? ? Hl Ht]; subst. cbn [JS.toLowerCase map]. split.
    + intros E. injection E as E1 E2. constructor.
      * apply lowerChar_sameLetter; assumption.
      * apply IH; assumption.
    + intros F. inversion F as [|? ? ? ? F1 F2]; subst. f_equal.
      * apply lowerChar_sameLetter; assumption.
      * apply IH; assumption.
Qed.

(** The test of [formatRequestHeaders] holds exactly of the names that are
    Authorization in some case of letters. *)
Lemma isAuthorization_spec (key : str) :
  Encoder.isAuthorization key = true <-> Spec.namesAuthorization key.
Proof.
  unfold Encoder.isAuthorization, Spec.namesAuthorization.
  rewrite JSFacts.eqb_eq. apply toLowerCase_sameLetters.
  repeat constructor; vm_compute; intros H; discriminate H.
Qed.

Lemma stripped_filter (hs : list (str * str)) :
  Spec.stripped hs (filter (fun e => negb (Encoder.isAuthorization (fst e))) hs).
Proof.
  induction hs as [|e hs IH]; [constructor|]. cbn [filter].
  destruct (Encoder.isAuthorization (fst e)) eqn:E; cbn [negb].
  - apply Spec.stripped_drop; [apply isAuthorization_spec, E|exact IH].
  - apply Spec.stripped_keep; [|exact IH].
    intros H. apply isAuthorization_spec in H. congruence.
Qed.

End AuthorizationFacts.

(** C3. A header is left out of the part of an operation exactly when its
    name is Authorization in some case of letters: the test of the code holds
    of these names and of no other.  The header lines that
    [formatRequestHeaders] gives are the other entries of the operation, all
    of them, in their order and as they are, and the part of an operation
    ([requestText]) has these lines after its request line.  In a batch
    that [toRequest] could encode the body is made of these parts, and the
    outer request has one Authorization header, which [get] gives: the value
    given to the [BatchRequest] (as [Headers] stores it, without white space
    around it). *)
Theorem authorization_only_on_envelope :
  (forall key, Encoder.isAuthorization key = true <-> Spec.namesAuthorization key)
  /\ (forall hs,
         BatchRequest.formatRequestHeaders hs
         = map Encoder.headerLine
               (filter (fun e => negb (Encoder.isAuthorization (fst e))) hs)
         /\ exists kept,
             Spec.stripped hs kept
             /\ BatchRequest.formatRequestHeaders hs = map Encoder.headerLine kept)
  /\ (forall (sigma : store) (r : Request),
         exists kept,
           Spec.stripped (headers r) kept
           /\ Encoder.requestText sigma r
              = JS.join CRLF
                  (["Content-Type: application/http" : str;
                    "Content-Transfer-Encoding: binary" : str;
                    [];
                    method r ++ " " ++ url r ++ " HTTP/1.1"]
                   ++ map (fun e => fst e ++ ": " ++ snd e) kept
                   ++ [[]; Encoder.bodyOf sigma r]))
  /\ (forall (this : BatchRequest.t) (random : nat -> str) (sigma sigma' : store)
             (w : WireRequest),
         BatchRequest.toRequest this random sigma = (Ok w, sigma') ->
         wireBody w
         = Multipart.topText (Encoder.requestText sigma) ("batch_" ++ random 0)
             (Encoder.envelopeTree random 1 (BatchRequest.envelope this))
         /\ filter (fun e => Fetch.sameName (fst e) "Authorization") (wireHeaders w)
            = [("Authorization" : str,
                Fetch.normalize (BatchRequest.authorizationHeader this))]
         /\ Fetch.get (wireHeaders w) "Authorization"
            = Some (Fetch.normalize (BatchRequest.authorizationHeader this))).
Proof.
  split; [exact AuthorizationFacts.isAuthorization_spec|]. split.
  { intros hs. split; [apply EncoderFacts.formatRequestHeaders_eq|].
    eexists. split; [apply AuthorizationFacts.stripped_filter|].
    apply EncoderFacts.formatRequestHeaders_eq. }
  split.
  { intros sigma r. eexists. split; [apply AuthorizationFacts.stripped_filter|].
    reflexivity. }
  intros this random sigma sigma' w H.
  destruct (EncoderFacts.toRequest_ok _ _ _ _ _ H) as (_ & _ & Hh & Hb & _).
  split; [exact Hb|]. rewrite Hh. split; reflexivity.
Qed.

Lemma authorization_only_on_envelope_witness :
  exists w,
    BatchRequest.toRequest Examples.batchMixed Examples.random Examples.sigma
    = (Ok w, snd (BatchRequest.toRequest Examples.batchMixed Examples.random Examples.sigma))
    /\ wireBody w
       = Multipart.topText (Encoder.requestText Examples.sigma)
           ("batch_" ++ Examples.random 0)
           [Leaf Examples.get1; Node ("changeset_" ++ Examples.random 1) [Leaf Examples.post2]]
    /\ Encoder.requestText Examples.sigma Examples.post2
       = JS.join CRLF
           ["Content-Type: application/http" : str;
            "Content-Transfer-Encoding: binary" : str;
            [];
            "POST https://host/fmi/odata/v4/db/contacts HTTP/1.1" : str;
            "content-type: application/json" : str;
            "x-authorization: kept" : str;
            [];
            "{}" : str]
    /\ JS.includes (wireBody w) "FMID inner" = false
    /\ JS.includes (wireBody w) "x-authorization: kept" = true
    /\ filter (fun e => Fetch.sameName (fst e) "Authorization") (wireHeaders w)
       = [("Authorization" : str, "FMID token" : str)]
    /\ Fetch.get (wireHeaders w) "authorization" = Some ("FMID token" : str).
Proof.
  eexists. split; [reflexivity|].
  pose proof (proj2 (proj2 (proj2 authorization_only_on_envelope))
                    Examples.batchMixed Examples.random Examples.sigma _ _ eq_refl)
    as (Hb & Hh & _).
  split; [exact Hb|]. split; [reflexivity|].
  split; [vm_compute; reflexivity|]. split; [vm_compute; reflexivity|].
  split; [exact Hh|reflexivity].
Defined.

(** ** The operations after the encoding *)

(** The body of an operation is not the same after the encoding: the stream
    of [post1] held two chunks and is empty and disturbed afterwards. *)
Lemma toRequest_consumes_body :
  In Examples.post1 (flatten (BatchRequest.envelope Examples.batch))
  /\ body Examples.post1 = Some 0
  /\ chunks (Examples.sigma 0) = ["{" : str; "}" : str]
  /\ snd (BatchRequest.toRequest Examples.batch Examples.random Examples.sigma) 0
     = drained
  /\ snd (BatchRequest.toRequest Examples.batch Examples.random Examples.sigma) 0
     <> Examples.sigma 0.
Proof.
  split; [right; left; reflexivity|]. split; [reflexivity|].
  split; [reflexivity|]. split; [reflexivity|].
  intros H. apply (f_equal disturbed) in H. discriminate H.
Qed.

(** C8, amended. [toRequest] reads the operations and writes none of their
    fields (the model holds method, address and headers as values); of the
    streams, a batch that could be encoded leaves the body of every operation
    read to its end, and every other stream as it was. *)
Theorem toRequest_drains_the_bodies :
  forall (this : BatchRequest.t) (random : nat -> str) (sigma sigma' : store)
         (w : WireRequest),
    BatchRequest.toRequest this random sigma = (Ok w, sigma') ->
    forall id,
      sigma' id
      = if existsb (Encoder.hasBody id) (flatten (BatchRequest.envelope this))
        then drained else sigma id.
Proof.
  intros this random sigma sigma' w H.
  apply (EncoderFacts.toRequest_ok _ _ _ _ _ H).
Qed.

Lemma toRequest_drains_the_bodies_witness :
  exists w,
    BatchRequest.toRequest Examples.batch Examples.random Examples.sigma
    = (Ok w, snd (BatchRequest.toRequest Examples.batch Examples.random Examples.sigma))
    /\ snd (BatchRequest.toRequest Examples.batch Examples.random Examples.sigma) 0
       = drained
    /\ snd (BatchRequest.toRequest Examples.batch Examples.random Examples.sigma) 1
       = Examples.sigma 1.
Proof.
  eexists. split; [reflexivity|]. split.
  - exact (toRequest_drains_the_bodies
             Examples.batch Examples.random Examples.sigma _ _ eq_refl 0).
  - exact (toRequest_drains_the_bodies
             Examples.batch Examples.random Examples.sigma _ _ eq_refl 1).
Defined.

(** ** [splitPart] *)

(** [splitPart] throws on a part of one code unit: the header name it reads
    is empty, and [Headers.append] refuses it. *)
Lemma splitPart_throws :
  BatchRequest.splitPart Examples.lonely = Throw TypeError.
Proof. reflexivity. Qed.

(** C10, amended. A part that starts with a line break has no headers and
    the rest as its body.  Any other part is cut at the first blank line, or,
    when it has none, loses its last code unit for the headers and its first
    three for the body; it is returned when [Headers.append] accepts every
    header line, and the call throws a [TypeError] otherwise. *)
Theorem splitPart_characterised :
  forall part : str,
    BatchRequest.splitPart part
    = if JS.startsWith part CRLF then Ok ([], skipn 2 part)
      else
        let '(rawHeaders, rawBody) :=
          match JS.find part (CRLF ++ CRLF) with
          | Some i => (firstn i part, skipn (i + 4) part)
          | None => (removelast part, skipn 3 part)
          end in
        if forallb Decoder.validHeaderLine (JS.split rawHeaders CRLF)
        then Ok (map Decoder.headerOfLine (JS.split rawHeaders CRLF), rawBody)
        else Throw TypeError.
Proof.
  intros part. destruct (JS.startsWith part CRLF) eqn:E.
  - apply DecoderFacts.splitPart_blank. exact E.
  - rewrite (DecoderFacts.splitPart_headers _ E). unfold Decoder.rawHeaderLines.
    destruct (JS.find part (CRLF ++ CRLF)) as [i|] eqn:F.
    + rewrite (JSFacts.indexOf_some _ _ _ F), JSFacts.slice_prefix.
      replace (Z.of_nat i + 4)%Z with (Z.of_nat (i + 4)) by lia.
      rewrite JSFacts.sliceFrom_nat. reflexivity.
    + rewrite (JSFacts.indexOf_none _ _ F), JSFacts.slice_minus_one.
      change (-1 + 4)%Z with (Z.of_nat 3).
      rewrite JSFacts.sliceFrom_nat. reflexivity.
Qed.

(** ** [parseHttpResponse] *)

(** The body of the response is trimmed at both ends: white space before it
    is not kept.  The status is not always the number of the first line: 65736
    is taken as 200.  And not every part gives a response: one whose first
    line says 204 makes [Response] throw. *)
Lemma parseHttpResponse_trims_the_start :
  (exists r,
      BatchRequest.parseHttpResponse Examples.spaced = Ok r
      /\ BatchRequest.splitPart
           (JS.sliceFrom Examples.spaced (JS.indexOf Examples.spaced CRLF + 2))
         = Ok ([], " x" : str)
      /\ Fetch.body r = ("x" : str)
      /\ Fetch.body r <> JS.trimEnd " x")
  /\ (exists r,
         BatchRequest.parseHttpResponse Examples.wrapped = Ok r
         /\ nth_error (JS.split (JS.slice Examples.wrapped 0
                                          (JS.indexOf Examples.wrapped CRLF)) " ") 1
            = Some ("65736" : str)
         /\ Fetch.status r = 200%Z)
  /\ BatchRequest.parseHttpResponse Examples.empty204 = Throw TypeError.
Proof.
  split; [|split].
  - eexists. split; [reflexivity|]. split; [reflexivity|]. split; [reflexivity|].
    discriminate.
  - eexists. split; [vm_compute; reflexivity|]. split; reflexivity.
  - vm_compute. reflexivity.
Qed.

Module StatusLineFacts.

Lemma digit_plain (c : ascii) :
  JS.isDigit c = true ->
  JS.isWhiteSpace c = false /\ Ascii.eqb c "-" = false /\ Ascii.eqb c "+" = false.
Proof.
  destruct c as [[] [] [] [] [] [] [] []]; intros H; try discriminate H;
    repeat split; reflexivity.
Qed.

Lemma takeDigits_all (ds : str) : forallb JS.isDigit ds = true -> JS.takeDigits ds = ds.
Proof.
  induction ds as [|c ds IH]; [reflexivity|]. cbn [forallb JS.takeDigits].
  intros H. apply andb_true_iff in H as [Hc H]. rewrite Hc, (IH H). reflexivity.
Qed.

Lemma digitsValue_from (ds : str) (acc : Z) :
  (0 <= acc)%Z ->
  (0 <= fold_left (fun a c => 10 * a + Z.of_nat (nat_of_ascii c - 48)) ds acc)%Z.
Proof.
  revert acc; induction ds as [|c ds IH]; intros acc H; [exact H|].
  cbn [fold_left]. apply IH. lia.
Qed.

Lemma digitsValue_nonneg (ds : str) : (0 <= JS.digitsValue ds)%Z.
Proof. apply digitsValue_from. lia. Qed.

(** [parseInt] on a word of digits, and the status that [Response] takes
    from it when a double holds its value. *)
Lemma parseInt_digits (ds : str) :
  ds <> [] -> forallb JS.isDigit ds = true ->
  JS.parseInt (Some ds)
  = match JS.toDouble (JS.digitsValue ds) with
    | Some v => JS.Int v
    | None => JS.Infinity false
    end.
Proof.
  intros Hne H. destruct ds as [|c ds]; [congruence|].
  pose proof H as H'. cbn [forallb] in H'. apply andb_true_iff in H' as [Hc _].
  destruct (digit_plain c Hc) as (Hw & Hm & Hp).
  unfold JS.parseInt. cbn [JS.trimStart]. rewrite Hw, Hm, Hp.
  rewrite (takeDigits_all _ H). reflexivity.
Qed.

Lemma status_of_digits (ds : str) :
  ds <> [] -> forallb JS.isDigit ds = true ->
  (JS.digitsValue ds < 2 ^ 53)%Z ->
  Fetch.toUnsignedShort (JS.parseInt (Some ds)) = (JS.digitsValue ds mod 65536)%Z.
Proof.
  intros Hne H Hv. rewrite (parseInt_digits ds Hne H). unfold JS.toDouble.
  replace (JS.digitsValue ds <? 2 ^ 53)%Z with true by (symmetry; apply Z.ltb_lt, Hv).
  cbn [Fetch.toUnsignedShort]. apply Z.rem_mod_nonneg; [apply digitsValue_nonneg|lia].
Qed.

End StatusLineFacts.

(** C7, amended. [parseHttpResponse] returns a response when [splitPart]
    returns, the status that [Response] takes is between 200 and 599 and none
    of 204, 205 and 304, and the status text is a reason phrase.  When it
    returns a response, its body is what [splitPart] finds after the first
    line, without the white space around it, at the start as at the end; its
    status text is made of the words of the first line after the second;
    and its status is the number that [parseInt] reads from the second word,
    as [Response] takes it: the remainder of the division by 65536 of that
    number, which is positive.  For a second word of digits whose value a
    double holds, this is the value of the digits modulo 65536. *)
Theorem parseHttpResponse_trims_both_ends :
  forall rawResponse : str,
    let firstBreakIndex := JS.indexOf rawResponse CRLF in
    let words := JS.split (JS.slice rawResponse 0 firstBreakIndex) " " in
    (forall r : Fetch.Response,
        BatchRequest.parseHttpResponse rawResponse = Ok r ->
        exists headers segment w1 w2,
          BatchRequest.splitPart (JS.sliceFrom rawResponse (firstBreakIndex + 2))
          = Ok (headers, segment)
          /\ segment = w1 ++ Fetch.body r ++ w2
          /\ StrProps.allWhiteSpace w1 /\ StrProps.allWhiteSpace w2
          /\ StrProps.trimmed (Fetch.body r)
          /\ Fetch.body r = JS.trim segment
          /\ Fetch.status r = Fetch.toUnsignedShort (JS.parseInt (nth_error words 1))
          /\ (exists v, JS.parseInt (nth_error words 1) = JS.Int v
                        /\ (0 < v)%Z /\ Fetch.status r = (v mod 65536)%Z)
          /\ (200 <= Fetch.status r <= 599)%Z
          /\ Fetch.isNullBodyStatus (Fetch.status r) = false
          /\ (forall digits,
                 nth_error words 1 = Some digits -> digits <> [] ->
                 forallb JS.isDigit digits = true ->
                 (JS.digitsValue digits < 2 ^ 53)%Z ->
                 Fetch.status r = (JS.digitsValue digits mod 65536)%Z)
          /\ Fetch.statusText r = JS.join " " (skipn 2 words))
    /\ (forall headers segment,
           BatchRequest.splitPart (JS.sliceFrom rawResponse (firstBreakIndex + 2))
           = Ok (headers, segment) ->
           let status := Fetch.toUnsignedShort (JS.parseInt (nth_error words 1)) in
           (200 <= status <= 599)%Z ->
           Fetch.isNullBodyStatus status = false ->
           Fetch.isReasonPhrase (JS.join " " (skipn 2 words)) = true ->
           exists r,
             BatchRequest.parseHttpResponse rawResponse = Ok r
             /\ Fetch.status r = status
             /\ Fetch.statusText r = JS.join " " (skipn 2 words)
             /\ Fetch.body r = JS.trim segment).
Proof.
  intros rawResponse firstBreakIndex words. split.
  - intros r H.
    unfold BatchRequest.parseHttpResponse in H.
    fold firstBreakIndex in H. fold words in H.
    destruct (BatchRequest.splitPart (JS.sliceFrom rawResponse (firstBreakIndex + 2)))
      as [[headers segment]|e]; [|discriminate].
    cbn [bind] in H. unfold Fetch.newResponse in H.
    set (st := Fetch.toUnsignedShort (JS.parseInt (nth_error words 1))) in *.
    destruct ((200 <=? st)%Z && (st <=? 599)%Z) eqn:R; [|discriminate].
    cbn [negb] in H.
    destruct (negb _); [discriminate|].
    destruct (Fetch.isNullBodyStatus st) eqn:N; [discriminate|].
    apply Ok_inj in H. subst r. cbn [Fetch.body Fetch.status Fetch.statusText].
    apply andb_true_iff in R as [R1 R2]. apply Z.leb_le in R1, R2.
    destruct (DecoderFacts.trim_spec segment) as (w1 & w2 & E & H1 & H2 & H3).
    exists headers, segment, w1, w2.
    split; [reflexivity|]. split; [exact E|]. split; [exact H1|]. split; [exact H2|].
    split; [exact H3|]. split; [reflexivity|]. split; [reflexivity|].
    split; [|split; [lia|split; [exact N|split; [|reflexivity]]]].
    + unfold st in *. destruct (JS.parseInt (nth_error words 1)) as [|v|neg];
        cbn [Fetch.toUnsignedShort] in *; try lia.
      exists v. split; [reflexivity|].
      assert (Hv : (0 < v)%Z).
      { destruct (Z.lt_trichotomy 0 v) as [Hp|[Hz|Hn]]; [exact Hp| |].
        - subst v. cbn in R1. lia.
        - pose proof (Z.rem_nonpos v 65536 ltac:(lia) ltac:(lia)). lia. }
      split; [exact Hv|]. apply Z.rem_mod_nonneg; lia.
    + intros digits Hw Hne Hd Hv. unfold st. rewrite Hw.
      apply StatusLineFacts.status_of_digits; assumption.
  - intros headers segment Hs status R N P.
    unfold BatchRequest.parseHttpResponse.
    fold firstBreakIndex. fold words. rewrite Hs. cbn [bind].
    unfold Fetch.newResponse. fold status.
    replace ((200 <=? status)%Z && (status <=? 599)%Z) with true
      by (symmetry; apply andb_true_iff; split; apply Z.leb_le; lia).
    rewrite P, N. cbn [negb]. eexists. split; [reflexivity|].
    split; [reflexivity|]. split; reflexivity.
Qed.

Lemma parseHttpResponse_trims_both_ends_witness :
  exists r,
    BatchRequest.parseHttpResponse Examples.spaced = Ok r
    /\ Fetch.body r = JS.trim " x"
    /\ Fetch.status r = 200%Z.
Proof.
  destruct (proj2 (parseHttpResponse_trims_both_ends Examples.spaced) [] " x" eq_refl)
    as (r & Hr & _); [vm_compute; split; discriminate|reflexivity|reflexivity|].
  exists r. split; [exact Hr|].
  destruct (proj1 (parseHttpResponse_trims_both_ends Examples.spaced) r Hr)
    as (headers & segment & w1 & w2 & Hs & _ & _ & _ & _ & Hb & _ & _ & _ & _ & Hst & _).
  apply Ok_inj in Hs. apply (f_equal snd) in Hs. cbn [snd] in Hs. subst segment.
  split; [exact Hb|].
  apply (Hst "200"); [reflexivity|discriminate|reflexivity|reflexivity].
Defined.

(** ** Failures of the decoder *)

Module FailureFacts.
Import BatchRequest Decoder.

Lemma getBoundary_throw (headers : Fetch.Headers) (e : exn) :
  getBoundary headers = Throw e -> formatError e.
Proof.
  unfold getBoundary, formatError.
  destruct (Fetch.get headers "Content-Type") as [[|c ct]|].
  - intros H. left. congruence.
  - destruct (List.find _ _) as [[|d part]|].
    + intros H. right. left. congruence.
    + destruct (nth_error _ 1); discriminate.
    + intros H. right. left. congruence.
  - intros H. left. congruence.
Qed.

Lemma appendHeaders_throw (h : Fetch.Headers) (lines : list str) (e : exn) :
  appendHeaders h lines = Throw e -> e = TypeError.
Proof.
  revert h; induction lines as [|l lines IH]; intros h H; [discriminate|].
  rewrite DecoderFacts.appendHeaders_cons in H.
  destruct (validHeaderLine l); [apply (IH _ H)|congruence].
Qed.

Lemma splitPart_throw (part : str) (e : exn) :
  splitPart part = Throw e -> e = TypeError.
Proof.
  unfold splitPart. destruct (JS.startsWith part CRLF); [discriminate|].
  destruct (appendHeaders _ _) as [h|e'] eqn:E; [discriminate|].
  cbn [bind]. intros H. apply appendHeaders_throw in E. congruence.
Qed.

Lemma mapSplitPart_throw (parts : list str) (e : exn) :
  mapSplitPart parts = Throw e -> e = TypeError.
Proof.
  induction parts as [|p parts IH]; [discriminate|].
  cbn [mapSplitPart]. destruct (splitPart p) as [x|e'] eqn:E; cbn [bind].
  - destruct (mapSplitPart parts) as [xs|e'']; cbn [bind]; [discriminate|].
    intros H. apply IH. congruence.
  - intros H. apply splitPart_throw in E. congruence.
Qed.

Lemma newResponse_throw (body : str) (headers : Fetch.Headers) (status : JS.number)
      (statusText : str) (e : exn) :
  Fetch.newResponse body headers status statusText = Throw e -> platformError e.
Proof.
  unfold Fetch.newResponse, Fetch.toUnsignedShort, platformError.
  destruct status; cbn [bind];
    repeat match goal with
           | |- context [if ?c then _ else _] => destruct c
           end; intros H; try discriminate H;
    injection H as <-; auto.
Qed.

Lemma parseHttpResponse_throw (rawResponse : str) (e : exn) :
  parseHttpResponse rawResponse = Throw e -> platformError e.
Proof.
  unfold parseHttpResponse.
  destruct (splitPart _) as [[h b]|e'] eqn:E; cbn [bind].
  - apply newResponse_throw.
  - intros H. apply splitPart_throw in E. left. congruence.
Qed.

(** With the parts before it read, the failure of a part is the failure of
    the loop. *)
Lemma decodeParts_first_failure
      (rec : str -> Fetch.Headers -> result (list Fetch.Response))
      (before after : list (Fetch.Headers * str)) (part : Fetch.Headers * str)
      (acc : list Fetch.Response) (e : exn) :
  Forall (fun p => exists rs, dispatch rec (fun r => r) p = Ok rs) before ->
  dispatch rec (fun r => r) part = Throw e ->
  decodeParts rec (before ++ part :: after) acc = Throw e.
Proof.
  revert acc; induction before as [|p before IH]; intros acc Hb Hp.
  - unfold decodeParts. cbn [app processParts]. rewrite Hp. reflexivity.
  - inversion Hb as [|? ? [rs Hrs] Hrest]; subst.
    unfold decodeParts in *. cbn [app processParts]. rewrite Hrs. cbn [bind].
    apply IH; assumption.
Qed.

Lemma decodeParts_throw (rec : str -> Fetch.Headers -> result (list Fetch.Response))
      (parts : list (Fetch.Headers * str)) (acc : list Fetch.Response) (e : exn) :
  (forall h b, In (h, b) parts ->
               forall e', rec b h = Throw e' -> formatError e' \/ platformError e') ->
  decodeParts rec parts acc = Throw e -> formatError e \/ platformError e.
Proof.
  revert acc; induction parts as [|[h b] parts IH]; intros acc Hrec H.
  - discriminate.
  - unfold decodeParts in *. cbn [processParts] in H.
    destruct (dispatch rec (fun r => r) (h, b)) as [rs|e'] eqn:E; cbn [bind] in H.
    + apply (IH _ (fun h' b' Hin => Hrec h' b' (or_intror Hin)) H).
    + assert (e' = e) by congruence. subst e'. clear H.
      unfold dispatch in E.
      destruct (Fetch.get h "Content-Type") as [[|c ct]|].
      * left. right. right. left. congruence.
      * destruct (JS.eqb (c :: ct) "application/http").
        -- destruct (parseHttpResponse b) as [r|e'] eqn:E'; cbn [bind] in E;
             [discriminate|].
           right. apply parseHttpResponse_throw in E'. congruence.
        -- destruct (JS.startsWith (c :: ct) "multipart/mixed").
           ++ apply (Hrec h b (or_introl eq_refl) e E).
           ++ left. right. right. right. exists (c :: ct). congruence.
      * left. right. right. left. congruence.
Qed.

(** Every failure is an error of the decoder or an exception of the
    platform. *)
Lemma parseMultipartResponse_throw (body : str) :
  forall (headers : Fetch.Headers) (e : exn),
    parseMultipartResponse body headers = Throw e ->
    formatError e \/ platformError e.
Proof.
  induction body as [body IH] using JSFacts.str_len_ind. intros headers e.
  rewrite DecoderFacts.parseMultipartResponse_unfold. unfold decodeWith.
  destruct (getBoundary headers) as [boundary|e'] eqn:Eb; cbn [bind].
  - destruct (mapSplitPart (bodyParts body boundary)) as [parts|e'] eqn:Ep; cbn [bind].
    + apply decodeParts_throw. intros h b Hin e' H.
      apply (IH b (DecoderFacts.parts_shorter _ _ _ _ _ Ep Hin) h e' H).
    + intros H. right. left. apply mapSplitPart_throw in Ep. congruence.
  - intros H. left. apply getBoundary_throw in Eb. congruence.
Qed.

End FailureFacts.




(** ** The round trip *)

Module RoundTripFacts.
Import BatchRequest Encoder Multipart Replies.

Lemma leaves_envelopeTree (random : nat -> str) (k : nat)
      (items : list (Request + list Request)) :
  flat_map leaves (envelopeTree random k items) = flatten items.
Proof.
  revert k; induction items as [|[r|rs] items IH]; intros k.
  - reflexivity.
  - cbn [envelopeTree flat_map flatten leaves]. f_equal. apply IH.
  - cbn [envelopeTree flat_map flatten leaves]. f_equal; [|apply IH].
    induction rs as [|r rs IHrs]; [reflexivity|]. simpl. f_equal. exact IHrs.
Qed.

(** Trees of one shape have as many leaves. *)
Lemma shape_leaves {A B} (t : mtree A) :
  forall u : mtree B, shape t = shape u -> length (leaves t) = length (leaves u).
Proof.
  induction t as [a|b ts IH] using RepliesFacts.mtree_induction; intros [c|c us] H;
    try discriminate H.
  - reflexivity.
  - cbn [shape] in H. injection H as _ H. cbn [leaves].
    revert us H. induction ts as [|t ts IHts]; intros [|u us] H; try discriminate H.
    + reflexivity.
    + cbn [map] in H. injection H as H1 H2.
      inversion IH as [|? ? Ht Hts]; subst. cbn [flat_map].
      rewrite !length_app, (Ht u H1), (IHts Hts us H2). reflexivity.
Qed.

Lemma shapes_leaves {A B} (ts : list (mtree A)) (us : list (mtree B)) :
  map shape ts = map shape us ->
  length (flat_map leaves ts) = length (flat_map leaves us).
Proof.
  intros H.
  apply (shape_leaves (Node [] ts) (Node [] us)). cbn [shape]. rewrite H. reflexivity.
Qed.

(** *** Boundaries of hexadecimal digits *)

Lemma hex_boundaryChar (c : ascii) : isHexDigit c = true -> boundaryChar c = true.
Proof.
  destruct c as [[] [] [] [] [] [] [] []]; intros H; try reflexivity; discriminate H.
Qed.

Lemma hex_not_dash (c : ascii) : isHexDigit c = true -> c <> "-"%char.
Proof. intros H E. subst c. discriminate H. Qed.

Lemma hex_not_CR (c : ascii) : isHexDigit c = true -> c <> CR.
Proof. intros H E. subst c. discriminate H. Qed.

Lemma hex_not_LF (c : ascii) : isHexDigit c = true -> c <> LF.
Proof. intros H E. subst c. discriminate H. Qed.

Lemma hex_free (X : str) (d : ascii) :
  isHex X = true -> isHexDigit d = false -> Forall (fun c => c <> d) X.
Proof.
  intros H Hd. apply Forall_forall. intros c Hc E. subst c.
  unfold isHex in H. rewrite forallb_forall in H. rewrite (H d Hc) in Hd. discriminate.
Qed.

Lemma hex_boundaryOk (lit X : str) :
  boundaryOk lit = true -> isHex X = true -> boundaryOk (lit ++ X) = true.
Proof.
  intros Hl HX. unfold boundaryOk. rewrite forallb_app. fold (boundaryOk lit).
  rewrite Hl. simpl. apply forallb_forall. intros c Hc.
  apply hex_boundaryChar. unfold isHex in HX. rewrite forallb_forall in HX.
  apply HX. exact Hc.
Qed.

(** The delimiter of the batch is in no line made of a text without "-b", the
    boundary of a changeset and a text without "-b". *)
Lemma changeset_line_clear (a X Y z : str) :
  isHex Y = true ->
  JS.includes a "-b" = false -> JS.includes z "-b" = false ->
  JS.includes (a ++ "_" ++ Y ++ z) ("--" ++ "batch_" ++ X) = false.
Proof.
  intros HY Ha Hz.
  change (("--" : str) ++ "batch_" ++ X) with (("-" : str) ++ "-b" ++ ("atch_" ++ X)).
  apply JSFacts.includes_infix.
  change (a ++ "_" ++ Y ++ z) with (a ++ "_"%char :: (Y ++ z)).
  apply JSFacts.includes_split_char.
  - intros [E|[E|[]]]; discriminate E.
  - exact Ha.
  - apply (JSFacts.includes_free_prefix Y z "-"%char "b"); [|exact Hz].
    apply hex_free; [exact HY|reflexivity].
Qed.

Lemma batch_delimiter_lines (X : str) :
  isHex X = true ->
  ("--" : str) ++ "batch_" ++ X <> []
  /\ ~ In CR (("--" : str) ++ "batch_" ++ X)
  /\ ~ In LF (("--" : str) ++ "batch_" ++ X).
Proof.
  intros HX. split; [discriminate|]. split; intros H.
  - repeat (destruct H as [H|H]; [discriminate H|]).
    pose proof (hex_free X CR HX eq_refl) as F. rewrite Forall_forall in F.
    exact (F CR H eq_refl).
  - repeat (destruct H as [H|H]; [discriminate H|]).
    pose proof (hex_free X LF HX eq_refl) as F. rewrite Forall_forall in F.
    exact (F LF H eq_refl).
Qed.

End RoundTripFacts.

(** The response to the batch of one GET, of the same structure as the
    batch, is not always read back with its status and body.  A body " x" is
    decoded as "x".  A reply of status 204, 205 or 304, one of status 100 or
    600, one whose status text holds a control character and one with a
    header name that [Headers] refuses make the call throw.  A body that
    holds the closing delimiter is cut there. *)
Lemma round_trip_trims_the_body :
  let boundary : str := "batch_" ++ Examples.random 0 in
  let decode (r : Replies.Reply) :=
    BatchRequest.parseMultipartResponse
      (Multipart.topText Replies.replyPart boundary [Leaf r])
      (Examples.responseHeaders boundary) in
  (exists w,
      fst (BatchRequest.toRequest Examples.batchGet Examples.random Examples.sigma) = Ok w)
  /\ map Multipart.shape [Leaf Examples.spacedReply]
     = map Multipart.shape
           (Encoder.envelopeTree Examples.random 1
                                 (BatchRequest.envelope Examples.batchGet))
  /\ (exists response,
         decode Examples.spacedReply = Ok [response]
         /\ Fetch.status response = 200%Z
         /\ Replies.replyBody Examples.spacedReply = (" x" : str)
         /\ Fetch.body response = ("x" : str)
         /\ Fetch.body response <> Replies.replyBody Examples.spacedReply)
  /\ decode Examples.noContentReply = Throw TypeError
  /\ decode Examples.resetReply = Throw TypeError
  /\ decode Examples.notModifiedReply = Throw TypeError
  /\ decode Examples.continueReply = Throw RangeError
  /\ decode Examples.beyondReply = Throw RangeError
  /\ decode Examples.controlReply = Throw TypeError
  /\ decode Examples.badHeaderReply = Throw TypeError
  /\ (exists response,
         decode Examples.delimiterReply = Ok [response]
         /\ Fetch.body response = ("a" : str)
         /\ Fetch.body response <> Replies.replyBody Examples.delimiterReply).
Proof.
  split; [eexists; reflexivity|]. split; [reflexivity|]. split.
  { eexists. split; [vm_compute; reflexivity|].
    split; [reflexivity|]. split; [reflexivity|]. split; [reflexivity|]. discriminate. }
  do 7 (split; [vm_compute; reflexivity|]).
  eexists. split; [vm_compute; reflexivity|]. split; [reflexivity|]. discriminate.
Qed.

(** C2, amended. A batch that [toRequest] could encode has the body of its
    envelope tree.  A response of the same shape (the same nesting and the
    same boundaries), laid out as the batch is, with any text after its
    closing delimiter and with the Content-Type of the batch in its
    headers, is decoded into one response per operation, in the
    order of the operations, each with the status and the body of its reply,
    when the response is well formed and no white space starts or ends the
    body of a reply.  Well formed ([Replies.wellFormed]) is: no part holds
    the delimiter of a body that encloses it; every reply has a status
    between 200 and 599 other than 204, 205 and 304, a status text that is
    a reason phrase, and headers with names and values that [Headers]
    accepts; and the boundaries hold no white space, NUL, semicolon or
    equals sign, as the hexadecimal ones that [toRequest] draws. *)
Theorem batch_round_trip :
  forall (endpoint auth : str) (ops : list Request) (random : nat -> str)
         (sigma sigma' : store) (w : WireRequest)
         (replies : list (mtree Replies.Reply)) (tail : str) (hs : Fetch.Headers),
    let this := BatchRequest.constructor endpoint auth ops in
    let boundary : str := "batch_" ++ random 0 in
    let tree := Encoder.envelopeTree random 1 (BatchRequest.envelope this) in
    BatchRequest.toRequest this random sigma = (Ok w, sigma') ->
    map Multipart.shape replies = map Multipart.shape tree ->
    Replies.wellFormed (Node boundary replies) = true ->
    Forall (fun r => Replies.isTrimmed (Replies.replyBody r) = true)
           (flat_map Multipart.leaves replies) ->
    Fetch.get hs "Content-Type" = Some ("multipart/mixed; boundary=" ++ boundary) ->
    wireBody w = Multipart.topText (Encoder.requestText sigma) boundary tree
    /\ flat_map Multipart.leaves tree = ops
    /\ exists responses,
        BatchRequest.parseMultipartResponse
          (Multipart.topText Replies.replyPart boundary replies ++ tail) hs
        = Ok responses
        /\ length responses = length ops
        /\ map Fetch.status responses
           = map (fun r => Z.of_nat (Replies.replyStatus r))
                 (flat_map Multipart.leaves replies)
        /\ map Fetch.body responses
           = map Replies.replyBody (flat_map Multipart.leaves replies).
Proof.
  intros endpoint auth ops random sigma sigma' w replies tail hs this boundary tree
         Hreq Hshape Hwf Htrim Hget.
  destruct (EncoderFacts.toRequest_ok _ _ _ _ _ Hreq) as (_ & _ & _ & Hbody & _).
  assert (Hops : flat_map Multipart.leaves tree = ops).
  { unfold tree. rewrite RoundTripFacts.leaves_envelopeTree.
    apply (GroupingFacts.shaped_constructor endpoint auth ops). }
  split; [exact Hbody|]. split; [exact Hops|].
  exists (map Replies.expected (flat_map Multipart.leaves replies)). split.
  - apply RepliesFacts.decode_top; assumption.
  - rewrite length_map, !map_map. split; [|split; [reflexivity|]].
    + rewrite (RoundTripFacts.shapes_leaves replies tree Hshape), Hops. reflexivity.
    + apply map_ext_in. intros r Hin. rewrite Forall_forall in Htrim.
      cbn [Replies.expected Fetch.body].
      apply JSFacts.trim_id, RepliesFacts.isTrimmed_trimmed, (Htrim r Hin).
Qed.

Lemma batch_round_trip_witness :
  let boundary : str := "batch_" ++ Examples.random 0 in
  exists w,
    BatchRequest.toRequest Examples.batch Examples.random Examples.sigma
    = (Ok w, snd (BatchRequest.toRequest Examples.batch Examples.random Examples.sigma))
    /\ map Multipart.shape Examples.replies
       = map Multipart.shape
             (Encoder.envelopeTree Examples.random 1
                                   (BatchRequest.envelope Examples.batch))
    /\ Replies.wellFormed (Node boundary Examples.replies) = true
    /\ Forall (fun r => Replies.isTrimmed (Replies.replyBody r) = true)
              (flat_map Multipart.leaves Examples.replies)
    /\ exists responses,
        BatchRequest.parseMultipartResponse
          (Multipart.topText Replies.replyPart boundary Examples.replies ++ CRLF)
          (Examples.responseHeaders boundary)
        = Ok responses
        /\ length responses = 2
        /\ map Fetch.status responses = [200%Z; 201%Z]
        /\ map Fetch.body responses = [("{}" : str); ("done" : str)].
Proof.
  assert (Htrim :
            Forall (fun r => Replies.isTrimmed (Replies.replyBody r) = true)
                   (flat_map Multipart.leaves Examples.replies)).
  { repeat constructor. }
  eexists. split; [reflexivity|]. split; [reflexivity|]. split; [reflexivity|].
  split; [exact Htrim|].
  exact (proj2 (proj2 (batch_round_trip
                         Examples.endpoint Examples.authorization
                         [Examples.get1; Examples.post1]
                         Examples.random Examples.sigma _ _
                         Examples.replies CRLF
                         (Examples.responseHeaders ("batch_" ++ Examples.random 0))
                         eq_refl eq_refl eq_refl Htrim eq_refl))).
Defined.

(** ** Nested bodies *)

Module NestingFacts.
Import BatchRequest Decoder.

(** A part whose content type starts with multipart/mixed goes to the
    recursive call. *)
Lemma dispatch_mixed (rec : str -> Fetch.Headers -> result (list Fetch.Response))
      (h : Fetch.Headers) (b contentType : str) :
  Fetch.get h "Content-Type" = Some contentType ->
  JS.startsWith contentType "multipart/mixed" = true ->
  dispatch rec (fun r => r) (h, b) = rec b h.
Proof.
  intros Hget Hmixed. unfold dispatch. rewrite Hget.
  destruct contentType as [|c ct]; [discriminate Hmixed|].
  destruct (JS.eqb (c :: ct) "application/http") eqn:E.
  - apply JSFacts.eqb_eq in E. rewrite E in Hmixed. discriminate Hmixed.
  - rewrite Hmixed. reflexivity.
Qed.

(** The responses of the parts are put one after the other. *)
Lemma decodeParts_ok (rec : str -> Fetch.Headers -> result (list Fetch.Response))
      (parts : list (Fetch.Headers * str)) (results : list (list Fetch.Response))
      (acc : list Fetch.Response) :
  Forall2 (fun part responses => dispatch rec (fun r => r) part = Ok responses)
          parts results ->
  decodeParts rec parts acc = Ok (acc ++ concat results).
Proof.
  intros H. revert acc. induction H as [|p rs parts results Hp _ IH]; intros acc.
  - cbn [concat]. rewrite app_nil_r. reflexivity.
  - unfold decodeParts in *. cbn [processParts]. rewrite Hp. cbn [bind].
    rewrite IH. cbn [concat]. rewrite app_assoc. reflexivity.
Qed.

End NestingFacts.

(** A nested body laid out well is not always decoded: a changeset whose
    reply has the status 204, 205 or 304, the status 100 or 600, a status
    text with a control character or a header name that [Headers] refuses
    makes [Response] or [Headers] throw, and the call with it, while the
    same body with a reply of status 201 gives its two responses. *)
Lemma nested_reply_refused :
  let decode (r : Replies.Reply) :=
    BatchRequest.parseMultipartResponse
      (Multipart.topText Replies.replyPart "batch_0" (Examples.nestedWith r))
      (Examples.responseHeaders "batch_0") in
  (exists first second,
      decode Examples.created201 = Ok [first; second]
      /\ Fetch.status first = 200%Z /\ Fetch.status second = 201%Z)
  /\ JS.includes
       (Multipart.partText Replies.replyPart
          (Node "changeset_1" [Leaf Examples.noContentReply]))
       "--batch_0" = false
  /\ JS.includes (Replies.replyPart Examples.noContentReply) "--changeset_1" = false
  /\ decode Examples.noContentReply = Throw TypeError
  /\ decode Examples.resetReply = Throw TypeError
  /\ decode Examples.notModifiedReply = Throw TypeError
  /\ decode Examples.continueReply = Throw RangeError
  /\ decode Examples.beyondReply = Throw RangeError
  /\ decode Examples.controlReply = Throw TypeError
  /\ decode Examples.badHeaderReply = Throw TypeError.
Proof.
  split; [do 2 eexists; split; [vm_compute; reflexivity|split; reflexivity]|].
  do 8 (split; [vm_compute; reflexivity|]). vm_compute. reflexivity.
Qed.

(** C5, amended. [parseMultipartResponse] is its own recursion: every part
    whose Content-Type starts with multipart/mixed is decoded by
    [parseMultipartResponse] itself, and when every part gives its
    responses the call gives them one after the other, in the order of the
    parts, those of a nested part in its place.  A well-formed body whose
    replies [Response] accepts, nested to any depth, is decoded into its
    replies in the order of the text ([Replies.expected]: each with its
    status, its status text, its headers, with the content type of a text
    when it has none, and its body, the header values and the body without
    the white space around them), whatever follows the closing delimiter;
    and bodies of every depth are decoded so.  Well formed ([Replies.wellFormed]) is: no part holds
    the delimiter of a body that encloses it and the boundaries hold no
    white space, NUL, semicolon or equals sign; a reply that [Response]
    accepts has a status between 200 and 599 other than 204, 205 and 304, a
    status text that is a reason phrase, and headers with names and values
    that [Headers] accepts. *)
Theorem nested_bodies_decode_in_wire_order :
  (forall (b : str) (ts : list (mtree Replies.Reply)) (tail : str) (hs : Fetch.Headers),
      Replies.wellFormed (Node b ts) = true ->
      Fetch.get hs "Content-Type" = Some ("multipart/mixed; boundary=" ++ b) ->
      BatchRequest.parseMultipartResponse
        (Multipart.topText Replies.replyPart b ts ++ tail) hs
      = Ok (map Replies.expected (Multipart.leaves (Node b ts))))
  /\ (forall body headers,
         BatchRequest.parseMultipartResponse body headers
         = Decoder.decodeWith BatchRequest.parseMultipartResponse body headers)
  /\ (forall h b contentType,
         Fetch.get h "Content-Type" = Some contentType ->
         JS.startsWith contentType "multipart/mixed" = true ->
         Decoder.dispatch BatchRequest.parseMultipartResponse (fun r => r) (h, b)
         = BatchRequest.parseMultipartResponse b h)
  /\ (forall body headers boundary parts results,
         BatchRequest.getBoundary headers = Ok boundary ->
         BatchRequest.mapSplitPart (Decoder.bodyParts body boundary) = Ok parts ->
         Forall2 (fun part responses =>
                    Decoder.dispatch BatchRequest.parseMultipartResponse
                                     (fun r => r) part = Ok responses)
                 parts results ->
         BatchRequest.parseMultipartResponse body headers = Ok (concat results))
  /\ (forall d, exists b ts hs,
         Multipart.depth (Node b ts) = S d
         /\ Replies.wellFormed (Node b ts) = true
         /\ BatchRequest.parseMultipartResponse
              (Multipart.topText Replies.replyPart b ts) hs
            = Ok (map Replies.expected (Multipart.leaves (Node b ts)))).
Proof.
  split; [|split; [|split; [|split]]].
  - intros b ts tail hs H Hget. apply RepliesFacts.decode_top; assumption.
  - apply DecoderFacts.parseMultipartResponse_unfold.
  - intros h b contentType Hget Hmixed. apply NestingFacts.dispatch_mixed with contentType;
      assumption.
  - intros body headers boundary parts results Hb Hparts Hres.
    rewrite DecoderFacts.parseMultipartResponse_unfold. unfold Decoder.decodeWith.
    rewrite Hb. cbn [bind]. rewrite Hparts. cbn [bind].
    apply (NestingFacts.decodeParts_ok _ parts results [] Hres).
  - intros d.
    pose proof (RepliesFacts.tower_wellFormed Examples.ok200 (S d) eq_refl) as Hwf.
    pose proof (RepliesFacts.tower_depth Examples.ok200 (S d)) as Hd.
    cbn [Replies.tower] in Hwf, Hd.
    set (b := repeat "x"%char _) in *.
    exists b, [Replies.tower Examples.ok200 d], (Examples.responseHeaders b).
    split; [exact Hd|]. split; [exact Hwf|].
    rewrite <- (app_nil_r (Multipart.topText _ _ _)).
    apply RepliesFacts.decode_top; [exact Hwf|reflexivity].
Qed.

Lemma nested_bodies_decode_in_wire_order_witness :
  Replies.wellFormed (Node "batch_0" Examples.nested) = true
  /\ Multipart.depth (Node "batch_0" Examples.nested) = 4
  /\ BatchRequest.parseMultipartResponse
       (Multipart.topText Replies.replyPart "batch_0" Examples.nested ++ CRLF)
       (Examples.responseHeaders "batch_0")
     = Ok (map Replies.expected
               [Examples.ok200; Examples.created201; Examples.notFound404;
                Examples.ok200]).
Proof.
  split; [reflexivity|]. split; [reflexivity|].
  exact (proj1 nested_bodies_decode_in_wire_order
               "batch_0" Examples.nested CRLF (Examples.responseHeaders "batch_0")
               eq_refl eq_refl).
Defined.

(** ** The identity token manager *)

Module ClarisIdFacts.
Import ClarisId.

(** While an acquisition is pending, callers only join those that wait. *)
Lemma run_calls_pending (m : t) (st : stage) (callers : list (nat * Z)) :
  idTokenPromise m = Some st ->
  run m (map call callers)
  = {| userSession := userSession m; userPool := userPool m;
       idTokenPromise := Some st;
       waiting := waiting m ++ map fst callers; settled := settled m;
       authenticateCalls := authenticateCalls m;
       refreshCalls := refreshCalls m; fetchCalls := fetchCalls m |}.
Proof.
  revert m; induction callers as [|c callers IH]; intros m H.
  - simpl. rewrite app_nil_r. destruct m; simpl in *. subst. reflexivity.
  - unfold run in *. cbn [map fold_left]. rewrite (IH (step m (call c))).
    + unfold call at 1 2 3 4 5 6 7. cbn [step]. rewrite H. cbn.
      rewrite <- app_assoc. reflexivity.
    + unfold call. cbn [step]. rewrite H. reflexivity.
Qed.

(** The three courses of a first acquisition. *)
Lemma run_fetched (pool : UserPool) (c0 : nat) (now0 : Z) (early late : list (nat * Z))
      (outcome : result Session) :
  run (fresh None)
      (map call ((c0, now0) :: early) ++ [ConfigFetched (Some pool)]
       ++ map call late ++ [Authenticated outcome])
  = {| userSession := match outcome with Ok s => Some s | Throw _ => None end;
       userPool := Some pool; idTokenPromise := None; waiting := [];
       settled := map (fun c => (c, answer outcome))
                      (c0 :: map fst early ++ map fst late);
       authenticateCalls := 1; refreshCalls := 0; fetchCalls := 1 |}.
Proof.
  unfold run. cbn [map app fold_left]. rewrite fold_left_app.
  change (fold_left step (map call early) (step (fresh None) (call (c0, now0))))
    with (run (step (fresh None) (call (c0, now0))) (map call early)).
  rewrite (run_calls_pending _ FetchingConfig) by reflexivity.
  cbn [fold_left]. rewrite fold_left_app.
  match goal with
  | |- context [fold_left step (map call late) ?m] =>
      change (fold_left step (map call late) m) with (run m (map call late));
      rewrite (run_calls_pending m Authenticating) by reflexivity
  end.
  destruct outcome as [s|e]; reflexivity.
Qed.

Lemma run_kept (pool : UserPool) (c0 : nat) (now0 : Z) (others : list (nat * Z))
      (outcome : result Session) :
  run (fresh (Some pool)) (map call ((c0, now0) :: others) ++ [Authenticated outcome])
  = {| userSession := match outcome with Ok s => Some s | Throw _ => None end;
       userPool := Some pool; idTokenPromise := None; waiting := [];
       settled := map (fun c => (c, answer outcome)) (c0 :: map fst others);
       authenticateCalls := 1; refreshCalls := 0; fetchCalls := 0 |}.
Proof.
  unfold run. cbn [map app fold_left]. rewrite fold_left_app.
  change (fold_left step (map call others) (step (fresh (Some pool)) (call (c0, now0))))
    with (run (step (fresh (Some pool)) (call (c0, now0))) (map call others)).
  rewrite (run_calls_pending _ Authenticating) by reflexivity.
  destruct outcome as [s|e]; reflexivity.
Qed.

Lemma run_failed (c0 : nat) (now0 : Z) (others : list (nat * Z)) :
  run (fresh None) (map call ((c0, now0) :: others) ++ [ConfigFetched None])
  = {| userSession := None; userPool := None; idTokenPromise := None; waiting := [];
       settled := map (fun c => (c, Throw (Error "Could not fetch user pool config")))
                      (c0 :: map fst others);
       authenticateCalls := 0; refreshCalls := 0; fetchCalls := 1 |}.
Proof.
  unfold run. cbn [map app fold_left]. rewrite fold_left_app.
  change (fold_left step (map call others) (step (fresh None) (call (c0, now0))))
    with (run (step (fresh None) (call (c0, now0))) (map call others)).
  rewrite (run_calls_pending _ FetchingConfig) by reflexivity.
  reflexivity.
Qed.

Lemma run_app (m : t) (evs1 evs2 : list event) :
  run m (evs1 ++ evs2) = run (run m evs1) evs2.
Proof. apply fold_left_app. Qed.

(** A step keeps what was answered before it. *)
Lemma step_settled (m : t) (ev : event) :
  settled (step m ev) = settled m ++ delivered m ev.
Proof.
  assert (Hskip : forall new : list (nat * result str),
             skipn (length (settled m)) (settled m ++ new) = new).
  { intros new. rewrite skipn_app, skipn_all, Nat.sub_diag. reflexivity. }
  assert (Hauth : forall callers, settled (authenticate m callers) = settled m).
  { intros callers. unfold authenticate. destruct (userPool m); reflexivity. }
  assert (Hsame : forall m', settled m' = settled m ->
                             settled m' = settled m ++ skipn (length (settled m)) (settled m')).
  { intros m' ->. rewrite skipn_all, app_nil_r. reflexivity. }
  unfold delivered.
  destruct ev as [c now|config|outcome|outcome]; cbn [step].
  - destruct (idTokenPromise m); [apply Hsame; reflexivity|].
    destruct (userSession m) as [s|].
    + destruct (now <? expiry s)%Z; cbn [settled]; [|apply Hsame; reflexivity].
      rewrite Hskip. reflexivity.
    + apply Hsame, Hauth.
  - destruct (idTokenPromise m) as [[| |]|]; try (apply Hsame; reflexivity).
    destruct config as [pool|]; [apply Hsame; reflexivity|].
    cbn [settle settled]. rewrite Hskip. reflexivity.
  - destruct (idTokenPromise m) as [[| |]|]; try (apply Hsame; reflexivity).
    destruct outcome as [s|e]; [|apply Hsame, Hauth].
    cbn [settle settled]. rewrite Hskip. reflexivity.
  - destruct (idTokenPromise m) as [[| |]|]; try (apply Hsame; reflexivity).
    destruct outcome as [s|e]; cbn [settle settled]; rewrite Hskip; reflexivity.
Qed.

(** A header that a step answers is the header of the session that the step
    leaves. *)
Lemma step_delivered (m : t) (ev : event) (caller : nat) (h : str) :
  In (caller, Ok h) (delivered m ev) ->
  exists s, userSession (step m ev) = Some s /\ h = "FMID " ++ idToken s.
Proof.
  assert (Hskip : forall new : list (nat * result str),
             skipn (length (settled m)) (settled m ++ new) = new).
  { intros new. rewrite skipn_app, skipn_all, Nat.sub_diag. reflexivity. }
  assert (Hauth : forall callers, settled (authenticate m callers) = settled m).
  { intros callers. unfold authenticate. destruct (userPool m); reflexivity. }
  assert (Hnone : forall m', settled m' = settled m ->
                             ~ In (caller, Ok h) (skipn (length (settled m)) (settled m'))).
  { intros m' ->. rewrite skipn_all. intros []. }
  assert (Hsettle : forall session answer,
             In (caller, Ok h)
                (skipn (length (settled m)) (settled (settle m session answer))) ->
             answer = Ok h).
  { intros session answer H. cbn [settle settled] in H. rewrite Hskip in H.
    apply in_map_iff in H as (c & E & _). congruence. }
  unfold delivered.
  destruct ev as [c now|config|outcome|outcome]; cbn [step].
  - destruct (idTokenPromise m); [intros H; apply Hnone in H as []; reflexivity|].
    destruct (userSession m) as [s|] eqn:Es.
    + destruct (now <? expiry s)%Z; cbn [settled userSession].
      * rewrite Hskip. intros [H|[]]. exists s. split; [reflexivity|].
        unfold header in H. congruence.
      * intros H. apply Hnone in H as []. reflexivity.
    + intros H. apply Hnone in H as []. apply Hauth.
  - destruct (idTokenPromise m) as [[| |]|];
      try (intros H; apply Hnone in H as []; reflexivity).
    destruct config as [pool|]; [intros H; apply Hnone in H as []; reflexivity|].
    intros H. apply Hsettle in H. discriminate H.
  - destruct (idTokenPromise m) as [[| |]|];
      try (intros H; apply Hnone in H as []; reflexivity).
    destruct outcome as [s|e].
    + intros H. apply Hsettle in H. exists s. split; [reflexivity|].
      unfold header in H. congruence.
    + intros H. apply Hnone in H as []. apply Hauth.
  - destruct (idTokenPromise m) as [[| |]|];
      try (intros H; apply Hnone in H as []; reflexivity).
    destruct outcome as [s|e].
    + intros H. apply Hsettle in H. exists s. split; [reflexivity|].
      unfold header in H. congruence.
    + intros H. apply Hsettle in H. discriminate H.
Qed.

(** Every answer of a run was given by one of its steps. *)
Lemma run_settled (m : t) (evs : list event) (a : nat * result str) :
  In a (settled (run m evs)) ->
  In a (settled m)
  \/ exists before ev after,
      evs = before ++ ev :: after /\ In a (delivered (run m before) ev).
Proof.
  induction evs as [|ev evs IH] using rev_ind; [intros H; left; exact H|].
  rewrite run_app. cbn [run fold_left]. fold (run m evs).
  rewrite step_settled. intros H. apply in_app_iff in H as [H|H].
  - destruct (IH H) as [H0|(before & ev' & after & E & H')]; [left; exact H0|].
    right. exists before, ev', (after ++ [ev]). split; [|exact H'].
    rewrite E, <- app_assoc. reflexivity.
  - right. exists evs, ev, []. split; [reflexivity|exact H].
Qed.

End ClarisIdFacts.

(** When the configuration cannot be fetched, the provider is not asked to
    authenticate at all: two callers, a failed fetch, no call. *)
Lemma failed_fetch_never_authenticates :
  let m := ClarisId.run (ClarisId.fresh None)
             [ClarisId.GetAuthorizationHeader 1 0; ClarisId.GetAuthorizationHeader 2 0;
              ClarisId.ConfigFetched None] in
  ClarisId.authenticateCalls m = 0
  /\ ClarisId.authenticateCalls m <> 1
  /\ ClarisId.idTokenPromise m = None
  /\ ClarisId.settled m
     = [(1, Throw (Error "Could not fetch user pool config"));
        (2, Throw (Error "Could not fetch user pool config"))].
Proof.
  split; [reflexivity|]. split; [discriminate|]. split; reflexivity.
Qed.

(** C6, amended. Callers that ask for the header of a manager without
    session while an acquisition is pending share it.  When the remote
    configuration is fetched, or was kept from before, the provider is asked
    to authenticate once, whatever the number of callers and whether they
    came before or after the configuration; when its fetch fails, the
    provider is not asked.  In each case the handle is cleared when the
    acquisition settles, with a token or with a failure, and every caller is
    answered with its outcome. *)
Theorem concurrent_callers_share_one_acquisition :
  forall (pool : ClarisId.UserPool) (first : nat * Z) (early late : list (nat * Z))
         (outcome : result ClarisId.Session),
    let callers := first :: early ++ late in
    let fetched :=
      ClarisId.run (ClarisId.fresh None)
        (map ClarisId.call (first :: early) ++ [ClarisId.ConfigFetched (Some pool)]
         ++ map ClarisId.call late ++ [ClarisId.Authenticated outcome]) in
    let kept :=
      ClarisId.run (ClarisId.fresh (Some pool))
        (map ClarisId.call callers ++ [ClarisId.Authenticated outcome]) in
    let failed :=
      ClarisId.run (ClarisId.fresh None)
        (map ClarisId.call callers ++ [ClarisId.ConfigFetched None]) in
    (ClarisId.authenticateCalls fetched = 1
     /\ ClarisId.fetchCalls fetched = 1
     /\ ClarisId.idTokenPromise fetched = None
     /\ ClarisId.settled fetched
        = map (fun c => (fst c, ClarisId.answer outcome)) callers)
    /\ (ClarisId.authenticateCalls kept = 1
        /\ ClarisId.fetchCalls kept = 0
        /\ ClarisId.idTokenPromise kept = None
        /\ ClarisId.settled kept
           = map (fun c => (fst c, ClarisId.answer outcome)) callers)
    /\ (ClarisId.authenticateCalls failed = 0
        /\ ClarisId.idTokenPromise failed = None
        /\ ClarisId.settled failed
           = map (fun c => (fst c, Throw (Error "Could not fetch user pool config")))
                 callers).
Proof.
  intros pool [c0 now0] early late outcome callers fetched kept failed.
  unfold fetched, kept, failed, callers.
  rewrite ClarisIdFacts.run_fetched, ClarisIdFacts.run_kept, ClarisIdFacts.run_failed.
  cbn [ClarisId.authenticateCalls ClarisId.fetchCalls ClarisId.idTokenPromise
       ClarisId.settled].
  cbn [map fst]. rewrite <- !map_app, !map_map.
  repeat split; reflexivity.
Qed.

(** C9. Every header that a call is answered is the text FMID, a space, and
    the identity token of the session that the manager holds at that
    moment.  A step keeps the answers given before it; a header among those
    that it gives, to a first call or to a later one, is that text for the
    session that the manager holds after the step; and every header that the
    callers of a manager were answered, from its creation on, was given by
    one of the steps. *)
Theorem header_is_FMID_and_identity_token :
  (forall (m : ClarisId.t) (ev : ClarisId.event),
      ClarisId.settled (ClarisId.step m ev)
      = ClarisId.settled m ++ ClarisId.delivered m ev
      /\ forall (caller : nat) (h : str),
          In (caller, Ok h) (ClarisId.delivered m ev) ->
          exists s,
            ClarisId.userSession (ClarisId.step m ev) = Some s
            /\ h = "FMID " ++ ClarisId.idToken s)
  /\ (forall (pool : option ClarisId.UserPool) (evs : list ClarisId.event)
             (caller : nat) (h : str),
         In (caller, Ok h) (ClarisId.settled (ClarisId.run (ClarisId.fresh pool) evs)) ->
         exists before ev after s,
           evs = before ++ ev :: after
           /\ In (caller, Ok h)
                 (ClarisId.delivered (ClarisId.run (ClarisId.fresh pool) before) ev)
           /\ ClarisId.userSession
                (ClarisId.step (ClarisId.run (ClarisId.fresh pool) before) ev) = Some s
           /\ h = "FMID " ++ ClarisId.idToken s).
Proof.
  split.
  - intros m ev. split; [apply ClarisIdFacts.step_settled|].
    intros caller h. apply ClarisIdFacts.step_delivered.
  - intros pool evs caller h H.
    destruct (ClarisIdFacts.run_settled _ _ _ H) as [[]|(before & ev & after & E & Hin)].
    destruct (ClarisIdFacts.step_delivered _ _ _ _ Hin) as (s & Hs & Hh).
    exists before, ev, after, s. auto.
Qed.

Lemma header_is_FMID_and_identity_token_witness :
  let again := ClarisId.GetAuthorizationHeader 1 10 in
  ClarisId.settled Examples.authenticated = [(1, Ok ("FMID idToken.eyJ9" : str))]
  /\ ClarisId.settled (ClarisId.step Examples.authenticated again)
     = [(1, Ok ("FMID idToken.eyJ9" : str)); (1, Ok ("FMID idToken.eyJ9" : str))]
  /\ In (1, Ok ("FMID idToken.eyJ9" : str)) (ClarisId.delivered Examples.authenticated again)
  /\ exists s,
      ClarisId.userSession (ClarisId.step Examples.authenticated again) = Some s
      /\ ("FMID idToken.eyJ9" : str) = "FMID " ++ ClarisId.idToken s.
Proof.
  assert (H : In (1, Ok ("FMID idToken.eyJ9" : str))
                 (ClarisId.delivered Examples.authenticated
                                     (ClarisId.GetAuthorizationHeader 1 10)))
    by (left; reflexivity).
  split; [reflexivity|]. split; [reflexivity|]. split; [exact H|].
  exact (proj2 (proj1 header_is_FMID_and_identity_token
                      Examples.authenticated (ClarisId.GetAuthorizationHeader 1 10))
               1 "FMID idToken.eyJ9" H).
Defined.

(** * Further properties of the codec *)

Module MoreJSFacts.

Lemma find_occurs (s p : str) (n : nat) :
  JS.startsWith (skipn n s) p = true -> exists i, JS.find s p = Some i.
Proof.
  intros H. destruct (JS.find s p) as [i|] eqn:E; [exists i; reflexivity|].
  rewrite (JSFacts.find_none s p n E) in H. discriminate.
Qed.

(** The first occurrence of [p] in a text that has [p] after [x] depends on
    nothing that follows that [p]. *)
Lemma find_cut (x p y : str) :
  exists i, i + length p <= length (x ++ p)
            /\ JS.find (x ++ p) p = Some i
            /\ JS.find (x ++ p ++ y) p = Some i.
Proof.
  destruct (find_occurs (x ++ p) p (length x)) as [i E].
  { rewrite <- (Nat.add_0_r (length x)), RepliesFacts.skipn_exact.
    cbn [skipn]. rewrite <- (app_nil_r p) at 1. apply JSFacts.startsWith_app. }
  exists i. split; [apply (JSFacts.find_spec _ _ _ E)|]. split; [exact E|].
  rewrite app_assoc. apply JSFacts.find_app_found. exact E.
Qed.

Lemma includes_firstn (s p : str) (i : nat) :
  JS.includes s p = false -> JS.includes (firstn i s) p = false.
Proof.
  intros H. unfold JS.includes.
  destruct (JS.find (firstn i s) p) as [j|] eqn:E; [|reflexivity].
  apply JSFacts.find_spec in E as (E & L & _).
  apply (JSFacts.startsWith_true_app _ (skipn i s)) in E.
  assert (S : skipn j s = skipn j (firstn i s) ++ skipn i s).
  { rewrite <- (firstn_skipn i s) at 1. rewrite skipn_app.
    replace (j - length (firstn i s)) with 0 by lia. reflexivity. }
  rewrite <- S, (JSFacts.includes_false s p j H) in E. discriminate.
Qed.

(** Cut at a code unit that the pieces do not hold, a joined text gives the
    pieces back. *)
Lemma split_join_char (c : ascii) (x : str) (xs : list str) :
  Forall (Forall (fun d => d <> c)) (x :: xs) ->
  JS.split (JS.join [c] (x :: xs)) [c] = x :: xs.
Proof.
  assert (Hc : [c] <> []) by discriminate.
  revert x; induction xs as [|y xs IH]; intros x H.
  - cbn [JS.join]. apply (JSFacts.split_none [c] Hc).
    apply JSFacts.find_free. inversion H; assumption.
  - inversion H as [|? ? Hx Hrest]; subst.
    rewrite (JSFacts.join_cons [c]) by discriminate.
    rewrite (JSFacts.split_app [c] Hc).
    + f_equal. apply IH. exact Hrest.
    + rewrite (JSFacts.find_free_prefix x _ c []) by exact Hx.
      rewrite JSFacts.find_here by apply JSFacts.startsWith_app.
      cbn [option_map]. f_equal. lia.
Qed.

Lemma join_nonempty (sep x : str) (l : list str) :
  In x l -> x <> [] -> JS.join sep l <> [].
Proof.
  induction l as [|y l IH]; intros Hin Hx; [destruct Hin|].
  destruct l as [|z l].
  - destruct Hin as [->|[]]. exact Hx.
  - rewrite (JSFacts.join_cons sep) by discriminate.
    destruct Hin as [->|Hin].
    + destruct x; [congruence|discriminate].
    + intros E. apply app_eq_nil in E as [_ E]. apply app_eq_nil in E as [_ E].
      exact (IH Hin Hx E).
Qed.

Lemma whitespace_not (c d : ascii) :
  JS.isWhiteSpace c = true -> JS.isWhiteSpace d = false -> c <> d.
Proof. intros H1 H2 E. subst d. congruence. Qed.

End MoreJSFacts.

Module BoundaryFacts.
Import StrProps BatchRequest Replies.

(** [getBoundary] once a parameter that starts with boundary= is found. *)
Lemma getBoundary_found (hs : Fetch.Headers) (contentType boundaryPart : str) :
  Fetch.get hs "Content-Type" = Some contentType ->
  contentType <> [] ->
  List.find (fun part => JS.startsWith part "boundary=")
            (map JS.trim (JS.split contentType ";")) = Some boundaryPart ->
  boundaryPart <> [] ->
  getBoundary hs = match nth_error (JS.split boundaryPart "=") 1 with
                   | Some boundary => Ok boundary
                   | None => Ok ("undefined" : str)
                   end.
Proof.
  intros Hget Hne Hfind Hpart. unfold getBoundary. rewrite Hget.
  destruct contentType as [|c ct]; [congruence|]. rewrite Hfind.
  destruct boundaryPart as [|d part]; [congruence|]. reflexivity.
Qed.

Lemma find_first {A} (f : A -> bool) (before after : list A) (x : A) :
  Forall (fun y => f y = false) before -> f x = true ->
  List.find f (before ++ x :: after) = Some x.
Proof.
  intros H Hx. induction H as [|y before Hy _ IH]; cbn [app List.find].
  - rewrite Hx. reflexivity.
  - rewrite Hy. exact IH.
Qed.

Lemma boundary_trimmed (v : str) :
  forallb (fun c => negb (JS.isWhiteSpace c)) v = true ->
  trimmed ("boundary=" ++ v).
Proof.
  intros H. apply RepliesFacts.trimmed_app; [discriminate| |exact H].
  apply RepliesFacts.isTrimmed_trimmed. reflexivity.
Qed.

Lemma whitespace_free (w : str) (d : ascii) :
  allWhiteSpace w -> JS.isWhiteSpace d = false -> Forall (fun c => c <> d) w.
Proof.
  intros H Hd. eapply Forall_impl; [|exact H]. intros c Hc.
  apply (MoreJSFacts.whitespace_not c d Hc Hd).
Qed.

(** The words of a parameter: its name, its value, and what follows a second
    equals sign. *)
Lemma split_parameter (x : str) :
  Forall (fun d => d <> "="%char) x ->
  nth_error (JS.split ("boundary=" ++ x) "=") 1 = Some x
  /\ forall y, nth_error (JS.split ("boundary=" ++ x ++ "=" ++ y) "=") 1 = Some x.
Proof.
  intros Hx. split; [|intros y].
  - change ("boundary=" ++ x) with ("boundary" ++ "=" ++ x).
    rewrite JSFacts.split_app; [|discriminate|].
    + rewrite JSFacts.split_none; [reflexivity|discriminate|].
      apply JSFacts.find_free. exact Hx.
    + apply (JSFacts.find_app_found "boundary=" x "=" 8). reflexivity.
  - change ("boundary=" ++ x ++ "=" ++ y) with ("boundary" ++ "=" ++ (x ++ "=" ++ y)).
    rewrite JSFacts.split_app; [|discriminate|].
    + rewrite JSFacts.split_app; [reflexivity|discriminate|].
      rewrite (JSFacts.find_free_prefix x _ "="%char []) by exact Hx.
      rewrite JSFacts.find_here by reflexivity. cbn [option_map]. f_equal. lia.
    + apply (JSFacts.find_app_found "boundary=" (x ++ "=" ++ y) "=" 8). reflexivity.
Qed.

End BoundaryFacts.

(** ** The boundary of a response *)

(** X1. [getBoundary] finds the boundary among the parameters of the
    Content-Type wherever it stands, with or without white space around it:
    the first parameter that starts with boundary= once trimmed gives the
    boundary, a text without white space, semicolon or equals sign. *)
Theorem getBoundary_finds_the_parameter :
  forall (hs : Fetch.Headers) (before after : list str) (w1 w2 b : str),
    Fetch.get hs "Content-Type"
    = Some (JS.join ";" (before ++ (w1 ++ ("boundary=" ++ b) ++ w2) :: after)) ->
    Forall (fun x => Forall (fun d => d <> ";"%char) x
                     /\ JS.startsWith (JS.trim x) "boundary=" = false) before ->
    Forall (Forall (fun d => d <> ";"%char)) after ->
    StrProps.allWhiteSpace w1 -> StrProps.allWhiteSpace w2 ->
    Replies.boundaryOk b = true ->
    BatchRequest.getBoundary hs = Ok b.
Proof.
  intros hs before after w1 w2 b Hget Hbefore Hafter Hw1 Hw2 Hb.
  destruct (RepliesFacts.boundaryOk_parts b Hb) as (_ & _ & Hsemi & Heq & Hws & _).
  set (mid := w1 ++ ("boundary=" ++ b) ++ w2) in *.
  assert (Hmid : Forall (fun d => d <> ";"%char) mid).
  { unfold mid. apply Forall_app. split.
    - apply BoundaryFacts.whitespace_free; [exact Hw1|reflexivity].
    - apply Forall_app. split.
      + apply Forall_app. split; [repeat constructor; discriminate|exact Hsemi].
      + apply BoundaryFacts.whitespace_free; [exact Hw2|reflexivity]. }
  assert (Hpieces : Forall (Forall (fun d => d <> ";"%char)) (before ++ mid :: after)).
  { apply Forall_app. split.
    - eapply Forall_impl; [|exact Hbefore]. intros x [Hx _]. exact Hx.
    - constructor; assumption. }
  assert (Hsplit : JS.split (JS.join ";" (before ++ mid :: after)) ";"
                   = before ++ mid :: after).
  { destruct (before ++ mid :: after) as [|x xs] eqn:E.
    - destruct before; discriminate E.
    - apply (MoreJSFacts.split_join_char ";"%char x xs Hpieces). }
  assert (Htrim : JS.trim mid = "boundary=" ++ b).
  { unfold mid. apply JSFacts.trim_pad; try assumption.
    apply BoundaryFacts.boundary_trimmed. exact Hws. }
  rewrite (BoundaryFacts.getBoundary_found hs _ ("boundary=" ++ b) Hget).
  - rewrite (proj1 (BoundaryFacts.split_parameter b Heq)). reflexivity.
  - apply (MoreJSFacts.join_nonempty ";" mid).
    + apply in_app_iff. right. left. reflexivity.
    + unfold mid. intros E. apply app_eq_nil in E as [_ E].
      apply app_eq_nil in E as [E _]. discriminate E.
  - rewrite Hsplit, map_app. cbn [map]. rewrite Htrim.
    apply BoundaryFacts.find_first.
    + apply Forall_map. eapply Forall_impl; [|exact Hbefore].
      intros x [_ Hx]. exact Hx.
    + apply JSFacts.startsWith_app.
  - discriminate.
Qed.

Lemma getBoundary_finds_the_parameter_witness :
  BatchRequest.getBoundary
    [("Content-Type" : str, "multipart/mixed; charset=utf-8;boundary=abc ; x=y" : str)]
  = Ok ("abc" : str).
Proof.
  apply (getBoundary_finds_the_parameter
           _ ["multipart/mixed" : str; " charset=utf-8" : str] [" x=y" : str]
           [] " " "abc").
  - reflexivity.
  - repeat constructor; discriminate.
  - repeat constructor; discriminate.
  - constructor.
  - repeat constructor.
  - reflexivity.
Defined.

(** X2. [getBoundary] keeps of the boundary what precedes its first equals
    sign: [boundaryPart.split("=")] cuts at every equals sign and the second
    word is returned. *)
Theorem getBoundary_stops_at_equals_sign :
  forall (hs : Fetch.Headers) (x y : str),
    Fetch.get hs "Content-Type"
    = Some ("multipart/mixed; boundary=" ++ x ++ "=" ++ y) ->
    Replies.boundaryOk x = true ->
    Forall (fun d => d <> ";"%char) y ->
    forallb (fun c => negb (JS.isWhiteSpace c)) y = true ->
    BatchRequest.getBoundary hs = Ok x.
Proof.
  intros hs x y Hget Hx Hsemi Hws.
  destruct (RepliesFacts.boundaryOk_parts x Hx) as (_ & _ & Hxsemi & Hxeq & Hxws & _).
  set (part := "boundary=" ++ x ++ "=" ++ y).
  assert (Hpart : Forall (fun d => d <> ";"%char) (" " ++ part)).
  { unfold part. repeat (apply Forall_app; split);
      try assumption; repeat constructor; discriminate. }
  assert (Hsplit : JS.split ("multipart/mixed; boundary=" ++ x ++ "=" ++ y) ";"
                   = ["multipart/mixed" : str; " " ++ part]).
  { apply (MoreJSFacts.split_join_char ";"%char "multipart/mixed" [" " ++ part]).
    constructor; [repeat constructor; discriminate|]. constructor; [exact Hpart|constructor]. }
  assert (Htrim : JS.trim (" " ++ part) = part).
  { rewrite <- (app_nil_r part) at 1. apply JSFacts.trim_pad.
    - repeat constructor.
    - constructor.
    - unfold part. apply BoundaryFacts.boundary_trimmed.
      rewrite forallb_app, Hxws. cbn [andb app forallb]. exact Hws. }
  rewrite (BoundaryFacts.getBoundary_found hs _ part Hget).
  - unfold part. rewrite (proj2 (BoundaryFacts.split_parameter x Hxeq) y).
    reflexivity.
  - discriminate.
  - rewrite Hsplit. cbn [map]. rewrite Htrim. cbn [List.find].
    replace (JS.startsWith (JS.trim "multipart/mixed") "boundary=") with false
      by reflexivity.
    unfold part. rewrite JSFacts.startsWith_app. reflexivity.
  - discriminate.
Qed.

Lemma getBoundary_stops_at_equals_sign_witness :
  BatchRequest.getBoundary
    [("Content-Type" : str, "multipart/mixed; boundary=YWJj=ZGVm" : str)]
  = Ok ("YWJj" : str).
Proof.
  apply (getBoundary_stops_at_equals_sign _ "YWJj" "ZGVm").
  - reflexivity.
  - reflexivity.
  - repeat constructor; discriminate.
  - reflexivity.
Defined.

(** ** The framing of a response *)

Module FramingFacts.
Import BatchRequest Decoder Replies.

(** The call with the boundary read: the parts are split, then decoded. *)
Lemma parseMultipartResponse_parts (body : str) (hs : Fetch.Headers) (b : str) :
  getBoundary hs = Ok b ->
  parseMultipartResponse body hs
  = let* parts := mapSplitPart (bodyParts body b) in
    decodeParts parseMultipartResponse parts [].
Proof.
  intros H. rewrite DecoderFacts.parseMultipartResponse_unfold. unfold decodeWith.
  rewrite H. reflexivity.
Qed.

(** The parts of a body do not depend on what follows the first closing
    delimiter. *)
Lemma bodyParts_cut (x y b : str) :
  bodyParts (x ++ ("--" ++ b ++ "--") ++ y) b
  = bodyParts (x ++ ("--" ++ b ++ "--")) b.
Proof.
  destruct (MoreJSFacts.find_cut x ("--" ++ b ++ "--") y) as (i & L & E1 & E2).
  unfold bodyParts.
  rewrite (JSFacts.indexOf_some _ _ _ E1), (JSFacts.indexOf_some _ _ _ E2).
  replace (Z.of_nat i >=? 0)%Z with true by (symmetry; apply Z.geb_le; lia).
  rewrite !JSFacts.slice_prefix. f_equal. f_equal.
  rewrite (app_assoc x), firstn_app.
  replace (i - length (x ++ "--" ++ b ++ "--")) with 0 by lia.
  cbn [firstn]. apply app_nil_r.
Qed.

(** A body without delimiter line has no parts. *)
Lemma bodyParts_none (body b : str) :
  JS.includes body ("--" ++ b ++ CRLF) = false -> bodyParts body b = [].
Proof.
  intros H. unfold bodyParts.
  set (trimmedBody := if (_ >=? 0)%Z then _ else _).
  assert (T : JS.includes trimmedBody ("--" ++ b ++ CRLF) = false).
  { unfold trimmedBody. destruct (_ >=? 0)%Z; [|exact H].
    destruct (JS.find body ("--" ++ b ++ "--")) as [i|] eqn:E.
    - rewrite (JSFacts.indexOf_some _ _ _ E), JSFacts.slice_prefix.
      apply MoreJSFacts.includes_firstn. exact H.
    - rewrite (JSFacts.indexOf_none _ _ E), JSFacts.slice_minus_one.
      rewrite removelast_firstn_len. apply MoreJSFacts.includes_firstn. exact H. }
  rewrite JSFacts.split_none; [reflexivity|discriminate|].
  unfold JS.includes in T. destruct (JS.find trimmedBody _); [discriminate|reflexivity].
Qed.

End FramingFacts.

(** X3. What follows the first closing delimiter of a body is not read: two
    bodies that are the same up to it are decoded alike, to the same
    responses or the same failure. *)
Theorem parseMultipartResponse_stops_at_closing_delimiter :
  forall (before after after' b : str) (hs : Fetch.Headers),
    BatchRequest.getBoundary hs = Ok b ->
    BatchRequest.parseMultipartResponse (before ++ ("--" ++ b ++ "--") ++ after) hs
    = BatchRequest.parseMultipartResponse (before ++ ("--" ++ b ++ "--") ++ after') hs.
Proof.
  intros before after after' b hs Hb.
  rewrite !(FramingFacts.parseMultipartResponse_parts _ hs b Hb).
  rewrite (FramingFacts.bodyParts_cut before after b).
  rewrite (FramingFacts.bodyParts_cut before after' b). reflexivity.
Qed.

Lemma parseMultipartResponse_stops_at_closing_delimiter_witness :
  BatchRequest.parseMultipartResponse
    (Examples.twoBadParts ++ ("--" ++ "b" ++ "--") ++ "--b" ++ CRLF ++ "more")
    (Examples.responseHeaders "b")
  = BatchRequest.parseMultipartResponse
      (Examples.twoBadParts ++ ("--" ++ "b" ++ "--") ++ [])
      (Examples.responseHeaders "b").
Proof.
  apply (parseMultipartResponse_stops_at_closing_delimiter
           Examples.twoBadParts ("--b" ++ CRLF ++ "more") [] "b"
           (Examples.responseHeaders "b")).
  reflexivity.
Defined.

(** X4. A body in which no delimiter line occurs is decoded into no response
    at all, without a failure: the empty body, or any text without the
    boundary. *)
Theorem parseMultipartResponse_without_delimiter_line :
  forall (body b : str) (hs : Fetch.Headers),
    BatchRequest.getBoundary hs = Ok b ->
    JS.includes body ("--" ++ b ++ CRLF) = false ->
    BatchRequest.parseMultipartResponse body hs = Ok [].
Proof.
  intros body b hs Hb H.
  rewrite (FramingFacts.parseMultipartResponse_parts _ hs b Hb).
  rewrite (FramingFacts.bodyParts_none body b H). reflexivity.
Qed.

Lemma parseMultipartResponse_without_delimiter_line_witness :
  BatchRequest.parseMultipartResponse "HTTP/1.1 500 Internal Server Error"
                                      (Examples.responseHeaders "b")
  = Ok [].
Proof.
  apply (parseMultipartResponse_without_delimiter_line _ "b"); reflexivity.
Defined.

Module LayoutFacts.
Import BatchRequest Decoder Replies Multipart.

Section Laid.
Variable D : str.
Hypothesis D_nonempty : D <> [].
Hypothesis D_no_CR : ~ In CR D.
Hypothesis D_no_LF : ~ In LF D.

#[local] Abbreviation shut := (Multipart.closing D).
#[local] Abbreviation lay := (Multipart.laid D).

#[local] Abbreviation preambleOk := (Framing.preambleOk D).

Lemma lay_eq (pts : list str) :
  lay pts = concat (map (fun y => (D ++ CRLF) ++ y ++ CRLF) pts).
Proof.
  unfold Multipart.laid. f_equal. apply map_ext. intros y.
  rewrite <- !app_assoc. reflexivity.
Qed.

Lemma shut_absent (x : str) : JS.includes x D = false -> JS.includes x shut = false.
Proof. apply JSFacts.includes_prefix. Qed.

Lemma split_parts (pts : list str) (pre : str) :
  Forall (fun x => JS.includes x D = false) pts ->
  preambleOk pre ->
  skipn 1 (JS.split (pre ++ lay pts) (D ++ CRLF)) = map (fun x => x ++ CRLF) pts.
Proof.
  intros H Hpre.
  assert (Hsep : D ++ CRLF <> []) by (destruct D; [congruence|discriminate]).
  rewrite lay_eq. destruct Hpre as [->|(x & -> & Hx)].
  - cbn [app]. destruct pts as [|y pts].
    + rewrite (JSFacts.split_none _ Hsep) by (apply JSFacts.find_nil; exact Hsep).
      reflexivity.
    + inversion H as [|? ? Hy Hrest]; subst. cbn [map concat].
      rewrite <- !app_assoc. rewrite (app_assoc D CRLF).
      rewrite <- (app_nil_l ((D ++ CRLF) ++ _)).
      rewrite JSFacts.split_app; [|exact Hsep|].
      * cbn [skipn]. apply (RepliesFacts.split_laid D); assumption.
      * rewrite app_nil_l. apply JSFacts.find_here. apply JSFacts.startsWith_app.
  - rewrite <- app_assoc.
    rewrite (RepliesFacts.split_laid D D_nonempty D_no_CR D_no_LF pts x Hx H).
    reflexivity.
Qed.

(** Without a closing delimiter after the parts, none is found. *)
Lemma find_open (pts : list str) :
  Forall (fun x => JS.includes x D = false) pts -> JS.find (lay pts) shut = None.
Proof.
  pose proof (RepliesFacts.closing_nonempty D D_nonempty D_no_CR D_no_LF) as C0.
  pose proof (RepliesFacts.closing_no_CR D D_no_CR) as C1.
  pose proof (RepliesFacts.closing_no_LF D D_no_LF) as C2.
  induction pts as [|x pts IH]; intros H.
  - apply JSFacts.find_nil. exact C0.
  - inversion H as [|? ? Hx Hrest]; subst.
    unfold Multipart.laid. cbn [map concat]. fold (lay pts). rewrite <- !app_assoc.
    rewrite (JSFacts.find_skip_line shut C0 C1 C2).
    2:{ apply JSFacts.includes_long. unfold Multipart.closing.
        rewrite length_app. simpl. lia. }
    rewrite (JSFacts.find_skip_line shut C0 C1 C2) by (apply shut_absent; exact Hx).
    rewrite (IH Hrest). reflexivity.
Qed.

Lemma find_preamble (pre rest : str) :
  preambleOk pre ->
  JS.find (pre ++ rest) shut = option_map (Nat.add (length pre)) (JS.find rest shut).
Proof.
  pose proof (RepliesFacts.closing_nonempty D D_nonempty D_no_CR D_no_LF) as C0.
  pose proof (RepliesFacts.closing_no_CR D D_no_CR) as C1.
  pose proof (RepliesFacts.closing_no_LF D D_no_LF) as C2.
  intros [->|(x & -> & Hx)].
  - cbn [app length]. destruct (JS.find rest shut); reflexivity.
  - rewrite <- app_assoc.
    rewrite (JSFacts.find_skip_line shut C0 C1 C2) by (apply shut_absent; exact Hx).
    rewrite length_app. reflexivity.
Qed.

(** The parts of a body, with a preamble, a closing delimiter and what
    follows it. *)
Lemma parts_closed (pts : list str) (pre tail : str) :
  Forall (fun x => JS.includes x D = false) pts ->
  preambleOk pre ->
  let body := pre ++ lay pts ++ shut ++ tail in
  let endBoundaryIndex := JS.indexOf body shut in
  skipn 1 (JS.split (if (endBoundaryIndex >=? 0)%Z
                     then JS.slice body 0 endBoundaryIndex else body)
                    (D ++ CRLF))
  = map (fun x => x ++ CRLF) pts.
Proof.
  intros H Hpre body endBoundaryIndex.
  assert (F : JS.find body shut = Some (length (pre ++ lay pts))).
  { unfold body. rewrite (find_preamble _ _ Hpre).
    rewrite (RepliesFacts.find_closing D D_nonempty D_no_CR D_no_LF pts tail H).
    cbn [option_map]. rewrite length_app. reflexivity. }
  unfold endBoundaryIndex. rewrite (JSFacts.indexOf_some _ _ _ F).
  replace (Z.of_nat (length (pre ++ lay pts)) >=? 0)%Z with true
    by (symmetry; apply Z.geb_le; lia).
  rewrite JSFacts.slice_prefix. unfold body.
  rewrite app_assoc, RepliesFacts.firstn_exact.
  apply split_parts; assumption.
Qed.

(** The same without a closing delimiter. *)
Lemma parts_open (pts : list str) (pre : str) :
  Forall (fun x => JS.includes x D = false) pts ->
  preambleOk pre ->
  let body := pre ++ lay pts in
  let endBoundaryIndex := JS.indexOf body shut in
  skipn 1 (JS.split (if (endBoundaryIndex >=? 0)%Z
                     then JS.slice body 0 endBoundaryIndex else body)
                    (D ++ CRLF))
  = map (fun x => x ++ CRLF) pts.
Proof.
  intros H Hpre body endBoundaryIndex.
  assert (F : JS.find body shut = None).
  { unfold body. rewrite (find_preamble _ _ Hpre), (find_open pts H). reflexivity. }
  unfold endBoundaryIndex. rewrite (JSFacts.indexOf_none _ _ F).
  change (-1 >=? 0)%Z with false. cbv iota.
  apply split_parts; assumption.
Qed.

End Laid.

Lemma partsText_laid {A} (leaf : A -> str) (b : str) (ts : list (mtree A)) :
  partsText leaf b ts = laid ("--" ++ b) (map (partText leaf) ts).
Proof.
  unfold partsText, laid. rewrite map_map. f_equal.
Qed.

(** The parts of a body that was laid out with the boundary [b], after a
    preamble, closed or not. *)
Lemma bodyParts_closed {A} (leaf : A -> str) (b : str) (ts : list (mtree A))
      (pre tail : str) :
  boundaryOk b = true ->
  Forall (fun t => JS.includes (partText leaf t) ("--" ++ b) = false) ts ->
  Framing.preambleOk ("--" ++ b) pre ->
  bodyParts (pre ++ partsText leaf b ts ++ "--" ++ b ++ "--" ++ tail) b
  = map (fun t => partText leaf t ++ CRLF) ts.
Proof.
  intros Hb H Hpre. destruct (RepliesFacts.delimiter_ok b Hb) as (H1 & H2 & H3).
  pose proof (parts_closed ("--" ++ b) H1 H2 H3 (map (partText leaf) ts) pre tail) as L.
  specialize (L ltac:(apply Forall_map; exact H) Hpre). cbv zeta in L.
  rewrite <- partsText_laid, map_map in L. unfold Multipart.closing in L.
  unfold bodyParts.
  replace (pre ++ partsText leaf b ts ++ "--" ++ b ++ "--" ++ tail)
    with (pre ++ partsText leaf b ts ++ (("--" ++ b) ++ "--") ++ tail)
    by (rewrite <- !app_assoc; reflexivity).
  exact L.
Qed.

Lemma bodyParts_open {A} (leaf : A -> str) (b : str) (ts : list (mtree A))
      (pre : str) :
  boundaryOk b = true ->
  Forall (fun t => JS.includes (partText leaf t) ("--" ++ b) = false) ts ->
  Framing.preambleOk ("--" ++ b) pre ->
  bodyParts (pre ++ partsText leaf b ts) b
  = map (fun t => partText leaf t ++ CRLF) ts.
Proof.
  intros Hb H Hpre. destruct (RepliesFacts.delimiter_ok b Hb) as (H1 & H2 & H3).
  pose proof (parts_open ("--" ++ b) H1 H2 H3 (map (partText leaf) ts) pre) as L.
  specialize (L ltac:(apply Forall_map; exact H) Hpre). cbv zeta in L.
  rewrite <- partsText_laid, map_map in L. unfold Multipart.closing in L.
  exact L.
Qed.

(** A body whose parts are those of well-formed trees is decoded into their
    replies. *)
Lemma decode_laid (body b : str) (ts : list (mtree Reply)) (hs : Fetch.Headers) :
  wellFormed (Node b ts) = true ->
  Fetch.get hs "Content-Type" = Some ("multipart/mixed; boundary=" ++ b) ->
  bodyParts body b = map (fun t => partText replyPart t ++ CRLF) ts ->
  parseMultipartResponse body hs = Ok (map expected (flat_map leaves ts)).
Proof.
  intros H Hget Hparts.
  destruct (RepliesFacts.wellFormed_node b ts H) as (Hb & _ & Hwf).
  assert (Hdec : Forall decodable ts).
  { eapply Forall_impl; [|exact Hwf]. intros t. apply RepliesFacts.wellFormed_decodable. }
  rewrite (FramingFacts.parseMultipartResponse_parts _ hs b
             (RepliesFacts.getBoundary_ok hs b Hget Hb)).
  rewrite Hparts. destruct (RepliesFacts.decode_parts ts Hdec) as (parts & Hm & Hp).
  rewrite Hm. cbn [bind]. rewrite Hp. reflexivity.
Qed.

End LayoutFacts.

(** X5. What precedes the first delimiter line is not read: a well-formed
    body after a preamble, lines in which the delimiter does not occur, is
    decoded into its replies, in the order of the text. *)
Theorem parseMultipartResponse_skips_the_preamble :
  forall (b : str) (ts : list (mtree Replies.Reply)) (preamble tail : str)
         (hs : Fetch.Headers),
    Replies.wellFormed (Node b ts) = true ->
    Fetch.get hs "Content-Type" = Some ("multipart/mixed; boundary=" ++ b) ->
    JS.includes preamble ("--" ++ b) = false ->
    BatchRequest.parseMultipartResponse
      ((preamble ++ CRLF) ++ Multipart.partsText Replies.replyPart b ts
       ++ "--" ++ b ++ "--" ++ tail) hs
    = Ok (map Replies.expected (flat_map Multipart.leaves ts)).
Proof.
  intros b ts preamble tail hs H Hget Hpre.
  destruct (RepliesFacts.wellFormed_node b ts H) as (Hb & Hinc & _).
  apply (LayoutFacts.decode_laid _ b ts hs H Hget).
  apply LayoutFacts.bodyParts_closed; [exact Hb|exact Hinc|].
  right. exists preamble. split; [reflexivity|exact Hpre].
Qed.

Lemma parseMultipartResponse_skips_the_preamble_witness :
  BatchRequest.parseMultipartResponse
    (("This is a multipart message." ++ CRLF)
     ++ Multipart.partsText Replies.replyPart "b" [Leaf Examples.ok200]
     ++ "--" ++ "b" ++ "--" ++ CRLF)
    (Examples.responseHeaders "b")
  = Ok [Replies.expected Examples.ok200].
Proof.
  apply (parseMultipartResponse_skips_the_preamble
           "b" [Leaf Examples.ok200] "This is a multipart message." CRLF
           (Examples.responseHeaders "b")); reflexivity.
Defined.

(** X6. The closing delimiter is not required: a well-formed body that ends
    after its last part is decoded into its replies all the same. *)
Theorem parseMultipartResponse_without_closing_delimiter :
  forall (b : str) (ts : list (mtree Replies.Reply)) (hs : Fetch.Headers),
    Replies.wellFormed (Node b ts) = true ->
    Fetch.get hs "Content-Type" = Some ("multipart/mixed; boundary=" ++ b) ->
    BatchRequest.parseMultipartResponse (Multipart.partsText Replies.replyPart b ts) hs
    = Ok (map Replies.expected (flat_map Multipart.leaves ts)).
Proof.
  intros b ts hs H Hget.
  destruct (RepliesFacts.wellFormed_node b ts H) as (Hb & Hinc & _).
  apply (LayoutFacts.decode_laid _ b ts hs H Hget).
  apply (LayoutFacts.bodyParts_open Replies.replyPart b ts [] Hb Hinc).
  left. reflexivity.
Qed.

Lemma parseMultipartResponse_without_closing_delimiter_witness :
  BatchRequest.parseMultipartResponse
    (Multipart.partsText Replies.replyPart "b"
                         [Leaf Examples.ok200; Leaf Examples.created201])
    (Examples.responseHeaders "b")
  = Ok [Replies.expected Examples.ok200; Replies.expected Examples.created201].
Proof.
  apply (parseMultipartResponse_without_closing_delimiter
           "b" [Leaf Examples.ok200; Leaf Examples.created201]
           (Examples.responseHeaders "b")); reflexivity.
Defined.

(** ** Statuses that [Response] refuses *)

Module StatusFacts.
Import BatchRequest Replies.

(** [parseHttpResponse] on the text of a reply: the status line and the
    headers are read, and [Response] is given the trimmed body. *)
Lemma parseHttpResponse_text (r : Reply) :
  replyStatus r < 1000 ->
  Fetch.isReasonPhrase (replyText r) = true ->
  forallb headerOk (replyHeaders r) = true ->
  parseHttpResponse (httpText r ++ CRLF)
  = Fetch.newResponse (JS.trim (replyBody r ++ CRLF)) (replyHeaders r)
                      (JS.Int (Z.of_nat (replyStatus r))) (replyText r).
Proof.
  intros Hst Hrp Hhs.
  destruct (RepliesFacts.decimal3_spec (replyStatus r) Hst) as (Hint & Hcr & Hsp).
  set (statusLine := "HTTP/1.1 " ++ decimal3 (replyStatus r) ++ " " ++ replyText r).
  set (rest := headerBlock (replyHeaders r) ++ CRLF ++ replyBody r ++ CRLF).
  assert (E : httpText r ++ CRLF = statusLine ++ CRLF ++ rest).
  { unfold httpText, statusLine, rest. rewrite <- !app_assoc. reflexivity. }
  assert (Hline : Forall (fun d => d <> CR) statusLine).
  { unfold statusLine. apply Forall_app. split; [repeat constructor; discriminate|].
    apply Forall_app. split; [exact Hcr|].
    constructor; [discriminate|]. apply RepliesFacts.reasonPhrase_not_CR, Hrp. }
  assert (F : JS.find (statusLine ++ CRLF ++ rest) CRLF = Some (length statusLine)).
  { rewrite (JSFacts.find_free_prefix statusLine _ CR [LF]) by exact Hline.
    rewrite JSFacts.find_here by apply JSFacts.startsWith_app.
    simpl. f_equal. lia. }
  unfold parseHttpResponse. rewrite E, (JSFacts.indexOf_some _ _ _ F).
  rewrite JSFacts.slice_prefix, RepliesFacts.firstn_exact.
  replace (Z.of_nat (length statusLine) + 2)%Z
    with (Z.of_nat (length statusLine + 2)) by lia.
  rewrite JSFacts.sliceFrom_nat, RepliesFacts.skipn_exact.
  change (skipn 2 (CRLF ++ rest)) with rest.
  unfold statusLine at 1 2. rewrite (RepliesFacts.words_of_statusLine _ _ Hsp).
  cbn [nth_error skipn]. rewrite Hint.
  rewrite (JSFacts.join_split " ") by discriminate.
  unfold rest. rewrite (RepliesFacts.splitPart_headerBlock _ _ Hhs). reflexivity.
Qed.

Lemma no_content_refused (r : Reply) :
  In (replyStatus r) [204; 205; 304] ->
  Fetch.isReasonPhrase (replyText r) = true ->
  forallb headerOk (replyHeaders r) = true ->
  parseHttpResponse (httpText r ++ CRLF) = Throw TypeError.
Proof.
  intros Hst Hrp Hhs.
  rewrite (parseHttpResponse_text r); [|simpl in Hst; lia|exact Hrp|exact Hhs].
  unfold Fetch.newResponse, Fetch.toUnsignedShort. cbn [bind]. rewrite Hrp.
  destruct Hst as [<-|[<-|[<-|[]]]]; reflexivity.
Qed.

End StatusFacts.





(** ** The part of an operation, read back *)

Module PartFacts.
Import BatchRequest Decoder.

(** The two headers that open the part of every operation. *)
Lemma splitPart_operation (http : str) :
  splitPart ("Content-Type: application/http" ++ CRLF
             ++ "Content-Transfer-Encoding: binary" ++ CRLF ++ CRLF ++ http)
  = Ok ([("Content-Type" : str, "application/http" : str);
         ("Content-Transfer-Encoding" : str, "binary" : str)], http).
Proof.
  set (block := "Content-Type: application/http" ++ CRLF
                ++ "Content-Transfer-Encoding: binary").
  change (splitPart (block ++ CRLF ++ CRLF ++ http) = Ok (map headerOfLine (JS.split block CRLF), http)).
  apply RepliesFacts.splitPart_block.
  - reflexivity.
  - change (block ++ CRLF ++ CRLF ++ http) with ((block ++ CRLF ++ CRLF) ++ http).
    apply JSFacts.find_app_found. vm_compute. reflexivity.
  - vm_compute. reflexivity.
Qed.

Lemma join_lines4 (l1 l2 l3 l4 : str) (rest : list str) :
  JS.join CRLF ([l1; l2; l3; l4] ++ rest)
  = l1 ++ CRLF ++ l2 ++ CRLF ++ l3 ++ CRLF ++ JS.join CRLF (l4 :: rest).
Proof.
  cbn [app]. rewrite !(JSFacts.join_cons CRLF) by discriminate. reflexivity.
Qed.

Lemma mapSplitPart_failure (parts : list str) (part : str) (e : exn) :
  In part parts -> splitPart part = Throw e -> mapSplitPart parts = Throw TypeError.
Proof.
  induction parts as [|p parts IH]; intros Hin He; [destruct Hin|].
  cbn [mapSplitPart]. destruct (splitPart p) as [x|e'] eqn:E; cbn [bind].
  - destruct Hin as [->|Hin]; [congruence|]. rewrite (IH Hin He). reflexivity.
  - apply FailureFacts.splitPart_throw in E. congruence.
Qed.

End PartFacts.

(** X9. The part that [formatRequest] writes for an operation is read back by
    [splitPart] as the two headers of an application/http part and, as
    body, the HTTP text of the operation untouched: the request line, the
    header lines, a blank line and the text of the body stream. *)
Theorem formatRequest_part_splits_back :
  forall (request : Request) (st : store * list nat) (text : str),
    fst (BatchRequest.formatRequest request st) = Ok text ->
    exists bodyText hs,
      match body request with
      | Some id => fst (BatchRequest.streamToString id st) = Ok bodyText
      | None => bodyText = []
      end
      /\ BatchRequest.splitPart text
         = Ok (hs,
               JS.join CRLF
                 ([method request ++ " " ++ url request ++ " HTTP/1.1"]
                  ++ BatchRequest.formatRequestHeaders (headers request)
                  ++ [[]; bodyText]))
      /\ Fetch.get hs "Content-Type" = Some ("application/http" : str)
      /\ Fetch.get hs "Content-Transfer-Encoding" = Some ("binary" : str).
Proof.
  intros request st text H. rewrite EncoderFacts.formatRequest_fst in H.
  assert (B : exists bodyText,
             match body request with
             | Some id => fst (BatchRequest.streamToString id st)
             | None => Ok []
             end = Ok bodyText).
  { destruct (match body request with Some _ => _ | None => _ end) as [t|e];
      [exists t; reflexivity|discriminate H]. }
  destruct B as [bodyText B]. rewrite B in H. cbn [bind] in H. apply Ok_inj in H.
  exists bodyText. eexists. split.
  { destruct (body request); [exact B|apply Ok_inj in B; symmetry; exact B]. }
  split.
  - rewrite <- H, PartFacts.join_lines4. apply PartFacts.splitPart_operation.
  - split; reflexivity.
Qed.

Lemma formatRequest_part_splits_back_witness :
  exists text hs,
    fst (BatchRequest.formatRequest Examples.post1 (Examples.sigma, [])) = Ok text
    /\ BatchRequest.splitPart text
       = Ok (hs,
             "POST https://host/fmi/odata/v4/db/contacts HTTP/1.1" ++ CRLF
             ++ "content-type: application/json" ++ CRLF ++ CRLF ++ "{}")
    /\ Fetch.get hs "Content-Type" = Some ("application/http" : str).
Proof.
  destruct (formatRequest_part_splits_back Examples.post1 (Examples.sigma, []) _ eq_refl)
    as (bodyText & hs & Hb & Hs & Hct & _).
  apply Ok_inj in Hb. subst bodyText.
  eexists. exists hs. split; [reflexivity|]. split; [exact Hs|exact Hct].
Defined.

(** X10. The parts are all split into headers and body before any of them is
    read: when [Headers] refuses a header line of any part,
    [parseMultipartResponse] throws a [TypeError], whatever the parts before
    it hold. *)
Theorem parseMultipartResponse_splits_before_reading :
  forall (body b part : str) (hs : Fetch.Headers) (e : exn),
    BatchRequest.getBoundary hs = Ok b ->
    In part (Decoder.bodyParts body b) ->
    BatchRequest.splitPart part = Throw e ->
    BatchRequest.parseMultipartResponse body hs = Throw TypeError.
Proof.
  intros body b part hs e Hb Hin He.
  rewrite (FramingFacts.parseMultipartResponse_parts _ hs b Hb).
  rewrite (PartFacts.mapSplitPart_failure _ part e Hin He). reflexivity.
Qed.

Lemma parseMultipartResponse_splits_before_reading_witness :
  BatchRequest.parseMultipartResponse
    ("--b" ++ CRLF ++ "Content-Type: text/plain" ++ CRLF ++ CRLF ++ "hello" ++ CRLF
     ++ "--b" ++ CRLF ++ "Content Type: application/http" ++ CRLF ++ CRLF
     ++ "HTTP/1.1 200 OK" ++ CRLF ++ CRLF ++ CRLF
     ++ "--b--")
    (Examples.responseHeaders "b")
  = Throw TypeError.
Proof.
  apply (parseMultipartResponse_splits_before_reading
           _ "b"
           ("Content Type: application/http" ++ CRLF ++ CRLF
            ++ "HTTP/1.1 200 OK" ++ CRLF ++ CRLF ++ CRLF)
           (Examples.responseHeaders "b") TypeError).
  - reflexivity.
  - right. left. reflexivity.
  - reflexivity.
Defined.

Module PaddingFacts.
Import StrProps BatchRequest Decoder Replies Framing.

Lemma blanks_whitespace (w : str) : forallb isBlank w = true -> allWhiteSpace w.
Proof.
  intros H. apply Forall_forall. intros c Hc. rewrite forallb_forall in H.
  specialize (H c Hc). unfold isBlank in H. apply orb_true_iff in H as [H|H];
    apply Ascii.eqb_eq in H; subst c; reflexivity.
Qed.

Lemma blanks_not_CR (w : str) : forallb isBlank w = true -> Forall (fun d => d <> CR) w.
Proof. intros H. apply (RepliesFacts.forallb_free _ _ _ H). reflexivity. Qed.

Section Padded.
Variables w1 w2 : str.
Hypothesis blank1 : forallb isBlank w1 = true.
Hypothesis blank2 : forallb isBlank w2 = true.

Lemma headerOfLine_padded (name value : str) :
  Fetch.isHeaderName name = true -> trimmed value ->
  headerOfLine (paddedLine w1 w2 (name, value)) = (name, value).
Proof.
  intros Hn Hv. apply RepliesFacts.isHeaderName_tchar in Hn as [Hn _].
  unfold paddedLine. cbn [fst snd].
  assert (F : JS.find (name ++ ":" ++ w1 ++ value ++ w2) ":" = Some (length name)).
  { rewrite (JSFacts.find_free_prefix name _ ":"%char [])
      by (apply RepliesFacts.tchar_not_colon, Hn).
    rewrite JSFacts.find_here by reflexivity. simpl. f_equal. lia. }
  unfold headerOfLine. rewrite (JSFacts.indexOf_some _ _ _ F).
  rewrite JSFacts.slice_prefix, RepliesFacts.firstn_exact.
  replace (Z.of_nat (length name) + 1)%Z with (Z.of_nat (length name + 1)) by lia.
  rewrite JSFacts.sliceFrom_nat, RepliesFacts.skipn_exact.
  change (skipn 1 (":" ++ w1 ++ value ++ w2)) with (w1 ++ value ++ w2).
  rewrite (JSFacts.trim_pad w1 value w2)
    by (try apply blanks_whitespace; assumption).
  rewrite (RepliesFacts.normalize_trimmed value Hv). reflexivity.
Qed.

Lemma paddedLines_ok (hs : list (str * str)) :
  forallb headerOk hs = true ->
  Forall (fun x => x <> [] /\ Forall (fun d => d <> CR) x) (map (paddedLine w1 w2) hs)
  /\ forallb validHeaderLine (map (paddedLine w1 w2) hs) = true
  /\ map headerOfLine (map (paddedLine w1 w2) hs) = hs.
Proof.
  induction hs as [|[name value] hs IH]; intros H.
  - repeat split. constructor.
  - cbn [forallb] in H. apply andb_true_iff in H as [He Hs].
    destruct (IH Hs) as (I1 & I2 & I3).
    destruct (RepliesFacts.headerOk_parts _ He) as (Hn & Hv & Ht). cbn [fst snd] in *.
    cbn [map forallb]. repeat split.
    + constructor; [|exact I1]. split.
      * unfold paddedLine. cbn [fst snd]. destruct name; discriminate.
      * unfold paddedLine. cbn [fst snd].
        destruct (RepliesFacts.isHeaderName_tchar _ Hn) as [Hc _].
        repeat (apply Forall_app; split);
          [apply RepliesFacts.tchar_not_CR, Hc
          |repeat constructor; discriminate
          |apply blanks_not_CR, blank1
          |apply RepliesFacts.value_not_CR, Hv
          |apply blanks_not_CR, blank2].
    + unfold validHeaderLine at 1. rewrite (headerOfLine_padded name value Hn Ht).
      cbn [fst snd]. rewrite Hn, Hv. exact I2.
    + rewrite (headerOfLine_padded name value Hn Ht). f_equal. exact I3.
Qed.

Lemma splitPart_paddedBlock (hs : list (str * str)) (body : str) :
  forallb headerOk hs = true ->
  splitPart (paddedBlock w1 w2 hs ++ CRLF ++ body) = Ok (hs, body).
Proof.
  intros H. destruct (paddedLines_ok hs H) as (H1 & H2 & H3).
  destruct hs as [|e hs].
  - apply DecoderFacts.splitPart_blank. reflexivity.
  - unfold paddedBlock.
    rewrite <- (map_map (paddedLine w1 w2) (fun x => x ++ CRLF)).
    change (map (paddedLine w1 w2) (e :: hs))
      with (paddedLine w1 w2 e :: map (paddedLine w1 w2) hs) in *.
    rewrite RepliesFacts.concat_lines, <- app_assoc.
    rewrite RepliesFacts.splitPart_block.
    + rewrite RepliesFacts.split_join_lines.
      * rewrite H3. reflexivity.
      * eapply Forall_impl; [|exact H1]. intros x [_ Hx]. exact Hx.
    + inversion H1 as [|? ? [Hne Hcr] _]; subst.
      destruct (paddedLine w1 w2 e) as [|c l] eqn:El; [congruence|].
      assert (Hc : c <> CR) by (inversion Hcr; assumption).
      destruct (map (paddedLine w1 w2) hs); cbn [JS.join app];
        apply JSFacts.startsWith_head; congruence.
    + apply RepliesFacts.find_blank_line. exact H1.
    + rewrite RepliesFacts.split_join_lines; [exact H2|].
      eapply Forall_impl; [|exact H1]. intros x [_ Hx]. exact Hx.
Qed.

End Padded.

End PaddingFacts.



(** ** Batches of one kind *)

Module KindFacts.

Lemma flatten_cons (item : Request + list Request) (env : list (Request + list Request)) :
  flatten (item :: env)
  = match item with inl r => [r] | inr rs => rs end ++ flatten env.
Proof. reflexivity. Qed.

(** An envelope of well-formed items over GET operations has no changeset. *)
Lemma envelope_of_gets (env : list (Request + list Request)) :
  forallb itemOk env = true ->
  forallb isGet (flatten env) = true ->
  env = map inl (flatten env).
Proof.
  induction env as [|[r|rs] env IH]; intros Hok Hget; [reflexivity| |].
  - cbn [forallb] in Hok. apply andb_true_iff in Hok as [_ Hok].
    rewrite flatten_cons in *. cbn [app forallb] in Hget.
    apply andb_true_iff in Hget as [_ Hget]. cbn [app map]. f_equal.
    exact (IH Hok Hget).
  - exfalso. cbn [forallb itemOk] in Hok.
    apply andb_true_iff in Hok as [Hrs _]. apply andb_true_iff in Hrs as [Hne Hno].
    rewrite flatten_cons, forallb_app in Hget. apply andb_true_iff in Hget as [Hget _].
    destruct rs as [|r rs]; [discriminate Hne|].
    cbn [forallb] in Hno, Hget.
    apply andb_true_iff in Hno as [Hno _]. apply andb_true_iff in Hget as [Hget _].
    rewrite Hget in Hno. discriminate Hno.
Qed.

(** An envelope of well-formed items without GET, with no changeset after
    a changeset, is one changeset at most. *)
Lemma envelope_without_get (env : list (Request + list Request)) :
  forallb itemOk env = true ->
  noAdjacentChangesets env = true ->
  forallb (fun r => negb (isGet r)) (flatten env) = true ->
  env = [] \/ env = [inr (flatten env)].
Proof.
  intros Hok Hadj Hno. destruct env as [|[r|rs] env]; [left; reflexivity| |].
  - exfalso. cbn [forallb itemOk] in Hok. apply andb_true_iff in Hok as [Hr _].
    rewrite flatten_cons in Hno. cbn [app forallb] in Hno.
    apply andb_true_iff in Hno as [Hno _]. rewrite Hr in Hno. discriminate Hno.
  - right. destruct env as [|[r|rs'] env].
    + rewrite flatten_cons. cbn [flatten flat_map]. rewrite app_nil_r. reflexivity.
    + exfalso. cbn [forallb itemOk] in Hok.
      apply andb_true_iff in Hok as [_ Hok]. apply andb_true_iff in Hok as [Hr _].
      rewrite !flatten_cons, forallb_app in Hno. apply andb_true_iff in Hno as [_ Hno].
      cbn [app forallb] in Hno. apply andb_true_iff in Hno as [Hno _].
      rewrite Hr in Hno. discriminate Hno.
    + discriminate Hadj.
Qed.

End KindFacts.

(** X12. A batch of GET operations has no changeset: every operation is a
    part of its own.  A batch without GET is one changeset that holds all its
    operations, in their order. *)
Theorem constructor_of_one_kind :
  forall (endpoint auth : str) (ops : list Request),
    (forallb isGet ops = true ->
     BatchRequest.envelope (BatchRequest.constructor endpoint auth ops) = map inl ops)
    /\ (ops <> [] -> forallb (fun r => negb (isGet r)) ops = true ->
        BatchRequest.envelope (BatchRequest.constructor endpoint auth ops) = [inr ops]).
Proof.
  intros endpoint auth ops.
  destruct (GroupingFacts.shaped_constructor endpoint auth ops) as [_ H1 H2 H3 _].
  split.
  - intros Hget. rewrite <- H1 in Hget.
    rewrite (KindFacts.envelope_of_gets _ H2 Hget) at 1. rewrite H1. reflexivity.
  - intros Hne Hno. rewrite <- H1 in Hno.
    destruct (KindFacts.envelope_without_get _ H2 H3 Hno) as [E|E].
    + rewrite E in H1. cbn in H1. congruence.
    + rewrite E at 1. rewrite H1. reflexivity.
Qed.

Lemma constructor_of_one_kind_witness :
  BatchRequest.envelope
    (BatchRequest.constructor Examples.endpoint Examples.authorization
                              [Examples.get1; Examples.get1])
  = [inl Examples.get1; inl Examples.get1]
  /\ BatchRequest.envelope
       (BatchRequest.constructor Examples.endpoint Examples.authorization
                                 [Examples.post1; Examples.post1])
     = [inr [Examples.post1; Examples.post1]].
Proof.
  split.
  - apply (proj1 (constructor_of_one_kind Examples.endpoint Examples.authorization
                                          [Examples.get1; Examples.get1])).
    reflexivity.
  - apply (proj2 (constructor_of_one_kind Examples.endpoint Examples.authorization
                                          [Examples.post1; Examples.post1])).
    + discriminate.
    + reflexivity.
Defined.

(** ** When a batch can be encoded *)

Module EncodingFacts.
Import BatchRequest Encoder Encoding.

Lemma succeeds_ok {A} (r : result A) : succeeds r = true <-> exists a, r = Ok a.
Proof.
  destruct r as [a|e]; split; intros H; try reflexivity.
  - exists a. reflexivity.
  - discriminate H.
  - destruct H as [a H]. discriminate H.
Qed.

Lemma succeeds_bind {A B} (r : result A) (k : A -> B) :
  succeeds (let* a := r in Ok (k a)) = succeeds r.
Proof. destruct r; reflexivity. Qed.

Lemma succeeds_all {A} (l : list (result A)) : succeeds (all l) = forallb succeeds l.
Proof.
  induction l as [|r l IH]; [reflexivity|]. cbn [all forallb].
  destruct r as [a|e]; cbn [bind succeeds]; [|reflexivity].
  rewrite <- IH. destruct (all l); reflexivity.
Qed.

(** *** One stream *)

Lemma streamToString_eq (id : nat) (st : store * list nat) :
  streamToString id st
  = if isFree st id
    then (Ok (concat (chunks (fst st id))), (update (fst st) id drained, id :: snd st))
    else (Throw TypeError, st).
Proof.
  destruct st as [sigma held]. unfold streamToString, isFree. cbn [fst snd].
  destruct (locked (sigma id) || existsb (Nat.eqb id) held); reflexivity.
Qed.

Lemma isFree_acquired (st : store * list nat) (id id' : nat) :
  isFree (update (fst st) id drained, id :: snd st) id'
  = isFree st id' && negb (id' =? id).
Proof.
  unfold isFree, update. cbn [fst snd existsb].
  destruct (id' =? id) eqn:E.
  - cbn [negb orb andb]. rewrite orb_true_r, andb_false_r. reflexivity.
  - cbn [orb negb]. rewrite andb_true_r. reflexivity.
Qed.

(** *** One operation *)

Lemma formatRequest_succeeds (r : Request) (st : store * list nat) :
  succeeds (fst (formatRequest r st)) = forallb (isFree st) (bodyIds [r]).
Proof.
  rewrite EncoderFacts.formatRequest_fst, succeeds_bind.
  unfold bodyIds. cbn [flat_map]. destruct (body r) as [id|]; [|reflexivity].
  rewrite streamToString_eq. cbn [app forallb]. rewrite andb_true_r.
  destruct (isFree st id); reflexivity.
Qed.

Lemma formatRequest_isFree (r : Request) (st : store * list nat) (id : nat) :
  isFree (snd (formatRequest r st)) id
  = isFree st id && negb (existsb (Nat.eqb id) (bodyIds [r])).
Proof.
  rewrite EncoderFacts.formatRequest_snd. unfold bodyIds. cbn [flat_map].
  destruct (body r) as [id'|]; cbn [app existsb].
  - rewrite streamToString_eq. destruct (isFree st id') eqn:F; cbn [snd].
    + rewrite isFree_acquired, orb_false_r. reflexivity.
    + rewrite orb_false_r. destruct (id =? id') eqn:E; cbn [negb].
      * apply Nat.eqb_eq in E. subst id'. rewrite F. reflexivity.
      * rewrite andb_true_r. reflexivity.
  - rewrite andb_true_r. reflexivity.
Qed.

(** *** Lists of streams *)

Lemma existsb_app_eqb (id : nat) (l1 l2 : list nat) :
  existsb (Nat.eqb id) (l1 ++ l2) = existsb (Nat.eqb id) l1 || existsb (Nat.eqb id) l2.
Proof. apply existsb_app. Qed.

Lemma acquirable_app (st : store * list nat) (l1 l2 : list nat) :
  acquirable st (l1 ++ l2)
  = acquirable st l1
    && (acquirable st l2
        && forallb (fun id => negb (existsb (Nat.eqb id) l1)) l2).
Proof.
  induction l1 as [|id l1 IH].
  - cbn [app acquirable existsb negb]. 
    replace (forallb (fun _ : nat => true) l2) with true
      by (symmetry; apply forallb_forall; reflexivity).
    rewrite andb_true_r. reflexivity.
  - cbn [app acquirable]. rewrite IH, existsb_app_eqb.
    assert (E : forallb (fun id0 => negb (existsb (Nat.eqb id0) (id :: l1))) l2
                = negb (existsb (Nat.eqb id) l2)
                  && forallb (fun id0 => negb (existsb (Nat.eqb id0) l1)) l2).
    { clear. induction l2 as [|x l2 IH2]; [reflexivity|].
      cbn [forallb]. rewrite IH2. cbn [existsb]. rewrite (Nat.eqb_sym x id).
      destruct (id =? x), (existsb (Nat.eqb x) l1), (existsb (Nat.eqb id) l2);
        reflexivity. }
    rewrite E.
    destruct (isFree st id), (existsb (Nat.eqb id) l1), (existsb (Nat.eqb id) l2),
      (acquirable st l1), (acquirable st l2),
      (forallb (fun id0 => negb (existsb (Nat.eqb id0) l1)) l2); reflexivity.
Qed.

(** After the streams [got] were asked for, the others can be acquired as
    before and those of [got] no more. *)
Lemma acquirable_after (st st' : store * list nat) (got ids : list nat) :
  (forall id, isFree st' id = isFree st id && negb (existsb (Nat.eqb id) got)) ->
  acquirable st' ids
  = acquirable st ids && forallb (fun id => negb (existsb (Nat.eqb id) got)) ids.
Proof.
  intros H. induction ids as [|id ids IH]; [reflexivity|].
  cbn [acquirable forallb]. rewrite IH, H.
  destruct (isFree st id), (existsb (Nat.eqb id) got), (existsb (Nat.eqb id) ids),
    (acquirable st ids), (forallb (fun id0 => negb (existsb (Nat.eqb id0) got)) ids);
    reflexivity.
Qed.

Lemma bodyIds_cons (r : Request) (rs : list Request) :
  bodyIds (r :: rs) = bodyIds [r] ++ bodyIds rs.
Proof. unfold bodyIds. cbn [flat_map]. rewrite app_nil_r. reflexivity. Qed.

Lemma bodyIds_app (rs rs' : list Request) :
  bodyIds (rs ++ rs') = bodyIds rs ++ bodyIds rs'.
Proof. unfold bodyIds. apply flat_map_app. Qed.

Lemma acquirable_one (st : store * list nat) (r : Request) :
  acquirable st (bodyIds [r]) = forallb (isFree st) (bodyIds [r]).
Proof.
  unfold bodyIds. cbn [flat_map]. destruct (body r); [|reflexivity].
  cbn [app acquirable forallb existsb negb]. rewrite !andb_true_r. reflexivity.
Qed.

(** *** The operations of a changeset, and of the batch *)

Lemma formatAll_isFree (prefix : str) (rs : list Request) (st : store * list nat)
      (id : nat) :
  isFree (snd (formatAll prefix rs st)) id
  = isFree st id && negb (existsb (Nat.eqb id) (bodyIds rs)).
Proof.
  revert st; induction rs as [|r rs IH]; intros st.
  - cbn [formatAll snd]. unfold bodyIds. cbn [flat_map existsb negb].
    rewrite andb_true_r. reflexivity.
  - rewrite EncoderFacts.formatAll_cons. cbn [snd].
    rewrite IH, formatRequest_isFree, (bodyIds_cons r rs), existsb_app_eqb.
    destruct (isFree st id), (existsb (Nat.eqb id) (bodyIds [r])),
      (existsb (Nat.eqb id) (bodyIds rs)); reflexivity.
Qed.

Lemma formatAll_succeeds (prefix : str) (rs : list Request) (st : store * list nat) :
  forallb succeeds (fst (formatAll prefix rs st)) = acquirable st (bodyIds rs).
Proof.
  revert st; induction rs as [|r rs IH]; intros st; [reflexivity|].
  rewrite EncoderFacts.formatAll_cons. cbn [fst forallb].
  rewrite succeeds_bind, formatRequest_succeeds, IH.
  rewrite (acquirable_after st _ (bodyIds [r]) _ (formatRequest_isFree r st)).
  rewrite (bodyIds_cons r rs), acquirable_app, acquirable_one. reflexivity.
Qed.

Lemma formatParts_isFree (b : str) (random : nat -> str) (k : nat)
      (items : list (Request + list Request)) (st : store * list nat) (id : nat) :
  isFree (snd (formatParts b random k items st)) id
  = isFree st id && negb (existsb (Nat.eqb id) (bodyIds (flatten items))).
Proof.
  revert k st; induction items as [|[r|rs] items IH]; intros k st.
  - cbn [formatParts snd]. unfold bodyIds. cbn [flatten flat_map existsb negb].
    rewrite andb_true_r. reflexivity.
  - rewrite EncoderFacts.formatParts_inl. cbn [snd].
    rewrite IH, formatRequest_isFree, KindFacts.flatten_cons, bodyIds_app,
      existsb_app_eqb.
    destruct (isFree st id), (existsb (Nat.eqb id) (bodyIds [r])),
      (existsb (Nat.eqb id) (bodyIds (flatten items))); reflexivity.
  - pose proof (EncoderFacts.formatParts_inr b random k rs items st) as E.
    cbv zeta in E. rewrite E. cbn [snd].
    rewrite IH, formatAll_isFree, KindFacts.flatten_cons, bodyIds_app, existsb_app_eqb.
    destruct (isFree st id), (existsb (Nat.eqb id) (bodyIds rs)),
      (existsb (Nat.eqb id) (bodyIds (flatten items))); reflexivity.
Qed.

Lemma formatParts_succeeds (b : str) (random : nat -> str) (k : nat)
      (items : list (Request + list Request)) (st : store * list nat) :
  forallb succeeds (fst (formatParts b random k items st))
  = acquirable st (bodyIds (flatten items)).
Proof.
  revert k st; induction items as [|[r|rs] items IH]; intros k st; [reflexivity| |].
  - rewrite EncoderFacts.formatParts_inl. cbn [fst forallb].
    rewrite succeeds_bind, formatRequest_succeeds, IH.
    rewrite (acquirable_after st _ (bodyIds [r]) _ (formatRequest_isFree r st)).
    rewrite KindFacts.flatten_cons, bodyIds_app, acquirable_app, acquirable_one.
    reflexivity.
  - pose proof (EncoderFacts.formatParts_inr b random k rs items st) as E.
    cbv zeta in E. rewrite E. cbn [fst forallb].
    rewrite succeeds_bind, succeeds_all, formatAll_succeeds, IH.
    rewrite (acquirable_after st _ (bodyIds rs) _
               (formatAll_isFree ("--" ++ "changeset_" ++ random k) rs st)).
    rewrite KindFacts.flatten_cons, bodyIds_app, acquirable_app. reflexivity.
Qed.

(** *** The headers of the outer request *)

Lemma fill_outer (auth contentType : str) :
  Fetch.fill [] [("Authorization" : str, auth); ("OData-Version" : str, "4.0" : str);
                 ("Content-Type" : str, contentType)]
  = if Fetch.isHeaderValue (Fetch.normalize auth)
       && Fetch.isHeaderValue (Fetch.normalize contentType)
    then Ok [("Authorization" : str, Fetch.normalize auth);
             ("OData-Version" : str, "4.0" : str);
             ("Content-Type" : str, Fetch.normalize contentType)]
    else Throw TypeError.
Proof.
  unfold Fetch.fill, Fetch.append.
  replace (Fetch.isHeaderName "Authorization") with true by reflexivity.
  replace (Fetch.isHeaderName "OData-Version") with true by reflexivity.
  replace (Fetch.isHeaderName "Content-Type") with true by reflexivity.
  replace (Fetch.isHeaderValue (Fetch.normalize "4.0")) with true by reflexivity.
  replace (Fetch.normalize "4.0") with ("4.0" : str) by reflexivity.
  cbn [andb].
  destruct (Fetch.isHeaderValue (Fetch.normalize auth)); cbn [bind app andb];
    [|reflexivity].
  destruct (Fetch.isHeaderValue (Fetch.normalize contentType)); reflexivity.
Qed.

Lemma acquirable_spec (st : store * list nat) (ids : list nat) :
  acquirable st ids = true
  <-> NoDup ids /\ forall id, In id ids -> isFree st id = true.
Proof.
  induction ids as [|id ids IH].
  - split; [intros _; split; [constructor|intros ? []]|reflexivity].
  - cbn [acquirable]. rewrite !andb_true_iff, IH, negb_true_iff. split.
    + intros [[F N] [D A]]. split.
      * constructor; [|exact D]. intros Hin.
        apply EncoderFacts.existsb_eqb_In in Hin. congruence.
      * intros id' [<-|Hin]; [exact F|exact (A _ Hin)].
    + intros [D A]. inversion D as [|? ? Hn D']; subst. repeat split.
      * apply A. left. reflexivity.
      * destruct (existsb (Nat.eqb id) ids) eqn:E; [|reflexivity].
        apply EncoderFacts.existsb_eqb_In in E. contradiction.
      * exact D'.
      * intros id' Hin. apply A. right. exact Hin.
Qed.

(** [toRequest] returns when the two header values are accepted and the
    body streams can be acquired. *)
Lemma toRequest_succeeds (this : t) (random : nat -> str) (sigma : store) :
  succeeds (fst (toRequest this random sigma))
  = Fetch.isHeaderValue (Fetch.normalize (authorizationHeader this))
    && Fetch.isHeaderValue
         (Fetch.normalize ("multipart/mixed; boundary=" ++ "batch_" ++ random 0))
    && acquirable (sigma, []) (bodyIds (flatten (envelope this))).
Proof.
  unfold toRequest. rewrite fill_outer.
  destruct (Fetch.isHeaderValue (Fetch.normalize (authorizationHeader this))
            && Fetch.isHeaderValue _); [|reflexivity].
  destruct (formatParts _ random 1 (envelope this) (sigma, [])) as [parts st'] eqn:E.
  cbn [fst andb]. rewrite succeeds_bind, succeeds_all.
  rewrite <- (formatParts_succeeds ("batch_" ++ random 0) random 1). rewrite E.
  reflexivity.
Qed.

Lemma isFree_initial (sigma : store) (id : nat) :
  isFree (sigma, []) id = negb (locked (sigma id)).
Proof. unfold isFree. cbn [fst snd existsb]. rewrite orb_false_r. reflexivity. Qed.

Lemma encodable_succeeds (this : t) (random : nat -> str) (sigma : store) :
  encodable this random sigma <-> succeeds (fst (toRequest this random sigma)) = true.
Proof.
  rewrite toRequest_succeeds, !andb_true_iff, acquirable_spec. unfold encodable.
  split.
  - intros (A & C & D & L). repeat split; try assumption.
    intros id Hin. rewrite isFree_initial, (L id Hin). reflexivity.
  - intros ((A & C) & D & L). repeat split; try assumption.
    intros id Hin. specialize (L id Hin). rewrite isFree_initial in L.
    apply negb_true_iff in L. exact L.
Qed.

Lemma In_bodyIds (rs : list Request) (id : nat) :
  In id (bodyIds rs) <-> exists r, In r rs /\ body r = Some id.
Proof.
  unfold bodyIds. rewrite in_flat_map. split; intros (r & Hin & H); exists r;
    (split; [exact Hin|]).
  - destruct (body r) as [j|]; [|destruct H]. destruct H as [->|[]]. reflexivity.
  - rewrite H. left. reflexivity.
Qed.

End EncodingFacts.

(** X13. When [toRequest] builds the outer request, [Headers] accepted the
    authorization value and the Content-Type with the boundary, every body
    stream of the batch was unlocked, and no stream is the body of two
    operations. *)
Theorem toRequest_needs_free_bodies :
  forall (this : BatchRequest.t) (random : nat -> str) (sigma sigma' : store)
         (w : WireRequest),
    BatchRequest.toRequest this random sigma = (Ok w, sigma') ->
    Fetch.isHeaderValue (Fetch.normalize (BatchRequest.authorizationHeader this)) = true
    /\ Fetch.isHeaderValue
         (Fetch.normalize ("multipart/mixed; boundary=" ++ "batch_" ++ random 0)) = true
    /\ NoDup (Encoding.bodyIds (flatten (BatchRequest.envelope this)))
    /\ (forall r id, In r (flatten (BatchRequest.envelope this)) ->
                     body r = Some id -> locked (sigma id) = false).
Proof.
  intros this random sigma sigma' w H.
  assert (E : Encoding.encodable this random sigma).
  { apply EncodingFacts.encodable_succeeds. rewrite H. reflexivity. }
  destruct E as (A & C & D & L).
  split; [exact A|]. split; [exact C|]. split; [exact D|].
  intros r id Hin Hb. apply L, EncodingFacts.In_bodyIds. exists r. split; assumption.
Qed.

Lemma toRequest_needs_free_bodies_witness :
  NoDup (Encoding.bodyIds (flatten (BatchRequest.envelope Examples.batch)))
  /\ (forall r id, In r (flatten (BatchRequest.envelope Examples.batch)) ->
                   body r = Some id -> locked (Examples.sigma id) = false).
Proof.
  exact (proj2 (proj2 (toRequest_needs_free_bodies
                         Examples.batch Examples.random Examples.sigma _ _ eq_refl))).
Defined.

(** X14. When [Headers] refuses the authorization value, which a line break
    inside it brings about, [toRequest] fails with a [TypeError] before a
    body is read: every stream is as it was. *)
Theorem toRequest_refuses_authorization :
  forall (this : BatchRequest.t) (random : nat -> str) (sigma : store),
    Fetch.isHeaderValue (Fetch.normalize (BatchRequest.authorizationHeader this))
    = false ->
    BatchRequest.toRequest this random sigma = (Throw TypeError, sigma).
Proof.
  intros this random sigma H. unfold BatchRequest.toRequest.
  rewrite EncodingFacts.fill_outer, H. reflexivity.
Qed.

Lemma toRequest_refuses_authorization_witness :
  BatchRequest.toRequest
    (BatchRequest.constructor Examples.endpoint ("FMID token" ++ CRLF ++ "X-Extra: 1")
                              [Examples.post1])
    Examples.random Examples.sigma
  = (Throw TypeError, Examples.sigma).
Proof.
  apply (toRequest_refuses_authorization
           (BatchRequest.constructor Examples.endpoint
                                     ("FMID token" ++ CRLF ++ "X-Extra: 1")
                                     [Examples.post1])
           Examples.random Examples.sigma).
  reflexivity.
Defined.

(** X15. A batch is encoded with its bodies once: after a [toRequest] that
    returned, a second [toRequest] returns as well, with the same parts but
    the empty text for the body of every operation, and changes no stream. *)
Theorem toRequest_again_sends_empty_bodies :
  forall (this : BatchRequest.t) (random random' : nat -> str)
         (sigma sigma' : store) (w : WireRequest),
    BatchRequest.toRequest this random sigma = (Ok w, sigma') ->
    Fetch.isHeaderValue
      (Fetch.normalize ("multipart/mixed; boundary=" ++ "batch_" ++ random' 0)) = true ->
    exists w' sigma'',
      BatchRequest.toRequest this random' sigma' = (Ok w', sigma'')
      /\ wireBody w'
         = Multipart.topText (Encoder.requestText sigma') ("batch_" ++ random' 0)
             (Encoder.envelopeTree random' 1 (BatchRequest.envelope this))
      /\ (forall r, In r (flatten (BatchRequest.envelope this)) ->
                    Encoder.bodyOf sigma' r = [])
      /\ (forall id, sigma'' id = sigma' id).
Proof.
  intros this random random' sigma sigma' w H Hct.
  destruct (EncoderFacts.toRequest_ok _ _ _ _ _ H) as (_ & _ & _ & _ & Hs).
  assert (Hd : forall r id, In r (flatten (BatchRequest.envelope this)) ->
                            body r = Some id -> sigma' id = drained).
  { intros r id Hin Hb. rewrite Hs.
    replace (existsb (Encoder.hasBody id) (flatten (BatchRequest.envelope this)))
      with true; [reflexivity|].
    symmetry. apply EncoderFacts.existsb_hasBody. exists r. split; assumption. }
  assert (E : Encoding.encodable this random sigma).
  { apply EncodingFacts.encodable_succeeds. rewrite H. reflexivity. }
  destruct E as (A & _ & D & _).
  assert (E' : Encoding.encodable this random' sigma').
  { repeat split; try assumption.
    intros id Hin. apply EncodingFacts.In_bodyIds in Hin as (r & Hin & Hb).
    rewrite (Hd r id Hin Hb). reflexivity. }
  apply EncodingFacts.encodable_succeeds, EncodingFacts.succeeds_ok in E'.
  destruct E' as [w' Hw'].
  assert (H' : BatchRequest.toRequest this random' sigma'
               = (Ok w', snd (BatchRequest.toRequest this random' sigma'))).
  { rewrite <- Hw'. apply surjective_pairing. }
  destruct (EncoderFacts.toRequest_ok _ _ _ _ _ H') as (_ & _ & _ & Hb' & Hs').
  exists w', (snd (BatchRequest.toRequest this random' sigma')).
  split; [exact H'|]. split; [exact Hb'|]. split.
  - intros r Hin. unfold Encoder.bodyOf.
    destruct (body r) as [id|] eqn:Hb; [|reflexivity].
    rewrite (Hd r id Hin Hb). reflexivity.
  - intros id. rewrite Hs'.
    destruct (existsb (Encoder.hasBody id) (flatten (BatchRequest.envelope this))) eqn:X;
      [|reflexivity].
    apply EncoderFacts.existsb_hasBody in X as (r & Hin & Hb).
    symmetry. exact (Hd r id Hin Hb).
Qed.

Lemma toRequest_again_sends_empty_bodies_witness :
  exists w w',
    fst (BatchRequest.toRequest Examples.batch Examples.random Examples.sigma) = Ok w
    /\ fst (BatchRequest.toRequest
              Examples.batch Examples.random
              (snd (BatchRequest.toRequest Examples.batch Examples.random Examples.sigma)))
       = Ok w'
    /\ Encoder.bodyOf Examples.sigma Examples.post1 = ("{}" : str)
    /\ Encoder.bodyOf
         (snd (BatchRequest.toRequest Examples.batch Examples.random Examples.sigma))
         Examples.post1 = [].
Proof.
  destruct (toRequest_again_sends_empty_bodies
              Examples.batch Examples.random Examples.random Examples.sigma _ _
              eq_refl eq_refl)
    as (w' & sigma'' & H & _ & He & _).
  eexists. exists w'. split; [reflexivity|]. split; [exact (f_equal fst H)|].
  split; [reflexivity|]. apply He. right. left. reflexivity.
Defined.

(** ** The framing of an encoded batch *)

Module RequestFramingFacts.
Import BatchRequest Encoder Multipart Replies.

(** The delimiter of the batch is not in a changeset whose parts do not
    hold it, whatever the parts are. *)
Lemma changeset_clear {A} (leaf : A -> str) (X Y : str) (xs : list A) :
  isHex X = true -> isHex Y = true ->
  Forall (fun a => JS.includes (leaf a) ("--" ++ "batch_" ++ X) = false) xs ->
  JS.includes (partText leaf (Node ("changeset_" ++ Y) (map Leaf xs)))
              ("--" ++ "batch_" ++ X) = false.
Proof.
  intros HX HY Hxs.
  destruct (RoundTripFacts.batch_delimiter_lines X HX) as (P0 & P1 & P2).
  set (p := ("--" : str) ++ "batch_" ++ X) in *.
  set (line := fun a => "--" ++ ("changeset_" ++ Y) ++ CRLF ++ leaf a ++ CRLF).
  set (shut := "--" ++ ("changeset_" ++ Y) ++ "--").
  assert (Hopen : JS.includes (("--changeset" : str) ++ "_" ++ Y ++ []) p = false)
    by exact (RoundTripFacts.changeset_line_clear "--changeset" X Y [] HY eq_refl eq_refl).
  assert (Hshut : JS.includes shut p = false)
    by exact (RoundTripFacts.changeset_line_clear "--changeset" X Y "--" HY eq_refl eq_refl).
  assert (Hrest : JS.includes (concat (map line xs) ++ shut) p = false).
  { induction Hxs as [|a xs Ha _ IH]; [exact Hshut|].
    cbn [map concat].
    replace ((line a ++ concat (map line xs)) ++ shut)
      with ((("--changeset" : str) ++ "_" ++ Y ++ []) ++ CRLF
            ++ (leaf a ++ CRLF ++ (concat (map line xs) ++ shut)))
      by (unfold line; rewrite app_nil_r, <- !app_assoc; reflexivity).
    apply (JSFacts.includes_line p P0 P1 P2); [exact Hopen|].
    apply (JSFacts.includes_line p P0 P1 P2); [exact Ha|exact IH]. }
  assert (E : partText leaf (Node ("changeset_" ++ Y) (map Leaf xs))
              = (("Content-Type: multipart/mixed; boundary=changeset" : str)
                 ++ "_" ++ Y ++ [])
                ++ CRLF ++ ([] ++ CRLF ++ (concat (map line xs) ++ shut))).
  { cbn [partText]. rewrite map_map. cbn [partText]. fold line. fold shut.
    rewrite app_nil_r, <- !app_assoc. reflexivity. }
  rewrite E.
  apply (JSFacts.includes_line p P0 P1 P2).
  - exact (RoundTripFacts.changeset_line_clear
             "Content-Type: multipart/mixed; boundary=changeset" X Y [] HY
             eq_refl eq_refl).
  - apply (JSFacts.includes_line p P0 P1 P2); [reflexivity|exact Hrest].
Qed.

(** No part of the envelope holds the delimiter of the batch when no
    operation does. *)
Lemma envelope_clear (leaf : Request -> str) (random : nat -> str) :
  (forall k, isHex (random k) = true) ->
  forall (items : list (Request + list Request)) (k : nat),
    (forall r, In r (flatten items) ->
               JS.includes (leaf r) ("--" ++ "batch_" ++ random 0) = false) ->
    Forall (fun t => JS.includes (partText leaf t) ("--" ++ "batch_" ++ random 0) = false)
           (envelopeTree random k items).
Proof.
  intros Hhex. induction items as [|[r|rs] items IH]; intros k H; cbn [envelopeTree].
  - constructor.
  - constructor.
    + cbn [partText]. apply H. left. reflexivity.
    + apply IH. intros r' Hin. apply H. right. exact Hin.
  - constructor.
    + apply changeset_clear; [apply Hhex|apply Hhex|].
      apply Forall_forall. intros r Hin. apply H.
      rewrite KindFacts.flatten_cons. apply in_app_iff. left. exact Hin.
    + apply IH. intros r Hin. apply H.
      rewrite KindFacts.flatten_cons. apply in_app_iff. right. exact Hin.
Qed.

Lemma get_outer (v1 v2 v3 : str) :
  v3 <> [] ->
  Fetch.get [("Authorization" : str, v1); ("OData-Version" : str, v2);
             ("Content-Type" : str, v3)] "Content-Type"
  = Some v3.
Proof.
  intros H. unfold Fetch.get, Fetch.valuesOf. cbn [filter fst].
  replace (Fetch.sameName "Authorization" "Content-Type") with false by reflexivity.
  replace (Fetch.sameName "OData-Version" "Content-Type") with false by reflexivity.
  replace (Fetch.sameName "Content-Type" "Content-Type") with true by reflexivity.
  reflexivity.
Qed.

End RequestFramingFacts.

(** X16. The outer request agrees with itself: with boundaries of
    hexadecimal digits, the boundary that [getBoundary] reads from its
    Content-Type is the boundary of its body, and the parts that
    [parseMultipartResponse] would cut from the body are the parts of the
    envelope, one per lone operation or changeset, in their order, provided
    no operation holds the delimiter of the batch in its text. *)
Theorem toRequest_body_is_framed :
  forall (this : BatchRequest.t) (random : nat -> str) (sigma sigma' : store)
         (w : WireRequest),
    BatchRequest.toRequest this random sigma = (Ok w, sigma') ->
    (forall k, Replies.isHex (random k) = true) ->
    (forall r, In r (flatten (BatchRequest.envelope this)) ->
               JS.includes (Encoder.requestText sigma r)
                           ("--" ++ "batch_" ++ random 0) = false) ->
    BatchRequest.getBoundary (wireHeaders w) = Ok ("batch_" ++ random 0)
    /\ Decoder.bodyParts (wireBody w) ("batch_" ++ random 0)
       = map (fun t => Multipart.partText (Encoder.requestText sigma) t ++ CRLF)
             (Encoder.envelopeTree random 1 (BatchRequest.envelope this)).
Proof.
  intros this random sigma sigma' w H Hhex Hclear.
  destruct (EncoderFacts.toRequest_ok _ _ _ _ _ H) as (_ & _ & Hh & Hb & _).
  assert (B : Replies.boundaryOk ("batch_" ++ random 0) = true)
    by (apply (RoundTripFacts.hex_boundaryOk "batch_"); [reflexivity|apply Hhex]).
  destruct (RepliesFacts.multipart_value _ B) as (_ & T & _).
  split.
  - apply (RepliesFacts.getBoundary_ok _ _); [|exact B].
    rewrite Hh, (RepliesFacts.normalize_trimmed _ T).
    apply RequestFramingFacts.get_outer. discriminate.
  - rewrite Hb, RepliesFacts.topText_eq.
    set (ts := Encoder.envelopeTree random 1 (BatchRequest.envelope this)).
    pose proof (RepliesFacts.bodyParts_text
                  (Encoder.requestText sigma) ("batch_" ++ random 0) ts
                  (match ts with [] => CRLF | _ :: _ => [] end) [] B) as L.
    rewrite app_nil_r in L. apply L.
    + apply RequestFramingFacts.envelope_clear; assumption.
    + destruct ts; [right|left]; reflexivity.
Qed.

Lemma toRequest_body_is_framed_witness :
  exists w,
    fst (BatchRequest.toRequest Examples.batch Examples.random Examples.sigma) = Ok w
    /\ BatchRequest.getBoundary (wireHeaders w) = Ok ("batch_" ++ Examples.random 0)
    /\ length (Decoder.bodyParts (wireBody w) ("batch_" ++ Examples.random 0)) = 2.
Proof.
  destruct (toRequest_body_is_framed
              Examples.batch Examples.random Examples.sigma _ _ eq_refl)
    as (Hg & Hp).
  - intros [|[|k]]; reflexivity.
  - intros r [<-|[<-|[]]]; vm_compute; reflexivity.
  - eexists. split; [reflexivity|]. split; [exact Hg|].
    rewrite Hp. reflexivity.
Defined.

(** ** A header line without colon *)

Module ColonFacts.
Import StrProps BatchRequest Decoder.

Lemma tchar_plain (c : ascii) :
  Fetch.isTchar c = true ->
  JS.isWhiteSpace c = false
  /\ negb (existsb (Nat.eqb (nat_of_ascii c)) [0; 10; 13]) = true.
Proof.
  destruct c as [[] [] [] [] [] [] [] []]; intros H; try discriminate H;
    split; reflexivity.
Qed.

Lemma tchars_trimmed (line : str) : forallb Fetch.isTchar line = true -> trimmed line.
Proof.
  intros H. rewrite forallb_forall in H. split; intros c r E; subst line.
  - apply tchar_plain, H. left. reflexivity.
  - apply tchar_plain, H. apply in_app_iff. right. left. reflexivity.
Qed.

Lemma removelast_tchars (line : str) :
  2 <= length line -> forallb Fetch.isTchar line = true ->
  Fetch.isHeaderName (removelast line) = true.
Proof.
  intros L H. destruct line as [|c [|d line]]; try (simpl in L; lia).
  change (removelast (c :: d :: line)) with (c :: removelast (d :: line)).
  cbn [Fetch.isHeaderName]. rewrite forallb_forall in *. intros x Hx.
  apply H. destruct Hx as [<-|Hx]; [left; reflexivity|right].
  clear -Hx. revert Hx. generalize (d :: line) as l. clear. intros l.
  induction l as [|y l IH]; [intros []|].
  destruct l as [|z l]; [intros []|]. intros [<-|Hx]; [left; reflexivity|].
  right. apply IH. exact Hx.
Qed.

(** The header read from a line of token characters: without a colon,
    [slice(0, -1)] names it and [slice(0)] is its value. *)
Lemma headerOfLine_without_colon (line : str) :
  forallb Fetch.isTchar line = true ->
  headerOfLine line = (removelast line, line).
Proof.
  intros H. unfold headerOfLine.
  rewrite (JSFacts.indexOf_none line ":")
    by (apply JSFacts.find_free, RepliesFacts.tchar_not_colon, H).
  rewrite JSFacts.slice_minus_one. change (-1 + 1)%Z with (Z.of_nat 0).
  rewrite JSFacts.sliceFrom_nat. cbn [skipn].
  rewrite (JSFacts.trim_id line (tchars_trimmed line H)).
  rewrite (RepliesFacts.normalize_trimmed line (tchars_trimmed line H)). reflexivity.
Qed.

End ColonFacts.

(** X17. A header line without colon is not refused when it is made of token
    characters: [indexOf] answers -1, so that the name is the line without
    its last code unit and the value is the whole line. *)
Theorem splitPart_header_line_without_colon :
  forall line body : str,
    2 <= length line ->
    forallb Fetch.isTchar line = true ->
    BatchRequest.splitPart (line ++ CRLF ++ CRLF ++ body)
    = Ok ([(removelast line, line)], body).
Proof.
  intros line body L H.
  assert (Hcr : Forall (fun d => d <> CR) line).
  { apply (RepliesFacts.forallb_free _ _ _ H). reflexivity. }
  assert (Hsplit : JS.split line CRLF = [line]).
  { apply JSFacts.split_none; [discriminate|]. apply JSFacts.find_free. exact Hcr. }
  rewrite RepliesFacts.splitPart_block.
  - rewrite Hsplit. cbn [map]. rewrite (ColonFacts.headerOfLine_without_colon line H).
    reflexivity.
  - destruct line as [|c line]; [simpl in L; lia|].
    inversion Hcr as [|? ? Hc _]; subst. cbn [app].
    apply JSFacts.startsWith_head. congruence.
  - apply (RepliesFacts.find_blank_line line [] body).
    constructor; [|constructor]. split; [|exact Hcr].
    destruct line; [simpl in L; lia|discriminate].
  - rewrite Hsplit. cbn [forallb]. rewrite andb_true_r.
    unfold Decoder.validHeaderLine.
    rewrite (ColonFacts.headerOfLine_without_colon line H). cbn [fst snd].
    rewrite (ColonFacts.removelast_tchars line L H). cbn [andb].
    unfold Fetch.isHeaderValue. apply forallb_forall. intros c Hc.
    rewrite forallb_forall in H. apply ColonFacts.tchar_plain, H, Hc.
Qed.

Lemma splitPart_header_line_without_colon_witness :
  BatchRequest.splitPart ("abc" ++ CRLF ++ CRLF ++ "body")
  = Ok ([("ab" : str, "abc" : str)], "body" : str).
Proof.
  apply (splitPart_header_line_without_colon "abc" "body").
  - simpl. lia.
  - reflexivity.
Defined.

(** ** A reply without content in a batch *)

Module NoContentFacts.
Import BatchRequest Decoder Replies Multipart.

(** The parts of replies are split whatever the replies hold. *)
Lemma mapSplitPart_replies (l : list Reply) :
  mapSplitPart (map (fun x => replyPart x ++ CRLF) l)
  = Ok (map (fun x => ([("Content-Type" : str, "application/http" : str);
                        ("Content-Transfer-Encoding" : str, "binary" : str)],
                       httpText x ++ CRLF)) l).
Proof.
  induction l as [|x l IH]; [reflexivity|].
  cbn [map mapSplitPart].
  replace (replyPart x ++ CRLF)
    with ("Content-Type: application/http" ++ CRLF
          ++ "Content-Transfer-Encoding: binary" ++ CRLF ++ CRLF ++ (httpText x ++ CRLF))
    by (unfold replyPart; rewrite <- !app_assoc; reflexivity).
  rewrite PartFacts.splitPart_operation. cbn [bind]. rewrite IH. reflexivity.
Qed.

Lemma dispatch_reply (rec : str -> Fetch.Headers -> result (list Fetch.Response))
      (text : str) :
  dispatch rec (fun r => r)
           ([("Content-Type" : str, "application/http" : str);
             ("Content-Transfer-Encoding" : str, "binary" : str)], text)
  = let* r := parseHttpResponse text in Ok [r].
Proof. reflexivity. Qed.

End NoContentFacts.


